(** * umbrel-cli: the linting core ([src/modules/lint.ts])

    A shallow embedding of the three validators [lintUmbrelAppStoreYml],
    [lintUmbrelAppYml] and [lintDockerComposeYml], together with the
    fragment of the JavaScript runtime they rely on: dynamically typed
    values as produced by [YAML.parse], property access with its
    [TypeError]s, and backtracking regular expressions.

    Strings are sequences of code units; the model uses [string], whose
    code units range over 0..255, so the only line terminators that can
    occur are LF and CR. *)

From Stdlib Require Import String Ascii List Bool Arith Lia DecimalString.
Import ListNotations.
Open Scope string_scope.
Set Warnings "-register-all".

(* ================================================================== *)
(** ** Regular expressions (ECMAScript backtracking semantics) *)

Module RegExp.

(** The pattern syntax used by the six literals of [lint.ts]. *)
Inductive regex : Type :=
| Empty
| Char (c : ascii)              (* a literal (possibly escaped) character *)
| Dot                           (* [.]  : anything but a line terminator  *)
| Seq (r1 r2 : regex)
| Opt (r : regex)               (* [r?]  greedy                           *)
| Plus (r : regex)              (* [r+]  greedy                           *)
| StarLazy (r : regex)          (* [r*?] lazy                             *)
| Group (n : nat) (r : regex)   (* the n-th capturing parenthesis         *)
| Bol                           (* [^] without the m flag                 *)
| Eol.                          (* [$] without the m flag                 *)

(** A match state: the index reached, the input that is left from there,
    and the captures made so far (latest first). *)
Record MatchState : Type := mkState {
  endIndex : nat;
  rest : string;
  captures : list (nat * string)
}.

Definition Continuation : Type := MatchState -> option MatchState.
Definition Matcher : Type := MatchState -> Continuation -> option MatchState.

Definition is_line_terminator (a : ascii) : bool :=
  Ascii.eqb a "010"%char || Ascii.eqb a "013"%char.

Definition char_matcher (p : ascii -> bool) : Matcher := fun x c =>
  match rest x with
  | String a t =>
      if p a then c (mkState (S (endIndex x)) t (captures x)) else None
  | EmptyString => None
  end.

(** RepeatMatcher with min = 0 and no upper bound, greedy.  An iteration
    that consumes nothing is rejected, so every iteration advances and
    [fuel = length (rest x)] iterations are always enough. *)
Fixpoint repeat_greedy (m : Matcher) (fuel : nat) : Matcher := fun x c =>
  match fuel with
  | 0 => c x
  | S f =>
      match m x (fun y => if Nat.eqb (endIndex y) (endIndex x) then None
                          else repeat_greedy m f y c) with
      | Some z => Some z
      | None => c x
      end
  end.

(** The same, lazy: the continuation is tried before another iteration. *)
Fixpoint repeat_lazy (m : Matcher) (fuel : nat) : Matcher := fun x c =>
  match c x with
  | Some z => Some z
  | None =>
      match fuel with
      | 0 => None
      | S f => m x (fun y => if Nat.eqb (endIndex y) (endIndex x) then None
                             else repeat_lazy m f y c)
      end
  end.

Definition consumed (x y : MatchState) : string :=
  substring 0 (endIndex y - endIndex x) (rest x).

Fixpoint compile (r : regex) : Matcher :=
  match r with
  | Empty => fun x c => c x
  | Char ch => char_matcher (Ascii.eqb ch)
  | Dot => char_matcher (fun a => negb (is_line_terminator a))
  | Seq r1 r2 => fun x c => compile r1 x (fun y => compile r2 y c)
  | Opt r1 => fun x c =>
      match compile r1 x (fun y => if Nat.eqb (endIndex y) (endIndex x) then None
                                   else c y) with
      | Some z => Some z
      | None => c x
      end
  | Plus r1 => fun x c =>
      compile r1 x (fun y =>
        repeat_greedy (compile r1) (String.length (rest y)) y c)
  | StarLazy r1 => fun x c =>
      repeat_lazy (compile r1) (String.length (rest x)) x c
  | Group n r1 => fun x c =>
      compile r1 x (fun y =>
        c (mkState (endIndex y) (rest y) ((n, consumed x y) :: captures y)))
  | Bol => fun x c => if Nat.eqb (endIndex x) 0 then c x else None
  | Eol => fun x c =>
      match rest x with
      | EmptyString => c x
      | String _ _ => None
      end
  end.

(** RegExpBuiltinExec for a pattern without the g and y flags: the match
    is attempted at index 0, 1, ... up to the length of the input. *)
Fixpoint exec_from (r : regex) (i : nat) (s : string) : option MatchState :=
  match compile r (mkState i s []) Some with
  | Some z => Some z
  | None =>
      match s with
      | EmptyString => None
      | String _ t => exec_from r (S i) t
      end
  end.

(** [s.match(r)]: [None] is JavaScript's [null]. *)
Definition match_ (s : string) (r : regex) : option MatchState :=
  exec_from r 0 s.

(** Element [n >= 1] of the match array; [None] is [undefined]. *)
Fixpoint assoc_nat (n : nat) (l : list (nat * string)) : option string :=
  match l with
  | [] => None
  | (k, v) :: t => if Nat.eqb k n then Some v else assoc_nat n t
  end.

Definition group (n : nat) (m : MatchState) : option string :=
  assoc_nat n (captures m).

Fixpoint lit (s : string) : regex :=
  match s with
  | EmptyString => Empty
  | String a t => Seq (Char a) (lit t)
  end.

Fixpoint cat (l : list regex) : regex :=
  match l with
  | [] => Empty
  | [r] => r
  | r :: t => Seq r (cat t)
  end.

End RegExp.

(* ================================================================== *)
(** ** JavaScript values and the operations the validators apply *)

Module JS.

(** What [YAML.parse] can return with the core schema, plus [undefined],
    which property access can produce.  A number is kept as its canonical
    rendering [Number.prototype.toString()]; an object lists its own
    properties in enumeration order. *)
Inductive value : Type :=
| VUndefined
| VNull
| VBoolean (b : bool)
| VNumber (repr : string)
| VString (s : string)
| VArray (items : list value)
| VObject (props : list (string * value)).

Inductive exn : Type := TypeError.

Inductive completion (A : Type) : Type :=
| Normal (a : A)
| Throw (e : exn).
Arguments Normal {A} a.
Arguments Throw {A} e.

Definition bind {A B : Type} (m : completion A) (f : A -> completion B)
  : completion B :=
  match m with
  | Normal a => f a
  | Throw e => Throw e
  end.

Definition string_of_nat (n : nat) : string :=
  NilEmpty.string_of_uint (Nat.to_uint n).

Definition string_of_bool (b : bool) : string :=
  if b then "true" else "false".

(** ToBoolean *)
Definition truthy (v : value) : bool :=
  match v with
  | VUndefined | VNull => false
  | VBoolean b => b
  | VNumber repr => negb (String.eqb repr "0" || String.eqb repr "NaN")
  | VString s => negb (String.eqb s "")
  | VArray _ | VObject _ => true
  end.

Definition nullish (v : value) : bool :=
  match v with
  | VUndefined | VNull => true
  | _ => false
  end.

(** [a ?? b] *)
Definition coalesce (a b : value) : value := if nullish a then b else a.

(** ToString, as applied by template literals. *)
Fixpoint ToString (v : value) : string :=
  match v with
  | VUndefined => "undefined"
  | VNull => "null"
  | VBoolean b => string_of_bool b
  | VNumber repr => repr
  | VString s => s
  | VArray items =>
      String.concat ","
        (map (fun e => match e with
                       | VUndefined | VNull => ""
                       | _ => ToString e
                       end) items)
  | VObject _ => "[object Object]"
  end.

Fixpoint chars (s : string) : list string :=
  match s with
  | EmptyString => []
  | String a t => String a EmptyString :: chars t
  end.

Definition index_keys (n : nat) : list string :=
  map string_of_nat (seq 0 n).

(** [Object.entries(v)] for a [v] that is not nullish (every call site
    guards that with [?? {}] or a truthiness test). *)
Definition Object_entries (v : value) : list (string * value) :=
  match v with
  | VObject props => props
  | VArray items => combine (index_keys (length items)) items
  | VString s => combine (index_keys (String.length s)) (map VString (chars s))
  | _ => []
  end.

Definition Object_keys (v : value) : list string :=
  map fst (Object_entries v).

Fixpoint assoc (k : string) (l : list (string * value)) : option value :=
  match l with
  | [] => None
  | (k', v) :: t => if String.eqb k' k then Some v else assoc k t
  end.

Definition or_undefined (o : option value) : value :=
  match o with
  | Some v => v
  | None => VUndefined
  end.

(** The array index a property key denotes, if it is the canonical
    rendering of a number. *)
Definition array_index (k : string) : option nat :=
  match NilEmpty.uint_of_string k with
  | Some u =>
      let n := Nat.of_uint u in
      if String.eqb (string_of_nat n) k then Some n else None
  | None => None
  end.

(** [v[k]].  Reading a property of [null] or [undefined] throws.  On
    arrays and strings the own properties are the indices and [length];
    inherited methods are outside [value] and are never read by the
    validators. *)
Definition Get (v : value) (k : string) : completion value :=
  match v with
  | VUndefined | VNull => Throw TypeError
  | VObject props => Normal (or_undefined (assoc k props))
  | VArray items =>
      match array_index k with
      | Some i => Normal (nth i items VUndefined)
      | None =>
          if String.eqb k "length"
          then Normal (VNumber (string_of_nat (length items)))
          else Normal VUndefined
      end
  | VString s =>
      match array_index k with
      | Some i => Normal (nth i (map VString (chars s)) VUndefined)
      | None =>
          if String.eqb k "length"
          then Normal (VNumber (string_of_nat (String.length s)))
          else Normal VUndefined
      end
  | VBoolean _ | VNumber _ => Normal VUndefined
  end.

(** [k in v], for a [v] whose [typeof] is ["object"]: [null] throws. *)
Definition HasProperty (k : string) (v : value) : completion bool :=
  match v with
  | VNull => Throw TypeError
  | VObject props =>
      Normal (match assoc k props with Some _ => true | None => false end)
  | VArray items =>
      match array_index k with
      | Some i => Normal (i <? length items)%nat
      | None => Normal (String.eqb k "length")
      end
  | _ => Throw TypeError
  end.

(** [typeof v === "object"] *)
Definition typeof_object (v : value) : bool :=
  match v with
  | VNull | VArray _ | VObject _ => true
  | _ => false
  end.

(** [s.split(sep)] *)
Fixpoint split_go (sep s : string) (skip : nat) (cur : string) : list string :=
  match s with
  | EmptyString => [cur]
  | String a t =>
      match skip with
      | S k => split_go sep t k cur
      | 0 =>
          if String.prefix sep s
          then cur :: split_go sep t (String.length sep - 1) ""
          else split_go sep t 0 (cur ++ String a "")
      end
  end.

Definition split (s sep : string) : list string :=
  if String.eqb sep "" then chars s else split_go sep s 0 "".

(** [files.includes(p)] *)
Definition includes (files : list string) (p : string) : bool :=
  existsb (String.eqb p) files.

End JS.

Import RegExp JS.

Notation "x <- m ;; k" := (bind m (fun x => k))
  (at level 61, m at next level, right associativity).

(** The double-quote character, for the quoted parts of titles and
    messages. *)
Definition dq : string := String (ascii_of_nat 34) EmptyString.

(* ================================================================== *)
(** ** Diagnostics *)

Inductive Severity : Type := error | warning | info.

Record Range : Type := mkRange { start : nat; end_ : nat }.

Record LintingResult : Type := mkLintingResult {
  id : string;
  propertiesPath : option string;
  line : option Range;      (* starting at 1 *)
  column : option Range;    (* starting at 1 *)
  severity : Severity;
  title : string;
  message : string
}.

(** A segment of a key path: a property name or an array index. *)
Inductive Segment : Type :=
| Key (k : string)
| Index (i : nat).

Definition segment_to_string (p : Segment) : string :=
  match p with
  | Key k => k
  | Index i => string_of_nat i
  end.

(** [path.join(".")] *)
Definition join_path (path : list Segment) : string :=
  String.concat "." (map segment_to_string path).

(** Modelled from the spec: [getSourceMapForKey] of [utils/yaml], which is
    not part of the sources at hand.  It yields the [line] and [column]
    ranges of a key path, or omits them when the path cannot be
    resolved. *)
Record SourceMap : Type := mkSourceMap {
  sm_line : option Range;
  sm_column : option Range
}.

Module Zod.

Record ZodIssue : Type := mkIssue {
  code : string;
  path : list Segment;
  message : string
}.

Inductive SafeParseReturnType (D : Type) : Type :=
| SafeParseSuccess (data : D)
| SafeParseError (issues : list ZodIssue).
Arguments SafeParseSuccess {D} data.
Arguments SafeParseError {D} issues.

End Zod.

Module Ajv.

Record DefinedError : Type := mkError {
  keyword : string;
  instancePath : string;
  message : option string
}.

End Ajv.

(** Modelled from the spec: the output type of the app manifest schema
    ([schemas/umbrel-app.yml.schema], not part of the sources at hand).
    Of the manifest only the optional submission URL is read. *)
Record UmbrelApp : Type := mkUmbrelApp {
  submission : option string
}.

Record LintUmbrelAppYmlOptions : Type := mkOptions {
  isNewAppSubmission : option bool;
  pullRequestUrl : option string
}.

(** The libraries and modules the validators call: the [yaml] parser
    (its result is the parsed document, or [String(e)] of the error it
    throws), the variable mocker, the source-map resolver, the two zod
    schemas, the compiled Ajv validator of the compose schema (the flag
    it returns and its [errors] property) and [node:path]. *)
Record Collaborators : Type := mkCollaborators {
  YAML_parse : bool (* merge *) -> string -> string + value;
  mockVariables : string -> string;
  getSourceMapForKey : string -> list Segment -> SourceMap;
  umbrelAppStoreYmlSchema : value -> Zod.SafeParseReturnType value;
  umbrelAppYmlSchema : value -> Zod.SafeParseReturnType UmbrelApp;
  validate : value -> bool * option (list Ajv.DefinedError);
  path_normalize : string -> string;
  path_sep : string
}.

(* ================================================================== *)
(** ** The regular expression literals of [lint.ts] *)

(** [/^(.+):(.+)@(.+)$/] *)
Definition image_re : regex :=
  cat [Bol; Group 1 (Plus Dot); Char ":"; Group 2 (Plus Dot); Char "@";
       Group 3 (Plus Dot); Eol].

(** [\$\{?APP_DATA_DIR\}?], the common prefix of the volume patterns *)
Definition app_data_dir : regex :=
  cat [Char "$"; Opt (Char "{"); lit "APP_DATA_DIR"; Opt (Char "}")].

(** [/\$\{?APP_DATA_DIR\}?\/?:/] *)
Definition direct_mount_string_re : regex :=
  cat [app_data_dir; Opt (Char "/"); Char ":"].

(** [/\$\{?APP_DATA_DIR\}?\/?$/] *)
Definition direct_mount_source_re : regex :=
  cat [app_data_dir; Opt (Char "/"); Eol].

(** [/\$\{?APP_DATA_DIR\}?/] *)
Definition app_data_dir_re : regex := app_data_dir.

(** [/\$\{?APP_DATA_DIR\}?\/?(.*?):/] *)
Definition subpath_string_re : regex :=
  cat [app_data_dir; Opt (Char "/"); Group 1 (StarLazy Dot); Char ":"].

(** [/\$\{?APP_DATA_DIR\}?\/?(.*?)$/] *)
Definition subpath_source_re : regex :=
  cat [app_data_dir; Opt (Char "/"); Group 1 (StarLazy Dot); Eol].

(* ================================================================== *)
(** ** Loops over a shared [result] array *)

(** [for (const x of l) body], threading the array that [body] pushes
    to; an exception leaves the loop. *)
Fixpoint for_of {A : Type} (l : list A)
    (body : A -> list LintingResult -> completion (list LintingResult))
    (result : list LintingResult) : completion (list LintingResult) :=
  match l with
  | [] => Normal result
  | x :: t => result' <- body x result ;; for_of t body result'
  end.

(** [result.push(d)] *)
Definition push (d : LintingResult) (result : list LintingResult)
  : completion (list LintingResult) :=
  Normal (result ++ [d])%list.

(** [doc.services?.[service].name] *)
Definition service_field (doc : value) (service name : string)
  : completion value :=
  services <- Get doc "services" ;;
  if nullish services then Normal VUndefined
  else svc <- Get services service ;; Get svc name.

(** [doc.services?.[service]?.volumes] *)
Definition service_volumes (doc : value) (service : string)
  : completion value :=
  services <- Get doc "services" ;;
  if nullish services then Normal VUndefined
  else svc <- Get services service ;;
       if nullish svc then Normal VUndefined else Get svc "volumes".

(** [Object.keys(doc.services ?? {})] *)
Definition service_names (doc : value) : completion (list string) :=
  services <- Get doc "services" ;;
  Normal (Object_keys (coalesce services (VObject []))).

(** [o === s] for an [o] that is a string or [undefined] *)
Definition strict_eq (o : option string) (s : string) : bool :=
  match o with
  | Some s' => String.eqb s' s
  | None => false
  end.

(** [`${o}`] for an [o] that is a string or [undefined] *)
Definition show (o : option string) : string :=
  match o with
  | Some s => s
  | None => "undefined"
  end.

(** [!o] for an [o] that is a string or [undefined] *)
Definition falsy (o : option string) : bool :=
  match o with
  | Some s => String.eqb s ""
  | None => true
  end.

(* ================================================================== *)
(** ** The validators *)

Section Validators.

Variable E : Collaborators.

(** The diagnostic of one zod issue (both manifest validators). *)
Definition issue_result (content : string) (issue : Zod.ZodIssue)
  : LintingResult :=
  let sm := getSourceMapForKey E content (Zod.path issue) in
  {| id := Zod.code issue;
     propertiesPath := Some (join_path (Zod.path issue));
     line := sm_line sm;
     column := sm_column sm;
     severity := error;
     title := join_path (Zod.path issue);
     message := Zod.message issue |}.

Definition lintUmbrelAppStoreYml (content : string) : list LintingResult :=
  (* check if the file is valid yaml *)
  match YAML_parse E false content with
  | inl e =>
      [ {| id := "invalid_yaml_syntax";
           propertiesPath := None; line := None; column := None;
           severity := error;
           title := "umbrel-app-store.yml is not a valid YAML file";
           message := e |} ]
  | inr umbrelAppStoreYml =>
      (* zod parse the file *)
      match umbrelAppStoreYmlSchema E umbrelAppStoreYml with
      | Zod.SafeParseError issues => map (issue_result content) issues
      | Zod.SafeParseSuccess _ => []
      end
  end.

Definition lintUmbrelAppYml (content : string)
    (options : LintUmbrelAppYmlOptions) : list LintingResult :=
  (* check if the file is valid yaml *)
  match YAML_parse E false content with
  | inl e =>
      [ {| id := "invalid_yaml_syntax";
           propertiesPath := None; line := None; column := None;
           severity := error;
           title := "umbrel-app.yml is not a valid YAML file";
           message := e |} ]
  | inr rawUmbrelAppYml =>
      (* zod parse the file *)
      match umbrelAppYmlSchema E rawUmbrelAppYml with
      | Zod.SafeParseError issues => map (issue_result content) issues
      | Zod.SafeParseSuccess umbrelAppYml =>
          match isNewAppSubmission options, pullRequestUrl options with
          | Some true, Some url =>
              if negb (String.eqb url "")
                 && negb (strict_eq (submission umbrelAppYml) url)
              then
                [ {| id := "invalid_submission_field";
                     propertiesPath := None; line := None; column := None;
                     severity := error;
                     title := "Invalid submission field " ++ dq
                              ++ show (submission umbrelAppYml) ++ dq;
                     message := "The submission field must be set to the URL of this pull request: "
                                ++ url |} ]
              else []
          | _, _ => []
          end
      end
  end.

(** The key path of an Ajv error:
    [path.normalize(instancePath).split(path.sep).filter(Boolean)] *)
Definition instance_keys (instancePath : string) : list string :=
  filter (fun s => negb (String.eqb s ""))
         (split (path_normalize E instancePath) (path_sep E)).

Definition schema_error_result (content : string) (err : Ajv.DefinedError)
  : LintingResult :=
  let keys := instance_keys (Ajv.instancePath err) in
  let sm := getSourceMapForKey E content (map Key keys) in
  {| id := Ajv.keyword err;
     propertiesPath := Some (String.concat "." keys);
     line := sm_line sm;
     column := sm_column sm;
     severity := error;
     title := Ajv.instancePath err;
     message := match Ajv.message err with
                | Some m => m
                | None => "Unknown error"
                end |}.

(** The two diagnostics of the image check. *)
Definition image_name_result (content service image : string)
  : LintingResult :=
  let sm := getSourceMapForKey E content
              [Key "services"; Key service; Key "image"] in
  {| id := "invalid_docker_image_name";
     propertiesPath := Some ("services." ++ service ++ ".image");
     line := sm_line sm;
     column := sm_column sm;
     severity := error;
     title := "Invalid image name " ++ dq ++ image ++ dq;
     message := "Images should be named like " ++ dq
                ++ "<name>:<version-tag>@<sha256>" ++ dq |}.

Definition image_tag_result (content service : string)
    (version : option string) : LintingResult :=
  let sm := getSourceMapForKey E content
              [Key "services"; Key service; Key "image"] in
  {| id := "invalid_docker_image_name";
     propertiesPath := Some ("services." ++ service ++ ".image");
     line := sm_line sm;
     column := sm_column sm;
     severity := warning;
     title := "Invalid image tag " ++ dq ++ show version ++ dq;
     message := "Images should not use the " ++ dq ++ "latest" ++ dq
                ++ " tag" |}.

(** Check if the image follows the naming convention (loop body). *)
Definition check_image (content : string) (dockerComposeYmlMocked : value)
    (service : string) (result : list LintingResult)
  : completion (list LintingResult) :=
  image <- service_field dockerComposeYmlMocked service "image" ;;
  if negb (truthy image) then Normal result
  else
    match image with
    | VString image =>
        match match_ image image_re with
        | None => push (image_name_result content service image) result
        | Some imageMatch =>
            let version := group 2 imageMatch in
            if strict_eq version "latest" then
              push (image_tag_result content service version) result
            else Normal result
        end
    | _ => Throw TypeError (* image.match is not a function *)
    end.

(** The [properties] array of the bare-boolean check. *)
Definition boolean_properties (environment labels extra_hosts : value)
  : list (string * list (string * value)) :=
  ((if truthy environment && typeof_object environment
    then [("environment", Object_entries environment)] else [])
   ++ (if truthy labels && typeof_object labels
       then [("labels", Object_entries labels)] else [])
   ++ (if truthy extra_hosts && typeof_object extra_hosts
       then [("extra_hosts", Object_entries extra_hosts)] else []))%list.

Definition boolean_result (content service label key : string) (value : bool)
  : LintingResult :=
  let sm := getSourceMapForKey E content
              [Key "services"; Key service; Key label; Key key] in
  {| id := "invalid_yaml_boolean_value";
     propertiesPath :=
       Some ("services." ++ service ++ "." ++ label ++ "." ++ key);
     line := sm_line sm;
     column := sm_column sm;
     severity := error;
     title := "Invalid YAML boolean value for key " ++ dq ++ key ++ dq;
     message := "Boolean values thould be strings like " ++ dq
                ++ string_of_bool value ++ dq ++ " instead of "
                ++ string_of_bool value |}.

Definition check_boolean_entry (content service label : string)
    (entry : string * value) (result : list LintingResult)
  : completion (list LintingResult) :=
  let '(key, value) := entry in
  match value with
  | VBoolean b => push (boolean_result content service label key b) result
  | _ => Normal result
  end.

(** Check if "environment", "labels" and "extra_hosts" contain bare
    booleans (loop body). *)
Definition check_booleans (content : string) (dockerComposeYmlMocked : value)
    (service : string) (result : list LintingResult)
  : completion (list LintingResult) :=
  environment <- service_field dockerComposeYmlMocked service "environment" ;;
  labels <- service_field dockerComposeYmlMocked service "labels" ;;
  extra_hosts <- service_field dockerComposeYmlMocked service "extra_hosts" ;;
  for_of (boolean_properties environment labels extra_hosts)
    (fun property =>
       for_of (snd property)
         (check_boolean_entry content service (fst property)))
    result.

(** The diagnostic of a direct mount given as a string. *)
Definition direct_mount_string_result (content service volume : string)
  : LintingResult :=
  let sm := getSourceMapForKey E content
              [Key "services"; Key service; Key "volumes"] in
  {| id := "invalid_app_data_dir_volume_mount";
     propertiesPath := Some ("services." ++ service ++ ".volumes");
     line := sm_line sm;
     column := sm_column sm;
     severity := warning;
     title := "Volume " ++ dq ++ volume ++ dq;
     message := "Volumes should not be mounted directly into the "
       ++ dq ++ "${APP_DATA_DIR}" ++ dq
       ++ " directory! Please use a subdirectory like "
       ++ dq ++ "${APP_DATA_DIR}/data"
       ++ nth 1 (split volume ":") "" ++ dq ++ " instead." |}.

(** The diagnostic of a direct mount given as an object. *)
Definition direct_mount_source_result (content service source : string)
    (target : value) : LintingResult :=
  let sm := getSourceMapForKey E content
              [Key "services"; Key service; Key "volumes"] in
  {| id := "invalid_app_data_dir_volume_mount";
     propertiesPath := Some ("services." ++ service ++ ".volumes");
     line := sm_line sm;
     column := sm_column sm;
     severity := warning;
     title := "Volume " ++ dq ++ source ++ ":" ++ ToString target ++ dq;
     message := "Volumes should not be mounted directly into the "
       ++ dq ++ "${APP_DATA_DIR}" ++ dq
       ++ " directory! Please use a subdirectory like "
       ++ dq ++ "source: ${APP_DATA_DIR}/data" ++ dq
       ++ " and " ++ dq ++ "target: "
       ++ ToString (coalesce target (VString "/some/dir"))
       ++ dq ++ " instead." |}.

(** Check if a volume puts data directly into the app data directory
    (inner loop body). *)
Definition check_direct_mount (content service : string) (volume : value)
    (result : list LintingResult) : completion (list LintingResult) :=
  match volume with
  | VString volume =>
      match match_ volume direct_mount_string_re with
      | Some _ =>
          push (direct_mount_string_result content service volume) result
      | None => Normal result
      end
  | _ =>
      if typeof_object volume then
        has_source <- HasProperty "source" volume ;;
        if has_source then
          has_target <- HasProperty "target" volume ;;
          if has_target then
            source <- Get volume "source" ;;
            target <- Get volume "target" ;;
            match source with
            | VString source =>
                match match_ source direct_mount_source_re with
                | Some _ =>
                    push (direct_mount_source_result content service source
                            target) result
                | None => Normal result
                end
            | _ => Throw TypeError (* volume.source.match is not a function *)
            end
          else Normal result
        else Normal result
      else Normal result
  end.

(** The diagnostic of a mount whose file or directory is missing. *)
Definition missing_file_result (content service appId volume : string)
    (subpath : string) : LintingResult :=
  let sm := getSourceMapForKey E content
              [Key "services"; Key service; Key "volumes"] in
  {| id := "missing_file_or_directory";
     propertiesPath := Some ("services." ++ service ++ ".volumes");
     line := sm_line sm;
     column := sm_column sm;
     severity := error;
     title := "Missing file/directory " ++ dq ++ appId ++ "/" ++ subpath ++ dq;
     message := "The volume " ++ dq ++ volume ++ dq
       ++ " tries to mount the file/directory " ++ dq ++ appId ++ "/"
       ++ subpath ++ dq
       ++ ", but it is not present! Please create that file/directory!" |}.

(** Check if a bind mount below the app data directory is present among
    the files (inner loop body).  [appId] is the parameter [id] of
    [lintDockerComposeYml]. *)
Definition check_mount_exists (content : string) (files : list string)
    (appId service : string) (volume : value) (result : list LintingResult)
  : completion (list LintingResult) :=
  match volume with
  | VString volume =>
      match match_ volume app_data_dir_re with
      | Some _ =>
          let match1 :=
            match match_ volume subpath_string_re with
            | Some m => group 1 m
            | None => None
            end in
          if falsy match1 then Normal result
          else if negb (includes files (appId ++ "/" ++ show match1)) then
            push (missing_file_result content service appId volume
                    (show match1)) result
          else Normal result
      | None => Normal result
      end
  | _ =>
      if typeof_object volume then
        has_source <- HasProperty "source" volume ;;
        if has_source then
          has_target <- HasProperty "target" volume ;;
          if has_target then
            source <- Get volume "source" ;;
            target <- Get volume "target" ;;
            match source with
            | VString source =>
                match match_ source app_data_dir_re with
                | Some _ =>
                    let match1 :=
                      match match_ source subpath_source_re with
                      | Some m => group 1 m
                      | None => None
                      end in
                    if falsy match1 then Normal result
                    else if negb (includes files (appId ++ "/" ++ show match1))
                    then
                      push (missing_file_result content service appId
                              (source ++ ":" ++ ToString target)
                              (show match1)) result
                    else Normal result
                | None => Normal result
                end
            | _ => Throw TypeError (* volume.source.match is not a function *)
            end
          else Normal result
        else Normal result
      else Normal result
  end.

(** [for (const service of services)] over the volumes of each service:
    the two volume checks share this shape. *)
Definition for_volumes (dockerComposeYml : value) (services : list string)
    (body : string -> value -> list LintingResult
            -> completion (list LintingResult))
    (result : list LintingResult) : completion (list LintingResult) :=
  for_of services
    (fun service result =>
       volumes <- service_volumes dockerComposeYml service ;;
       match volumes with
       | VArray volumes => for_of volumes (body service) result
       | _ => Normal result
       end)
    result.

Definition lintDockerComposeYml (content : string) (files : list string)
    (appId : string) : completion (list LintingResult) :=
  (* Mock the variables *)
  let rawDockerComposeYmlMocked := mockVariables E content in
  (* check if the file is valid yaml *)
  match YAML_parse E true rawDockerComposeYmlMocked with
  | inl e =>
      Normal
        [ {| id := "invalid_yaml_syntax";
             propertiesPath := None; line := None; column := None;
             severity := error;
             title := "docker-compose.yml is not a valid YAML file";
             message := e |} ]
  | inr dockerComposeYmlMocked =>
      (* Check if the file is a valid docker compose file *)
      let '(validAppYaml, errors) := validate E dockerComposeYmlMocked in
      if negb validAppYaml then
        Normal (map (schema_error_result content)
                    (match errors with Some l => l | None => [] end))
      else
        servicesMocked <- service_names dockerComposeYmlMocked ;;
        result <- for_of servicesMocked
                    (check_image content dockerComposeYmlMocked) [] ;;
        result <- for_of servicesMocked
                    (check_booleans content dockerComposeYmlMocked) result ;;
        match YAML_parse E true content with
        | inl e =>
            (* This should never happen, as we already parsed the file *)
            Normal
              [ {| id := "invalid_yaml_syntax";
                   propertiesPath := None; line := None; column := None;
                   severity := error;
                   title := "docker-compose.yml is not a valid YAML file";
                   message := e |} ]
        | inr dockerComposeYml =>
            services <- service_names dockerComposeYml ;;
            result <- for_volumes dockerComposeYml services
                        (check_direct_mount content) result ;;
            for_volumes dockerComposeYml services
              (check_mount_exists content files appId) result
        end
  end.

End Validators.

(* ================================================================== *)
(** ** Auxiliary definitions for the statements *)

(** A string no character of which is a line terminator: what [.]
    can run over. *)
Fixpoint no_line_terminator (s : string) : bool :=
  match s with
  | EmptyString => true
  | String a t => negb (is_line_terminator a) && no_line_terminator t
  end.

(** What [.*] amounts to on a given input: the continuation is tried
    after the longest run of characters first. *)
Fixpoint greedy_dots (c : Continuation) (caps : list (nat * string))
    (i : nat) (s : string) : option MatchState :=
  match s with
  | String a t =>
      if negb (is_line_terminator a) then
        match greedy_dots c caps (S i) t with
        | Some z => Some z
        | None => c (mkState i s caps)
        end
      else c (mkState i s caps)
  | EmptyString => c (mkState i s caps)
  end.

(** What [.*?] amounts to: the continuation is tried after the shortest
    run first. *)
Fixpoint lazy_dots (c : Continuation) (caps : list (nat * string))
    (i : nat) (s : string) : option MatchState :=
  match c (mkState i s caps) with
  | Some z => Some z
  | None =>
      match s with
      | String a t =>
          if negb (is_line_terminator a) then lazy_dots c caps (S i) t
          else None
      | EmptyString => None
      end
  end.

(** [image] reads [name:tag@digest] with no part empty and no line
    terminator anywhere: the shape that [/^(.+):(.+)@(.+)$/] accepts. *)
Definition image_shape (name tag digest image : string) : Prop :=
  image = name ++ ":" ++ tag ++ "@" ++ digest
  /\ name <> "" /\ tag <> "" /\ digest <> ""
  /\ no_line_terminator name = true
  /\ no_line_terminator tag = true
  /\ no_line_terminator digest = true.

(** The part of [image_re] after the first colon: [(.+)@(.+)$]. *)
Definition tag_digest_re : regex :=
  Seq (Group 2 (Plus Dot)) (Seq (Char "@") (Seq (Group 3 (Plus Dot)) Eol)).

(** [free_of ch s]: the character [ch] does not occur in [s]. *)
Fixpoint free_of (ch : ascii) (s : string) : bool :=
  match s with
  | EmptyString => true
  | String a t => negb (Ascii.eqb ch a) && free_of ch t
  end.

(** The app-data-root placeholder, braced or not. *)
Definition placeholder (p : string) : Prop :=
  p = "${APP_DATA_DIR}" \/ p = "$APP_DATA_DIR".

(** A volume source that is exactly the placeholder, with an optional
    trailing slash. *)
Definition app_data_root (source : string) : Prop :=
  exists p, placeholder p /\ (source = p \/ source = p ++ "/").

(** A loop body only ever pushes: run on any array it leaves the array
    as it was and adds what it adds to the empty one. *)
Definition appends {A : Type}
    (body : A -> list LintingResult -> completion (list LintingResult))
  : Prop :=
  forall x result,
    body x result = (c <- body x [] ;; Normal (result ++ c)%list).

(** The diagnostic of a syntax failure: its id and severity, and no
    position. *)
Definition is_syntax_error (d : LintingResult) : Prop :=
  id d = "invalid_yaml_syntax" /\ severity d = error
  /\ line d = None /\ column d = None.

(** [validate.errors ?? []] *)
Definition errors_or_empty (errors : option (list Ajv.DefinedError))
  : list Ajv.DefinedError :=
  match errors with
  | Some l => l
  | None => []
  end.

(* ================================================================== *)
(** ** Sample collaborators, for concrete runs *)

Module Fixture.

(** A parser that knows the documents of a table and rejects any other
    text. *)
Definition parse (table : list (string * value)) (merge : bool)
    (src : string) : string + value :=
  match assoc src table with
  | Some doc => inr doc
  | None => inl "YAMLParseError: Flow sequence in block collection must be sufficiently indented and end with a ]"
  end.

Definition no_source_map (content : string) (path : list Segment)
  : SourceMap :=
  mkSourceMap None None.

Definition collaborators (table : list (string * value))
    (mock : string -> string)
    (valid : value -> bool * option (list Ajv.DefinedError))
    (app : value -> Zod.SafeParseReturnType UmbrelApp) : Collaborators :=
  {| YAML_parse := parse table;
     mockVariables := mock;
     getSourceMapForKey := no_source_map;
     umbrelAppStoreYmlSchema := fun doc => Zod.SafeParseSuccess doc;
     umbrelAppYmlSchema := app;
     validate := valid;
     path_normalize := fun p => p;
     path_sep := "/" |}.

Definition schema_valid (doc : value)
  : bool * option (list Ajv.DefinedError) := (true, None).

Definition no_mock (content : string) : string := content.

Definition app_without_submission (doc : value)
  : Zod.SafeParseReturnType UmbrelApp :=
  Zod.SafeParseSuccess (mkUmbrelApp None).

(** No text parses. *)
Definition nothing_parses : Collaborators :=
  collaborators [] no_mock schema_valid app_without_submission.

(** [services: {web: {image: nginx, ports: 80}}]: the image has neither
    tag nor digest, and the schema rejects the ports. *)
Definition ports_content : string :=
  "services: {web: {image: nginx, ports: 80}}".

Definition ports_doc : value :=
  VObject [("services",
    VObject [("web",
      VObject [("image", VString "nginx"); ("ports", VNumber "80")])])].

Definition ports_error : Ajv.DefinedError :=
  Ajv.mkError "type" "/services/web/ports" (Some "must be array").

Definition ports_rejected : Collaborators :=
  collaborators [(ports_content, ports_doc)] no_mock
    (fun _ => (false, Some [ports_error])) app_without_submission.




(** Two services: an image without tag and digest, and an image tagged
    [latest]. *)
Definition images_content : string :=
  "services: {web: {image: nginx}, db: {image: 'postgres:latest@sha256:0a1b'}}".

Definition images_doc : value :=
  VObject [("services",
    VObject [("web", VObject [("image", VString "nginx")]);
             ("db", VObject [("image",
                              VString "postgres:latest@sha256:0a1b")])])].

Definition images : Collaborators :=
  collaborators [(images_content, images_doc)] no_mock schema_valid
    app_without_submission.

(** A bare boolean, a quoted one, and labels given as an array. *)
Definition booleans_content : string :=
  "services: {web: {environment: {DEBUG: true, QUOTED: 'true'}, labels: ['a=b']}}".

Definition booleans_doc : value :=
  VObject [("services",
    VObject [("web",
      VObject [("environment",
                VObject [("DEBUG", VBoolean true);
                         ("QUOTED", VString "true")]);
               ("labels", VArray [VString "a=b"])])])].

Definition booleans : Collaborators :=
  collaborators [(booleans_content, booleans_doc)] no_mock schema_valid
    app_without_submission.

(** A direct mount and a mount of a subdirectory; the mocker puts a
    path in the place of the placeholder. *)
Definition volumes_content : string :=
  "services: {web: {volumes: ['${APP_DATA_DIR}:/data', '${APP_DATA_DIR}/sub:/data']}}".

Definition volumes_mocked : string :=
  "services: {web: {volumes: ['/mock/app-data:/data', '/mock/app-data/sub:/data']}}".

Definition volumes_doc : value :=
  VObject [("services",
    VObject [("web",
      VObject [("volumes",
                VArray [VString "${APP_DATA_DIR}:/data";
                        VString "${APP_DATA_DIR}/sub:/data"])])])].

Definition volumes_doc_mocked : value :=
  VObject [("services",
    VObject [("web",
      VObject [("volumes",
                VArray [VString "/mock/app-data:/data";
                        VString "/mock/app-data/sub:/data"])])])].

Definition mock_volumes (content : string) : string :=
  if String.eqb content volumes_content then volumes_mocked else content.

Definition volumes : Collaborators :=
  collaborators
    [(volumes_content, volumes_doc); (volumes_mocked, volumes_doc_mocked)]
    mock_volumes schema_valid app_without_submission.

(** A manifest that names the pull request it was submitted with. *)
Definition manifest_content : string :=
  "submission: https://github.com/getumbrel/umbrel-apps/pull/1".

Definition manifest_doc : value :=
  VObject [("submission",
            VString "https://github.com/getumbrel/umbrel-apps/pull/1")].

Definition manifest_app : UmbrelApp :=
  mkUmbrelApp (Some "https://github.com/getumbrel/umbrel-apps/pull/1").

Definition manifest : Collaborators :=
  collaborators [(manifest_content, manifest_doc)] no_mock schema_valid
    (fun _ => Zod.SafeParseSuccess manifest_app).

End Fixture.

(** The three properties the bare-boolean check looks at. *)
Definition boolean_labels : list string :=
  ["environment"; "labels"; "extra_hosts"].

(** [doc.services?.[service].name] where it does not throw. *)
Definition field_value (doc : value) (service name : string) : value :=
  match service_field doc service name with
  | Normal v => v
  | Throw _ => VUndefined
  end.

(** The entries of a property given as a mapping (or as an array, whose
    entries are its items by index); anything else has none. *)
Definition mapping_entries (v : value) : list (string * value) :=
  match v with
  | VObject props => props
  | VArray _ => Object_entries v
  | _ => []
  end.

(** The keys whose value is a native boolean. *)
Definition bare_booleans (entries : list (string * value))
  : list (string * bool) :=
  flat_map (fun entry => match snd entry with
                         | VBoolean b => [(fst entry, b)]
                         | _ => []
                         end) entries.

(** A volume entry whose source is exactly the app data root, in string
    form [source:target] or in object form. *)
Definition direct_mount_entry (volume : value) : Prop :=
  (exists source target,
      volume = VString (source ++ ":" ++ target) /\ app_data_root source)
  \/ (exists props source target,
        volume = VObject props
        /\ assoc "source" props = Some (VString source)
        /\ assoc "target" props = Some target
        /\ app_data_root source).

Definition has_id (name : string) (d : LintingResult) : bool :=
  String.eqb (id d) name.

(** The diagnostics of the boolean-valued keys of one property. *)
Definition boolean_entry_results (E : Collaborators)
    (content service label : string) (entries : list (string * value))
  : list LintingResult :=
  map (fun kb => boolean_result E content service label (fst kb) (snd kb))
      (bare_booleans entries).

(** A volume entry whose source is the app data root followed by a
    subpath, with no further dollar in the entry. *)
Definition subpath_entry (volume : value) : Prop :=
  (exists p sub target,
      volume = VString (p ++ "/" ++ sub ++ ":" ++ target)
      /\ placeholder p /\ sub <> ""
      /\ free_of ":" sub = true /\ free_of "$" sub = true
      /\ free_of "$" target = true)
  \/ (exists props p sub target,
        volume = VObject props
        /\ assoc "source" props = Some (VString (p ++ "/" ++ sub))
        /\ assoc "target" props = Some target
        /\ placeholder p /\ sub <> "" /\ free_of "$" sub = true).

(** Where a diagnostic of the semantic checks comes from. *)
Inductive origin (E : Collaborators) (content : string)
    (files : list string) (appId : string) (docM doc : value)
    (servicesMocked services : list string) (d : LintingResult) : Prop :=
| from_image (service image : string)
    (Hservice : In service servicesMocked)
    (Himage : service_field docM service "image" = Normal (VString image))
    (Hnonempty : image <> "")
    (Hcase : (match_ image image_re = None
              /\ d = image_name_result E content service image)
             \/ (exists m, match_ image image_re = Some m
                           /\ group 2 m = Some "latest"
                           /\ d = image_tag_result E content service
                                  (Some "latest")))
| from_boolean (service label key : string) (b : bool)
    (Hservice : In service servicesMocked)
    (Hlabel : In label boolean_labels)
    (Hentry : In (key, b)
                (bare_booleans
                   (mapping_entries (field_value docM service label))))
    (Hd : d = boolean_result E content service label key b)
| from_mount (service : string) (volumes : list value) (v : value)
    (c : list LintingResult)
    (Hservice : In service services)
    (Hvolumes : service_volumes doc service = Normal (VArray volumes))
    (Hv : In v volumes)
    (Hc : check_direct_mount E content service v [] = Normal c)
    (Hd : In d c)
| from_missing (service : string) (volumes : list value) (v : value)
    (c : list LintingResult)
    (Hservice : In service services)
    (Hvolumes : service_volumes doc service = Normal (VArray volumes))
    (Hv : In v volumes)
    (Hc : check_mount_exists E content files appId service v [] = Normal c)
    (Hd : In d c).

(** The diagnostics the bare-boolean check owes a document: one for each
    boolean-valued key of each of the three properties of each
    service, in order. *)
Definition expected_boolean_results (E : Collaborators) (content : string)
    (docM : value) (servicesMocked : list string) : list LintingResult :=
  flat_map
    (fun service =>
       flat_map
         (fun label =>
            boolean_entry_results E content service label
              (mapping_entries (field_value docM service label)))
         boolean_labels)
    servicesMocked.

(** The run reports that [appId/sub] is missing. *)
Definition missing_reported (appId sub : string) (r : list LintingResult)
  : Prop :=
  exists d, In d r /\ id d = "missing_file_or_directory"
            /\ severity d = error
            /\ title d = "Missing file/directory " ++ dq ++ appId ++ "/"
                          ++ sub ++ dq.

(** What a run returned; nothing if it threw. *)
Definition returned (c : completion (list LintingResult))
  : list LintingResult :=
  match c with
  | Normal r => r
  | Throw _ => []
  end.

(* ================================================================== *)
(** ** Definitions for the further properties *)

(** [t] is what is left of [s] after some prefix. *)
Definition is_suffix (t s : string) : Prop := exists p, s = p ++ t.

(** A volume entry neither volume check looks into: a string without a
    colon, an object that lacks [source] or [target], an array, a
    number, a boolean. *)
Definition unchecked_volume (v : value) : Prop :=
  match v with
  | VString s => free_of ":" s = true
  | VObject props => assoc "source" props = None \/ assoc "target" props = None
  | VArray _ | VUndefined | VBoolean _ | VNumber _ => True
  | VNull => False
  end.

(** The JSON pointer of a key path: [/k1/k2/...]. *)
Fixpoint pointer (keys : list string) : string :=
  match keys with
  | [] => ""
  | k :: t => "/" ++ k ++ pointer t
  end.

(** *** [utils/global.ts] *)

Module Fs.

(** A directory entry, as [fs.readdir] with [withFileTypes] yields it. *)
Record Dirent : Type := mkDirent {
  name : string;
  isDirectory : bool
}.

End Fs.

(** [name.startsWith(prefix)] *)
Definition startsWith (s prefix : string) : bool := String.prefix prefix s.

(** [getAllOfficialAppStoreAppIds], given the entries that [fs.readdir]
    finds in the directory of the official app store. *)
Definition getAllOfficialAppStoreAppIds (files : list Fs.Dirent)
  : list string :=
  map Fs.name
    (filter (fun file => Fs.isDirectory file
                         && negb (startsWith (Fs.name file) "."))
            files).

(** The one diagnostic of a syntax failure of the compose file. *)
Definition compose_syntax_error (e : string) : LintingResult :=
  {| id := "invalid_yaml_syntax";
     propertiesPath := None; line := None; column := None;
     severity := error;
     title := "docker-compose.yml is not a valid YAML file";
     message := e |}.

Module FixtureMore.

(** A text with a placeholder that this parser rejects as it is written
    and accepts once mocked; the image has no tag. *)
Definition flow_content : string :=
  "services: {web: {image: nginx, ports: [${APP_PORT}:80]}}".

Definition flow_mocked : string :=
  "services: {web: {image: nginx, ports: [1234:80]}}".

Definition flow_doc_mocked : value :=
  VObject [("services",
    VObject [("web",
      VObject [("image", VString "nginx");
               ("ports", VArray [VString "1234:80"])])])].

Definition mock_flow (content : string) : string :=
  if String.eqb content flow_content then flow_mocked else content.

Definition flow : Collaborators :=
  Fixture.collaborators [(flow_mocked, flow_doc_mocked)] mock_flow
    Fixture.schema_valid Fixture.app_without_submission.




(** The same text with a key the schema does not know: as written it
    does not parse, mocked it parses and fails the schema. *)
Definition rejected_flow_content : string :=
  "services: {web: {image: nginx, ports: [${APP_PORT}:80], foo: 1}}".

Definition rejected_flow_mocked : string :=
  "services: {web: {image: nginx, ports: [1234:80], foo: 1}}".

Definition rejected_flow_doc_mocked : value :=
  VObject [("services",
    VObject [("web",
      VObject [("image", VString "nginx");
               ("ports", VArray [VString "1234:80"]);
               ("foo", VNumber "1")])])].

Definition rejected_flow_error : Ajv.DefinedError :=
  Ajv.mkError "additionalProperties" "/services/web"
    (Some "must NOT have additional properties").

Definition rejected_flow : Collaborators :=
  Fixture.collaborators [(rejected_flow_mocked, rejected_flow_doc_mocked)]
    (fun content =>
       if String.eqb content rejected_flow_content then rejected_flow_mocked
       else content)
    (fun _ => (false, Some [rejected_flow_error]))
    Fixture.app_without_submission.

(** A bare boolean in a text that parses only once mocked. *)
Definition boolean_flow_content : string :=
  "services: {web: {environment: {DEBUG: true}, ports: [${APP_PORT}:80]}}".

Definition boolean_flow_mocked : string :=
  "services: {web: {environment: {DEBUG: true}, ports: [1234:80]}}".

Definition boolean_flow_doc_mocked : value :=
  VObject [("services",
    VObject [("web",
      VObject [("environment", VObject [("DEBUG", VBoolean true)]);
               ("ports", VArray [VString "1234:80"])])])].

Definition boolean_flow : Collaborators :=
  Fixture.collaborators [(boolean_flow_mocked, boolean_flow_doc_mocked)]
    (fun content =>
       if String.eqb content boolean_flow_content then boolean_flow_mocked
       else content)
    Fixture.schema_valid Fixture.app_without_submission.

(** A source with a subpath, and the placeholder once more after it. *)
Definition repeated_content : string :=
  "services: {web: {volumes: ['${APP_DATA_DIR}/sub:${APP_DATA_DIR}:ro']}}".

Definition repeated_mocked : string :=
  "services: {web: {volumes: ['/mock/app-data/sub:/mock/app-data:ro']}}".

Definition repeated_doc : value :=
  VObject [("services",
    VObject [("web",
      VObject [("volumes",
                VArray [VString "${APP_DATA_DIR}/sub:${APP_DATA_DIR}:ro"])])])].

Definition repeated_doc_mocked : value :=
  VObject [("services",
    VObject [("web",
      VObject [("volumes",
                VArray [VString "/mock/app-data/sub:/mock/app-data:ro"])])])].

Definition repeated : Collaborators :=
  Fixture.collaborators
    [(repeated_content, repeated_doc); (repeated_mocked, repeated_doc_mocked)]
    (fun content =>
       if String.eqb content repeated_content then repeated_mocked
       else content)
    Fixture.schema_valid Fixture.app_without_submission.

(** A bind mount of a subdirectory, given as a mapping without a
    target. *)
Definition no_target_content : string :=
  "services: {web: {volumes: [{type: bind, source: '${APP_DATA_DIR}/sub'}]}}".

Definition no_target_mocked : string :=
  "services: {web: {volumes: [{type: bind, source: '/mock/app-data/sub'}]}}".

Definition no_target_doc : value :=
  VObject [("services",
    VObject [("web",
      VObject [("volumes",
                VArray [VObject [("type", VString "bind");
                                 ("source",
                                  VString "${APP_DATA_DIR}/sub")]])])])].

Definition no_target_doc_mocked : value :=
  VObject [("services",
    VObject [("web",
      VObject [("volumes",
                VArray [VObject [("type", VString "bind");
                                 ("source",
                                  VString "/mock/app-data/sub")]])])])].

Definition no_target : Collaborators :=
  Fixture.collaborators
    [(no_target_content, no_target_doc);
     (no_target_mocked, no_target_doc_mocked)]
    (fun content =>
       if String.eqb content no_target_content then no_target_mocked
       else content)
    Fixture.schema_valid Fixture.app_without_submission.

End FixtureMore.

(** The ids of the diagnostics the compose validator has of its own. *)
Definition compose_ids : list string :=
  ["invalid_yaml_syntax"; "invalid_docker_image_name";
   "invalid_yaml_boolean_value"; "invalid_app_data_dir_volume_mount";
   "missing_file_or_directory"].

(** A diagnostic either has no position and no path, or its path is the
    dot-joined key path its position was resolved for, in the text as
    written. *)
Definition positioned (E : Collaborators) (content : string)
    (d : LintingResult) : Prop :=
  (propertiesPath d = None /\ line d = None /\ column d = None)
  \/ exists path,
       propertiesPath d = Some (join_path path)
       /\ line d = sm_line (getSourceMapForKey E content path)
       /\ column d = sm_column (getSourceMapForKey E content path).

(** The number of volume entries of the services of a document. *)
Definition volume_count (doc : value) (services : list string) : nat :=
  list_sum
    (map (fun service =>
            match service_volumes doc service with
            | Normal (VArray volumes) => List.length volumes
            | _ => 0
            end) services).





(** The patterns without repetition and without groups, and the strings
    they stand for: [denotes r w t] reads "[r] matches [w] when [t]
    follows". *)
Fixpoint simple (r : regex) : bool :=
  match r with
  | Empty | Char _ | Dot | Eol => true
  | Seq r1 r2 => simple r1 && simple r2
  | Opt r1 => simple r1
  | _ => false
  end.

Fixpoint denotes (r : regex) (w t : string) : Prop :=
  match r with
  | Empty => w = ""
  | Char ch => w = String ch ""
  | Dot => exists a, w = String a "" /\ is_line_terminator a = false
  | Seq r1 r2 =>
      exists w1 w2, w = w1 ++ w2 /\ denotes r1 w1 (w2 ++ t) /\ denotes r2 w2 t
  | Opt r1 => w = "" \/ denotes r1 w t
  | Eol => w = "" /\ t = ""
  | _ => False
  end.

(** What [\$\{?APP_DATA_DIR\}?] stands for: either brace may be there
    without the other. *)
Definition root_token (p : string) : Prop :=
  p = "$APP_DATA_DIR" \/ p = "${APP_DATA_DIR"
  \/ p = "$APP_DATA_DIR}" \/ p = "${APP_DATA_DIR}".

(** The volume entries the direct-mount patterns accept: a string in
    which the token is followed by a colon, with at most a slash in
    between, wherever in the string that is; a mapping with a target
    whose source ends in the token, with at most a slash after it. *)
Definition warned_volume (volume : value) : Prop :=
  match volume with
  | VString volume =>
      exists pre p post,
        root_token p
        /\ (volume = pre ++ p ++ ":" ++ post
            \/ volume = pre ++ p ++ "/:" ++ post)
  | VObject props =>
      exists source target pre p,
        assoc "source" props = Some (VString source)
        /\ assoc "target" props = Some target
        /\ root_token p
        /\ (source = pre ++ p \/ source = pre ++ p ++ "/")
  | _ => False
  end.

(** A string in which the token occurs; the closing brace is optional
    in the pattern, so these two forms cover it. *)
Definition mentions_root (s : string) : Prop :=
  exists pre post,
    s = pre ++ "$APP_DATA_DIR" ++ post \/ s = pre ++ "${APP_DATA_DIR" ++ post.

(** The volume entries the file-existence check looks into. *)
Definition checked_volume (volume : value) : Prop :=
  match volume with
  | VString volume => mentions_root volume /\ free_of ":" volume = false
  | VObject props =>
      exists source target,
        assoc "source" props = Some (VString source)
        /\ assoc "target" props = Some target
        /\ mentions_root source
  | _ => False
  end.

(** The volume entries of a service, where the volume checks find an
    array of them. *)
Definition volumes_of (doc : value) (service : string) : list value :=
  match service_volumes doc service with
  | Normal (VArray volumes) => volumes
  | _ => []
  end.

(** [l] is what a loop over the services leaves: in order, for each
    service what [body] pushes for it, and that satisfies [P]. *)
Definition per_service (services : list string)
    (body : string -> list LintingResult -> completion (list LintingResult))
    (P : string -> list LintingResult -> Prop)
    (l : list LintingResult) : Prop :=
  exists cs,
    Forall2 (fun service c => body service [] = Normal c /\ P service c)
            services cs
    /\ l = concat cs.

(** The same for a loop over the volume entries of each service: in
    order, for each entry of each service what [body] pushes for that
    entry, and that satisfies [P]. *)
Definition per_entry (doc : value) (services : list string)
    (body : string -> value -> list LintingResult
            -> completion (list LintingResult))
    (P : string -> value -> list LintingResult -> Prop)
    (l : list LintingResult) : Prop :=
  exists css,
    Forall2 (fun service cs =>
               Forall2 (fun volume c =>
                          body service volume [] = Normal c
                          /\ P service volume c)
                       (volumes_of doc service) cs)
            services css
    /\ l = concat (map (@concat LintingResult) css).

(** How a diagnostic names a volume entry: the entry as a string, or
    [source:target] of a mapping. *)
Definition entry_text (volume : value) : string :=
  match volume with
  | VString volume => volume
  | VObject props =>
      ToString (or_undefined (assoc "source" props)) ++ ":"
      ++ ToString (or_undefined (assoc "target" props))
  | _ => ""
  end.

(** [d] is the direct-mount warning for this entry of this service. *)
Definition warns_about (service : string) (volume : value)
    (d : LintingResult) : Prop :=
  id d = "invalid_app_data_dir_volume_mount" /\ severity d = warning
  /\ propertiesPath d = Some ("services." ++ service ++ ".volumes")
  /\ title d = "Volume " ++ dq ++ entry_text volume ++ dq.

(* ================================================================== *)
(** ** Facts about strings *)

Lemma append_nil_r (s : string) : s ++ "" = s.
Proof. induction s as [|a s IH]; simpl; [reflexivity | now rewrite IH]. Qed.

Lemma append_assoc (a b c : string) : (a ++ b) ++ c = a ++ (b ++ c).
Proof. induction a as [|x a IH]; simpl; [reflexivity | now rewrite IH]. Qed.

Lemma length_append (a b : string) :
  String.length (a ++ b) = String.length a + String.length b.
Proof. induction a as [|x a IH]; simpl; [reflexivity | now rewrite IH]. Qed.

Lemma append_inv_head (a x y : string) : a ++ x = a ++ y -> x = y.
Proof.
  induction a as [|c a IH]; simpl; intro H; [exact H |].
  injection H as H. now apply IH.
Qed.

Lemma append_same_length (a b x y : string) :
  a ++ x = b ++ y -> String.length a = String.length b -> a = b /\ x = y.
Proof.
  revert b. induction a as [|c a IH]; intros [|d b]; simpl; intros H L;
    try discriminate.
  - now split.
  - injection H as -> H. injection L as L.
    destruct (IH _ H L) as [-> ->]. now split.
Qed.

Lemma append_inv_tail (x y b : string) : x ++ b = y ++ b -> x = y.
Proof.
  intro H. apply (append_same_length x y b b H).
  apply (f_equal String.length) in H. rewrite !length_append in H. lia.
Qed.

Lemma substring_prefix (p q : string) :
  substring 0 (String.length p) (p ++ q) = p.
Proof.
  induction p as [|a p IH]; simpl.
  - destruct q; reflexivity.
  - now rewrite IH.
Qed.

Lemma no_line_terminator_append (a b : string) :
  no_line_terminator (a ++ b)
  = no_line_terminator a && no_line_terminator b.
Proof.
  induction a as [|x a IH]; simpl; [reflexivity |].
  now rewrite IH, andb_assoc.
Qed.

(** Two ways of cutting one string: the shorter first part is a prefix of
    the longer one. *)
Lemma append_split_le (a x b y : string) :
  a ++ x = b ++ y -> String.length a <= String.length b ->
  exists m, b = a ++ m /\ x = m ++ y.
Proof.
  revert b. induction a as [|c a IH]; intros b H L; simpl in *.
  - exists b. now split.
  - destruct b as [|d b]; simpl in *; [lia |].
    injection H as -> H.
    destruct (IH b H ltac:(lia)) as [m [-> ->]].
    exists m. now split.
Qed.

(* ================================================================== *)
(** ** Facts about the regular expression engine *)

Lemma succ_eqb_false (i : nat) : Nat.eqb (S i) i = false.
Proof. apply Nat.eqb_neq. lia. Qed.

Lemma repeat_greedy_dot (c : Continuation) (caps : list (nat * string))
    (s : string) :
  forall fuel i, String.length s <= fuel ->
    repeat_greedy (compile Dot) fuel (mkState i s caps) c
    = greedy_dots c caps i s.
Proof.
  induction s as [|a t IH]; intros fuel i Hf.
  - destruct fuel; reflexivity.
  - destruct fuel as [|f]; simpl in Hf; [lia |].
    cbn [repeat_greedy greedy_dots]. cbn [compile] in *.
    unfold char_matcher at 1. cbn [rest endIndex captures].
    destruct (negb (is_line_terminator a)); [| reflexivity].
    rewrite succ_eqb_false, IH by lia. reflexivity.
Qed.

Lemma repeat_lazy_dot (c : Continuation) (caps : list (nat * string))
    (s : string) :
  forall fuel i, String.length s <= fuel ->
    repeat_lazy (compile Dot) fuel (mkState i s caps) c
    = lazy_dots c caps i s.
Proof.
  induction s as [|a t IH]; intros fuel i Hf.
  - destruct fuel; simpl; destruct (c _); reflexivity.
  - destruct fuel as [|f]; simpl in Hf; [lia |].
    cbn [repeat_lazy lazy_dots]. destruct (c _); [reflexivity |].
    cbn [compile] in *. unfold char_matcher at 1.
    cbn [rest endIndex captures].
    destruct (negb (is_line_terminator a)); [| reflexivity].
    rewrite succ_eqb_false, IH by lia. reflexivity.
Qed.

(** [.*] fails only if the continuation fails after every run of
    characters that [.] accepts. *)
Lemma greedy_dots_none (c : Continuation) (caps : list (nat * string))
    (s : string) :
  forall i, greedy_dots c caps i s = None ->
    forall p q, s = p ++ q -> no_line_terminator p = true ->
      c (mkState (i + String.length p) q caps) = None.
Proof.
  induction s as [|a t IH]; intros i H p q E Hp.
  - destruct p; [| discriminate]. simpl in E. subst q.
    simpl. rewrite Nat.add_0_r. exact H.
  - simpl in H. destruct p as [|b p]; simpl in E.
    + subst q. simpl. rewrite Nat.add_0_r.
      destruct (negb (is_line_terminator a)); [| exact H].
      destruct (greedy_dots c caps (S i) t); [discriminate | exact H].
    + injection E as -> ->. simpl in Hp.
      apply andb_true_iff in Hp as [Ha Hp]. rewrite Ha in H.
      destruct (greedy_dots c caps (S i) (p ++ q)) eqn:G; [discriminate |].
      simpl. rewrite Nat.add_succ_r.
      apply (IH (S i) G p q eq_refl Hp).
Qed.

(** [.*] succeeds with the longest run after which the continuation
    succeeds. *)
Lemma greedy_dots_some (c : Continuation) (caps : list (nat * string))
    (s : string) :
  forall i z, greedy_dots c caps i s = Some z ->
    exists p q, s = p ++ q /\ no_line_terminator p = true
      /\ c (mkState (i + String.length p) q caps) = Some z
      /\ forall p' q', s = p' ++ q' -> no_line_terminator p' = true ->
           String.length p < String.length p' ->
           c (mkState (i + String.length p') q' caps) = None.
Proof.
  induction s as [|a t IH]; intros i z H.
  - simpl in H. exists "", "". simpl. rewrite Nat.add_0_r.
    repeat split; auto.
    intros p' q' E _ L. destruct p'; simpl in *; [lia | discriminate].
  - simpl in H.
    destruct (negb (is_line_terminator a)) eqn:Ha.
    + destruct (greedy_dots c caps (S i) t) eqn:G.
      * injection H as ->.
        destruct (IH _ _ G) as (p & q & -> & Hp & Hc & Hmax).
        exists (String a p), q. simpl. rewrite Ha, Hp, Nat.add_succ_r.
        repeat split; auto.
        intros p' q' E Hp' L. destruct p' as [|b p']; simpl in *; [lia |].
        injection E as <- E. apply andb_true_iff in Hp' as [_ Hp'].
        rewrite Nat.add_succ_r. apply Hmax; auto. lia.
      * exists "", (String a t). simpl. rewrite Nat.add_0_r.
        repeat split; auto.
        intros p' q' E Hp' L. destruct p' as [|b p']; simpl in *; [lia |].
        injection E as <- E. apply andb_true_iff in Hp' as [_ Hp'].
        rewrite Nat.add_succ_r.
        apply (greedy_dots_none c caps t (S i) G p' q' E Hp').
    + exists "", (String a t). simpl. rewrite Nat.add_0_r.
      repeat split; auto.
      intros p' q' E Hp' L. destruct p' as [|b p']; simpl in *; [lia |].
      injection E as <- E. rewrite Ha in Hp'. discriminate.
Qed.
Lemma lazy_dots_intro (c : Continuation) (caps : list (nat * string))
    (p q : string) :
  forall i z, no_line_terminator p = true ->
    c (mkState (i + String.length p) q caps) = Some z ->
    (forall p1 p2, p = p1 ++ p2 -> p2 <> "" ->
       c (mkState (i + String.length p1) (p2 ++ q) caps) = None) ->
    lazy_dots c caps i (p ++ q) = Some z.
Proof.
  induction p as [|a p IH]; intros i z Hp Hc Hmin.
  - simpl in *. rewrite Nat.add_0_r in Hc.
    destruct q; simpl; rewrite Hc; reflexivity.
  - simpl in Hp. apply andb_true_iff in Hp as [Ha Hp].
    change (String a p ++ q) with (String a (p ++ q)).
    cbn [lazy_dots].
    assert (H0 : c (mkState i (String a (p ++ q)) caps) = None).
    { specialize (Hmin "" (String a p) eq_refl ltac:(discriminate)).
      simpl in Hmin. now rewrite Nat.add_0_r in Hmin. }
    rewrite H0, Ha. apply IH; auto.
    + simpl in Hc. now rewrite Nat.add_succ_r in Hc.
    + intros p1 p2 E N. specialize (Hmin (String a p1) p2).
      simpl in Hmin. rewrite Nat.add_succ_r in Hmin.
      apply Hmin; auto. now rewrite E.
Qed.

Lemma consumed_prefix (i : nat) (p q : string) (caps caps' : list (nat * string)) :
  consumed (mkState i (p ++ q) caps) (mkState (i + String.length p) q caps') = p.
Proof.
  unfold consumed. cbn [endIndex rest].
  replace (i + String.length p - i) with (String.length p) by lia.
  apply substring_prefix.
Qed.

Lemma compile_group_plus_dot (n i : nat) (s : string)
    (caps : list (nat * string)) (c : Continuation) :
  compile (Group n (Plus Dot)) (mkState i s caps) c
  = match s with
    | EmptyString => None
    | String a t =>
        if negb (is_line_terminator a) then
          greedy_dots
            (fun y => c (mkState (endIndex y) (rest y)
                           ((n, consumed (mkState i s caps) y) :: captures y)))
            caps (S i) t
        else None
    end.
Proof.
  cbn [compile]. unfold char_matcher at 1. cbn [rest endIndex captures].
  destruct s as [|a t]; [reflexivity |].
  destruct (negb (is_line_terminator a)); [| reflexivity].
  apply repeat_greedy_dot. cbn [rest]. lia.
Qed.

Lemma group_plus_dot_none (n i : nat) (s : string)
    (caps : list (nat * string)) (c : Continuation) :
  compile (Group n (Plus Dot)) (mkState i s caps) c = None ->
  forall p q, s = p ++ q -> p <> "" -> no_line_terminator p = true ->
    c (mkState (i + String.length p) q ((n, p) :: caps)) = None.
Proof.
  rewrite compile_group_plus_dot. intros H p q E Np Hp.
  destruct p as [|a p]; [congruence |]. subst s. simpl in Hp.
  apply andb_true_iff in Hp as [Ha Hp].
  change (String a p ++ q) with (String a (p ++ q)) in H.
  cbv iota in H. rewrite Ha in H.
  pose proof (greedy_dots_none _ _ _ _ H p q eq_refl Hp) as G.
  cbn [endIndex rest captures] in G.
  change (String a (p ++ q)) with (String a p ++ q) in G.
  replace (S i + String.length p) with (i + String.length (String a p)) in G
    by (simpl; lia).
  now rewrite consumed_prefix in G.
Qed.

Lemma group_plus_dot_some (n i : nat) (s : string)
    (caps : list (nat * string)) (c : Continuation) (z : MatchState) :
  compile (Group n (Plus Dot)) (mkState i s caps) c = Some z ->
  exists p q, s = p ++ q /\ p <> "" /\ no_line_terminator p = true
    /\ c (mkState (i + String.length p) q ((n, p) :: caps)) = Some z
    /\ forall p' q', s = p' ++ q' -> no_line_terminator p' = true ->
         String.length p < String.length p' ->
         c (mkState (i + String.length p') q' ((n, p') :: caps)) = None.
Proof.
  rewrite compile_group_plus_dot. intro H.
  destruct s as [|a t]; [discriminate |].
  destruct (negb (is_line_terminator a)) eqn:Ha; [| discriminate].
  destruct (greedy_dots_some _ _ _ _ _ H) as (p & q & -> & Hp & Hc & Hmax).
  exists (String a p), q. cbn [endIndex rest captures] in Hc.
  change (String a (p ++ q)) with (String a p ++ q) in Hc.
  replace (S i + String.length p) with (i + String.length (String a p)) in Hc
    by (simpl; lia).
  rewrite consumed_prefix in Hc.
  repeat split; auto; try discriminate.
  - simpl. now rewrite Ha, Hp.
  - intros p' q' E Hp' L. destruct p' as [|b p']; [simpl in L; lia |].
    simpl in E. injection E as <- E. simpl in Hp'.
    apply andb_true_iff in Hp' as [_ Hp'].
    specialize (Hmax p' q' E Hp' ltac:(simpl in L; lia)).
    cbn [endIndex rest captures] in Hmax. rewrite E in Hmax.
    change (String a (p' ++ q')) with (String a p' ++ q') in Hmax.
    replace (S i + String.length p') with (i + String.length (String a p'))
      in Hmax by (simpl; lia).
    now rewrite consumed_prefix in Hmax.
Qed.

Lemma compile_seq (r1 r2 : regex) (x : MatchState) (c : Continuation) :
  compile (Seq r1 r2) x c = compile r1 x (fun y => compile r2 y c).
Proof. reflexivity. Qed.

Lemma compile_char (ch : ascii) (i : nat) (s : string)
    (caps : list (nat * string)) (c : Continuation) :
  compile (Char ch) (mkState i s caps) c
  = match s with
    | String a t => if Ascii.eqb ch a then c (mkState (S i) t caps) else None
    | EmptyString => None
    end.
Proof. reflexivity. Qed.

Lemma compile_eol (i : nat) (s : string) (caps : list (nat * string))
    (c : Continuation) :
  compile Eol (mkState i s caps) c
  = match s with
    | EmptyString => c (mkState i s caps)
    | String _ _ => None
    end.
Proof. reflexivity. Qed.

(** [(.+)$]: the rest of the input, if it is not empty and has no line
    terminator. *)
Lemma group_to_end (n i : nat) (s : string) (caps : list (nat * string)) :
  compile (Seq (Group n (Plus Dot)) Eol) (mkState i s caps) Some
  = if negb (String.eqb s "") && no_line_terminator s
    then Some (mkState (i + String.length s) "" ((n, s) :: caps))
    else None.
Proof.
  rewrite compile_seq.
  destruct (compile (Group n (Plus Dot)) _ _) as [z|] eqn:H.
  - apply group_plus_dot_some in H as (p & q & -> & Np & Hp & Hc & _).
    rewrite compile_eol in Hc. destruct q; [| discriminate].
    rewrite append_nil_r, Hp.
    destruct (String.eqb_spec p ""); [contradiction |]. now rewrite <- Hc.
  - destruct (String.eqb_spec s "") as [-> | Ns]; [reflexivity |].
    destruct (no_line_terminator s) eqn:Hs; [| reflexivity].
    pose proof (group_plus_dot_none _ _ _ _ _ H s "" (eq_sym (append_nil_r s))
                  Ns Hs) as G.
    cbv beta in G. rewrite compile_eol in G. discriminate.
Qed.

Lemma after_at (i : nat) (t d : string) (caps : list (nat * string)) :
  d <> "" -> no_line_terminator d = true ->
  compile (Seq (Char "@") (Seq (Group 3 (Plus Dot)) Eol))
    (mkState i ("@" ++ d) caps) Some
  = Some (mkState (S i + String.length d) "" ((3, d) :: caps)).
Proof.
  intros Nd Hd. rewrite compile_seq, compile_char. simpl append. cbv iota.
  rewrite Ascii.eqb_refl, group_to_end, Hd.
  destruct (String.eqb_spec d ""); [contradiction | reflexivity].
Qed.

Lemma tag_digest_some (i : nat) (s : string) (caps : list (nat * string))
    (z : MatchState) :
  compile tag_digest_re (mkState i s caps) Some = Some z ->
  exists t d, s = t ++ "@" ++ d /\ t <> "" /\ d <> ""
    /\ no_line_terminator t = true /\ no_line_terminator d = true
    /\ z = mkState (i + String.length s) "" ((3, d) :: (2, t) :: caps)
    /\ forall t' d', s = t' ++ "@" ++ d' -> t' <> "" -> d' <> "" ->
         no_line_terminator t' = true -> no_line_terminator d' = true ->
         String.length t' <= String.length t.
Proof.
  unfold tag_digest_re. rewrite compile_seq. intro H.
  apply group_plus_dot_some in H as (p & q & -> & Np & Hp & Hc & Hmax).
  rewrite compile_seq, compile_char in Hc.
  destruct q as [|a d]; [discriminate |].
  destruct (Ascii.eqb_spec "@" a) as [<- |]; [| discriminate].
  rewrite group_to_end in Hc.
  destruct (String.eqb_spec d "") as [| Nd]; [discriminate |].
  destruct (no_line_terminator d) eqn:Hd; [| discriminate].
  simpl in Hc. injection Hc as <-.
  exists p, d. repeat split; auto.
  - f_equal. rewrite length_append. simpl. lia.
  - intros t' d' E Nt' Nd' Ht' Hd'.
    destruct (Nat.le_gt_cases (String.length t') (String.length p)) as [|L];
      [assumption |].
    specialize (Hmax t' ("@" ++ d') E Ht' L). cbv beta in Hmax.
    rewrite after_at in Hmax by assumption. discriminate.
Qed.

Lemma tag_digest_none (i : nat) (s : string) (caps : list (nat * string)) :
  compile tag_digest_re (mkState i s caps) Some = None ->
  forall t d, s = t ++ "@" ++ d -> t <> "" -> d <> "" ->
    no_line_terminator t = true -> no_line_terminator d = true -> False.
Proof.
  unfold tag_digest_re. rewrite compile_seq. intros H t d E Nt Nd Ht Hd.
  pose proof (group_plus_dot_none _ _ _ _ _ H t ("@" ++ d) E Nt Ht) as G.
  cbv beta in G. rewrite after_at in G by assumption. discriminate.
Qed.

Lemma exec_from_bol (r : regex) (s : string) :
  forall i, exec_from (Seq Bol r) (S i) s = None.
Proof.
  induction s as [|a t IH]; intro i; cbn [exec_from]; rewrite compile_seq;
    cbn [compile endIndex Nat.eqb]; [reflexivity | apply IH].
Qed.

Lemma image_re_at_start (image : string) :
  match_ image image_re
  = compile (Seq (Group 1 (Plus Dot)) (Seq (Char ":") tag_digest_re))
      (mkState 0 image []) Some.
Proof.
  unfold match_.
  change image_re
    with (Seq Bol (Seq (Group 1 (Plus Dot)) (Seq (Char ":") tag_digest_re))).
  destruct image as [|a t]; cbn [exec_from]; rewrite ?exec_from_bol;
    rewrite (compile_seq Bol); cbn [compile endIndex Nat.eqb];
    match goal with |- match ?e with _ => _ end = _ => destruct e end;
    reflexivity.
Qed.

(** A match of [image_re] cuts the image into name, tag and digest, and
    of all such cuts it takes the longest name, and for that name the
    longest tag. *)
Lemma image_re_some (image : string) (m : MatchState) :
  match_ image image_re = Some m ->
  exists name tag digest,
    image_shape name tag digest image
    /\ group 1 m = Some name /\ group 2 m = Some tag
    /\ group 3 m = Some digest
    /\ forall name' tag' digest', image_shape name' tag' digest' image ->
         String.length name' < String.length name
         \/ (name' = name /\ String.length tag' <= String.length tag).
Proof.
  rewrite image_re_at_start, compile_seq. intro H.
  apply group_plus_dot_some in H as (p & q & -> & Np & Hp & Hc & Hmax).
  rewrite compile_seq, compile_char in Hc.
  destruct q as [|a q]; [discriminate |].
  destruct (Ascii.eqb_spec ":" a) as [<- |]; [| discriminate].
  apply tag_digest_some in Hc
    as (t & d & -> & Nt & Nd & Ht & Hd & -> & Htmax).
  exists p, t, d. repeat split; auto.
  intros n' t' d' (E & Nn' & Nt' & Nd' & Hn' & Ht' & Hd').
  destruct (Nat.lt_trichotomy (String.length n') (String.length p))
    as [L | [L | L]]; [now left | right | exfalso].
  - destruct (append_same_length _ _ _ _ E (eq_sym L)) as [<- E'].
    split; [reflexivity |]. simpl in E'. injection E' as E'.
    now apply (Htmax t' d').
  - specialize (Hmax n' (":" ++ t' ++ "@" ++ d') E Hn' L). cbv beta in Hmax.
    rewrite compile_seq, compile_char in Hmax. simpl in Hmax.
    now apply (tag_digest_none _ _ _ Hmax t' d').
Qed.

(** [image_re] fails only on images that cannot be cut that way. *)
Lemma image_re_none (image : string) :
  match_ image image_re = None ->
  forall name tag digest, ~ image_shape name tag digest image.
Proof.
  rewrite image_re_at_start, compile_seq.
  intros H n t d (E & Nn & Nt & Nd & Hn & Ht & Hd).
  pose proof (group_plus_dot_none _ _ _ _ _ H n (":" ++ t ++ "@" ++ d) E Nn Hn)
    as G.
  cbv beta in G. rewrite compile_seq, compile_char in G. simpl in G.
  now apply (tag_digest_none _ _ _ G t d).
Qed.

(* ================================================================== *)
(** ** The volume patterns *)

Lemma free_of_head (ch a : ascii) (t : string) :
  free_of ch (String a t) = true -> Ascii.eqb ch a = false /\ free_of ch t = true.
Proof.
  simpl. intro H. apply andb_true_iff in H as [H1 H2].
  split; [now apply negb_true_iff | exact H2].
Qed.

Lemma free_of_append (ch : ascii) (a b : string) :
  free_of ch (a ++ b) = free_of ch a && free_of ch b.
Proof.
  induction a as [|x a IH]; simpl; [reflexivity |].
  now rewrite IH, andb_assoc.
Qed.

(** [(.*?):] stops at the first colon. *)
Lemma lazy_group_to_colon (n i : nat) (sub rest0 : string)
    (caps : list (nat * string)) :
  free_of ":" sub = true -> no_line_terminator sub = true ->
  compile (Seq (Group n (StarLazy Dot)) (Char ":"))
    (mkState i (sub ++ ":" ++ rest0) caps) Some
  = Some (mkState (S (i + String.length sub)) rest0 ((n, sub) :: caps)).
Proof.
  intros Hc Hl. rewrite compile_seq. cbn [compile].
  rewrite repeat_lazy_dot by (cbn [rest]; lia).
  apply lazy_dots_intro; [exact Hl | |].
  - cbn [endIndex rest captures]. rewrite consumed_prefix. reflexivity.
  - intros p1 p2 E N. cbn [endIndex rest captures].
    destruct p2 as [|a p2]; [congruence |].
    subst sub. rewrite free_of_append in Hc.
    apply andb_true_iff in Hc as [_ Hc]. apply free_of_head in Hc as [Ha _].
    unfold char_matcher. cbn [rest append]. now rewrite Ha.
Qed.

Lemma consumed_all (i : nat) (p : string) (caps caps' : list (nat * string)) :
  consumed (mkState i p caps) (mkState (i + String.length p) "" caps') = p.
Proof.
  pose proof (consumed_prefix i p "" caps caps') as H.
  now rewrite append_nil_r in H.
Qed.

(** [(.*?)$] takes the rest of the input. *)
Lemma lazy_group_to_end (n i : nat) (sub : string)
    (caps : list (nat * string)) :
  no_line_terminator sub = true ->
  compile (Seq (Group n (StarLazy Dot)) Eol) (mkState i sub caps) Some
  = Some (mkState (i + String.length sub) "" ((n, sub) :: caps)).
Proof.
  intros Hl. rewrite compile_seq. cbn [compile].
  rewrite repeat_lazy_dot by (cbn [rest]; lia).
  match goal with
  | |- lazy_dots ?C _ _ _ = Some ?z =>
      pose proof (lazy_dots_intro C caps sub "" i z Hl) as L
  end.
  rewrite append_nil_r in L. apply L.
  - cbn [endIndex rest captures].
    rewrite consumed_all. reflexivity.
  - intros p1 p2 E N. cbn [endIndex rest captures].
    destruct p2 as [|a p2]; [congruence | reflexivity].
Qed.

(** No pattern that starts with [\$] matches where there is no dollar. *)
Lemma exec_from_no_dollar (r1 r2 : regex) (s : string) :
  free_of "$" s = true ->
  forall i, exec_from (Seq (Seq (Char "$") r1) r2) i s = None.
Proof.
  induction s as [|a t IH]; intros H i; cbn [exec_from].
  - reflexivity.
  - apply free_of_head in H as [Ha Ht].
    rewrite !compile_seq, compile_char, Ha. now apply IH.
Qed.

Lemma direct_mount_string_hit (source rest0 : string) :
  app_data_root source ->
  exists m, match_ (source ++ ":" ++ rest0) direct_mount_string_re = Some m.
Proof.
  intros (p & [-> | ->] & [-> | ->]); eexists; vm_compute; reflexivity.
Qed.




Lemma app_data_dir_hit (p rest0 : string) :
  placeholder p -> exists m, match_ (p ++ rest0) app_data_dir_re = Some m.
Proof.
  intros [-> | ->]; destruct rest0 as [|a t].
  1, 3: eexists; vm_compute; reflexivity.
  all: unfold match_, app_data_dir_re, app_data_dir;
    cbn -[Ascii.eqb]; destruct (Ascii.eqb "}" a); eexists; reflexivity.
Qed.

Lemma subpath_string_hit (p sub rest0 : string) :
  placeholder p -> free_of ":" sub = true -> no_line_terminator sub = true ->
  exists m, match_ (p ++ "/" ++ sub ++ ":" ++ rest0) subpath_string_re = Some m
            /\ group 1 m = Some sub.
Proof.
  intros Hp Hc Hl. unfold match_, subpath_string_re, app_data_dir.
  pose proof (fun i => lazy_group_to_colon 1 i sub rest0 [] Hc Hl) as T.
  remember (Seq (Group 1 (StarLazy Dot)) (Char ":")) as tail.
  change (cat [cat [Char "$"; Opt (Char "{"); lit "APP_DATA_DIR"; Opt (Char "}")];
               Opt (Char "/"); Group 1 (StarLazy Dot); Char ":"])
    with (Seq (cat [Char "$"; Opt (Char "{"); lit "APP_DATA_DIR"; Opt (Char "}")])
              (Seq (Opt (Char "/")) (Seq (Group 1 (StarLazy Dot)) (Char ":")))).
  rewrite <- Heqtail.
  destruct Hp as [-> | ->]; cbn -[Ascii.eqb]; rewrite T; cbn;
    eexists; split; reflexivity.
Qed.

Lemma subpath_source_hit (p sub : string) :
  placeholder p -> no_line_terminator sub = true ->
  exists m, match_ (p ++ "/" ++ sub) subpath_source_re = Some m
            /\ group 1 m = Some sub.
Proof.
  intros Hp Hl. unfold match_, subpath_source_re, app_data_dir.
  pose proof (fun i => lazy_group_to_end 1 i sub [] Hl) as T.
  remember (Seq (Group 1 (StarLazy Dot)) Eol) as tail.
  change (cat [cat [Char "$"; Opt (Char "{"); lit "APP_DATA_DIR"; Opt (Char "}")];
               Opt (Char "/"); Group 1 (StarLazy Dot); Eol])
    with (Seq (cat [Char "$"; Opt (Char "{"); lit "APP_DATA_DIR"; Opt (Char "}")])
              (Seq (Opt (Char "/")) (Seq (Group 1 (StarLazy Dot)) Eol))).
  rewrite <- Heqtail.
  destruct Hp as [-> | ->]; cbn -[Ascii.eqb]; rewrite T; cbn;
    eexists; split; reflexivity.
Qed.

Lemma exec_from_cons (r : regex) (i : nat) (a : ascii) (t : string) :
  exec_from r i (String a t)
  = match compile r (mkState i (String a t) []) Some with
    | Some z => Some z
    | None => exec_from r (S i) t
    end.
Proof. reflexivity. Qed.

(** A source with a subpath is no direct mount, as long as no further
    dollar follows. *)
Lemma direct_mount_string_miss (p sub rest0 : string) :
  placeholder p -> sub <> "" -> free_of ":" sub = true ->
  free_of "$" sub = true -> free_of "$" rest0 = true ->
  match_ (p ++ "/" ++ sub ++ ":" ++ rest0) direct_mount_string_re = None.
Proof.
  intros Hp Ns Hc Hd Hr. destruct sub as [|a sub]; [congruence |].
  apply free_of_head in Hc as [Ha _].
  assert (Hfree : free_of "$" ("/" ++ String a sub ++ ":" ++ rest0) = true).
  { rewrite !free_of_append, Hd, Hr. reflexivity. }
  unfold match_, direct_mount_string_re, app_data_dir.
  change (cat [cat [Char "$"; Opt (Char "{"); lit "APP_DATA_DIR"; Opt (Char "}")];
               Opt (Char "/"); Char ":"])
    with (Seq (Seq (Char "$") (cat [Opt (Char "{"); lit "APP_DATA_DIR"; Opt (Char "}")]))
              (Seq (Opt (Char "/")) (Char ":"))).
  destruct Hp as [-> | ->].
  - change ("${APP_DATA_DIR}" ++ "/" ++ String a sub ++ ":" ++ rest0)
      with (String "$" ("{APP_DATA_DIR}" ++ "/" ++ String a sub ++ ":" ++ rest0)).
    rewrite exec_from_cons, exec_from_no_dollar
      by (rewrite free_of_append, Hfree; reflexivity).
    cbn -[Ascii.eqb]. rewrite Ha. reflexivity.
  - change ("$APP_DATA_DIR" ++ "/" ++ String a sub ++ ":" ++ rest0)
      with (String "$" ("APP_DATA_DIR" ++ "/" ++ String a sub ++ ":" ++ rest0)).
    rewrite exec_from_cons, exec_from_no_dollar
      by (rewrite free_of_append, Hfree; reflexivity).
    cbn -[Ascii.eqb]. rewrite Ha. reflexivity.
Qed.

Lemma direct_mount_source_miss (p sub : string) :
  placeholder p -> sub <> "" -> free_of "$" sub = true ->
  match_ (p ++ "/" ++ sub) direct_mount_source_re = None.
Proof.
  intros Hp Ns Hd. destruct sub as [|a sub]; [congruence |].
  assert (Hfree : free_of "$" ("/" ++ String a sub) = true).
  { rewrite !free_of_append, Hd. reflexivity. }
  unfold match_, direct_mount_source_re, app_data_dir.
  change (cat [cat [Char "$"; Opt (Char "{"); lit "APP_DATA_DIR"; Opt (Char "}")];
               Opt (Char "/"); Eol])
    with (Seq (Seq (Char "$") (cat [Opt (Char "{"); lit "APP_DATA_DIR"; Opt (Char "}")]))
              (Seq (Opt (Char "/")) Eol)).
  destruct Hp as [-> | ->].
  - change ("${APP_DATA_DIR}" ++ "/" ++ String a sub)
      with (String "$" ("{APP_DATA_DIR}" ++ "/" ++ String a sub)).
    rewrite exec_from_cons, exec_from_no_dollar
      by (rewrite free_of_append, Hfree; reflexivity).
    reflexivity.
  - change ("$APP_DATA_DIR" ++ "/" ++ String a sub)
      with (String "$" ("APP_DATA_DIR" ++ "/" ++ String a sub)).
    rewrite exec_from_cons, exec_from_no_dollar
      by (rewrite free_of_append, Hfree; reflexivity).
    reflexivity.
Qed.

(* ================================================================== *)
(** ** Loops that push to [result] *)

Section Loops.

Context {A : Type}.
Variable body : A -> list LintingResult -> completion (list LintingResult).
Hypothesis body_appends : appends body.

Lemma for_of_frame (l : list A) :
  forall result,
    for_of l body result
    = (c <- for_of l body [] ;; Normal (result ++ c)%list).
Proof.
  induction l as [|x t IH]; intro result; cbn [for_of].
  - simpl. now rewrite app_nil_r.
  - rewrite (body_appends x result).
    destruct (body x []) as [c|e]; cbn [bind]; [| reflexivity].
    rewrite (IH (result ++ c)%list), (IH c).
    destruct (for_of t body []) as [c'|e]; cbn [bind]; [| reflexivity].
    now rewrite app_assoc.
Qed.

Lemma for_of_cons (x : A) (t : list A) :
  for_of (x :: t) body []
  = (c1 <- body x [] ;; c2 <- for_of t body [] ;; Normal (c1 ++ c2)%list).
Proof.
  cbn [for_of]. destruct (body x []) as [c|e]; cbn [bind]; [| reflexivity].
  apply for_of_frame.
Qed.

(** What a loop that completes has pushed: what each iteration pushes,
    in order. *)
Lemma for_of_concat (l : list A) :
  forall r, for_of l body [] = Normal r ->
    exists cs, Forall2 (fun x c => body x [] = Normal c) l cs
               /\ r = concat cs.
Proof.
  induction l as [|x t IH]; intros r H.
  - injection H as <-. exists []. split; [constructor | reflexivity].
  - rewrite for_of_cons in H.
    destruct (body x []) as [c|e] eqn:Hx; cbn [bind] in H; [| discriminate].
    destruct (for_of t body []) as [c'|e]; cbn [bind] in H; [| discriminate].
    injection H as <-. destruct (IH c' eq_refl) as (cs & F & ->).
    exists (c :: cs). split; [now constructor | reflexivity].
Qed.

Lemma for_of_In (l : list A) (r : list LintingResult) :
  for_of l body [] = Normal r ->
  forall d, In d r <-> exists x c, In x l /\ body x [] = Normal c /\ In d c.
Proof.
  intros H d. apply for_of_concat in H as (cs & F & ->).
  rewrite in_concat. split.
  - intros (c & Hc & Hd). induction F as [|x c' l cs Hx F IH].
    + destruct Hc.
    + destruct Hc as [-> | Hc].
      * exists x, c. repeat split; auto. now left.
      * destruct (IH Hc) as (x' & c'' & ? & ? & ?).
        exists x', c''. repeat split; auto. now right.
  - intros (x & c & Hx & Hb & Hd). induction F as [|x' c' l cs Hx' F IH].
    + destruct Hx.
    + destruct Hx as [-> | Hx].
      * exists c. split; [left; congruence | exact Hd].
      * destruct (IH Hx) as (c'' & ? & ?). exists c''. split; [now right | auto].
Qed.

Lemma for_of_each (l : list A) (r : list LintingResult) :
  for_of l body [] = Normal r ->
  forall x, In x l -> exists c, body x [] = Normal c.
Proof.
  intros H x Hx. apply for_of_concat in H as (cs & F & _).
  induction F as [|x' c' l cs Hx' F IH]; [destruct Hx |].
  destruct Hx as [-> | Hx]; [now exists c' | now apply IH].
Qed.

End Loops.

Lemma push_appends (d : LintingResult) (result : list LintingResult) :
  push d result = (c <- push d [] ;; Normal (result ++ c)%list).
Proof. reflexivity. Qed.

Lemma normal_appends (result : list LintingResult) :
  @Normal (list LintingResult) result
  = (c <- Normal [] ;; Normal (result ++ c)%list).
Proof. simpl. now rewrite app_nil_r. Qed.

Lemma throw_appends (e : exn) (result : list LintingResult) :
  @Throw (list LintingResult) e
  = (c <- Throw e ;; Normal (result ++ c)%list).
Proof. reflexivity. Qed.

(** A loop of pushing bodies is a pushing body. *)
Lemma for_of_appends {A B : Type} (items : B -> list A)
    (body : B -> A -> list LintingResult -> completion (list LintingResult)) :
  (forall b, appends (body b)) ->
  appends (fun b => for_of (items b) (body b)).
Proof. intros H b result. now apply for_of_frame. Qed.

(* ================================================================== *)
(** ** The checks of [lintDockerComposeYml], one at a time *)

(** Concrete runs are evaluated by the virtual machine. *)
Ltac run := vm_compute; reflexivity.

(** The keys the volume checks look up are no array indices. *)
Ltac known_keys :=
  change (array_index "source") with (@None nat) in *;
  change (array_index "target") with (@None nat) in *;
  change (String.eqb "source" "length") with false in *;
  change (String.eqb "target" "length") with false in *.

Ltac case_matches :=
  repeat first
    [ progress cbn [bind HasProperty Get typeof_object]
    | progress known_keys
    | match goal with
      | |- context [assoc ?k ?l] => destruct (assoc k l)
      | |- context [match ?x with _ => _ end] => destruct x
      | |- context [if ?b then _ else _] => destruct b
      end ].

Ltac invert_body H :=
  repeat first
    [ progress cbn [bind HasProperty Get typeof_object or_undefined] in *
    | progress known_keys
    | match type of H with
      | context [assoc ?k ?l] => destruct (assoc k l) eqn:?
      | context [match ?x with _ => _ end] => destruct x eqn:?
      | context [if ?b then _ else _] => destruct b eqn:?
      end ];
  try discriminate H.

Section Checks.

Variable E : Collaborators.

Lemma check_image_appends (content : string) (doc : value) :
  appends (check_image E content doc).
Proof.
  intros service result. unfold check_image.
  destruct (service_field doc service "image") as [image|e];
    cbn [bind]; [| reflexivity].
  case_matches; try reflexivity; apply normal_appends.
Qed.

Lemma check_boolean_entry_appends (content service label : string) :
  appends (check_boolean_entry E content service label).
Proof.
  intros [key v] result. unfold check_boolean_entry.
  destruct v; try apply normal_appends. reflexivity.
Qed.

Lemma check_booleans_appends (content : string) (doc : value) :
  appends (check_booleans E content doc).
Proof.
  intros service result. unfold check_booleans.
  destruct (service_field doc service "environment"); cbn [bind];
    [| reflexivity].
  destruct (service_field doc service "labels"); cbn [bind]; [| reflexivity].
  destruct (service_field doc service "extra_hosts"); cbn [bind];
    [| reflexivity].
  apply for_of_frame.
  apply (for_of_appends (fun property => snd property)
           (fun property =>
              check_boolean_entry E content service (fst property))).
  intro property. apply check_boolean_entry_appends.
Qed.

Lemma check_direct_mount_appends (content service : string) :
  appends (check_direct_mount E content service).
Proof.
  intros volume result. unfold check_direct_mount. cbv zeta.
  destruct volume; cbn [typeof_object]; try apply normal_appends.
  all: case_matches; try reflexivity; apply normal_appends.
Qed.

Lemma check_mount_exists_appends (content : string) (files : list string)
    (appId service : string) :
  appends (check_mount_exists E content files appId service).
Proof.
  intros volume result. unfold check_mount_exists. cbv zeta.
  destruct volume; cbn [typeof_object]; try apply normal_appends.
  all: case_matches; try reflexivity; apply normal_appends.
Qed.

Lemma for_volumes_frame (doc : value) (services : list string)
    (body : string -> value -> list LintingResult
            -> completion (list LintingResult)) :
  (forall service, appends (body service)) ->
  forall result,
    for_volumes doc services body result
    = (c <- for_volumes doc services body [] ;; Normal (result ++ c)%list).
Proof.
  intros H result. unfold for_volumes. apply for_of_frame.
  intros service res.
  destruct (service_volumes doc service) as [volumes|e]; cbn [bind];
    [| reflexivity].
  destruct volumes; try apply normal_appends. now apply for_of_frame.
Qed.


Lemma in_singleton {A : Type} (x y : A) : In x [y] -> x = y.
Proof. intros [<- | []]. reflexivity. Qed.

(** *** The image check *)

Lemma check_image_inv (content : string) (doc : value) (service : string)
    (c : list LintingResult) (d : LintingResult) :
  check_image E content doc service [] = Normal c -> In d c ->
  exists image,
    service_field doc service "image" = Normal (VString image)
    /\ image <> ""
    /\ ((match_ image image_re = None
         /\ d = image_name_result E content service image)
        \/ (exists m, match_ image image_re = Some m
                      /\ group 2 m = Some "latest"
                      /\ d = image_tag_result E content service
                             (Some "latest"))).
Proof.
  unfold check_image. intros H Hd.
  destruct (service_field doc service "image") as [image|]; cbn [bind] in H;
    [| discriminate].
  destruct image as [| | b | repr | s | items | props];
    cbn [truthy negb] in H;
    try (injection H as <-; destruct Hd); try discriminate.
  - destruct b; cbn in H; [discriminate | injection H as <-; destruct Hd].
  - destruct (negb _); [injection H as <-; destruct Hd | discriminate].
  - destruct (String.eqb_spec s "") as [Es | Ns]; cbn [negb] in H.
    + injection H as <-. destruct Hd.
    + exists s. split; [reflexivity |]. split; [exact Ns |].
      destruct (match_ s image_re) as [m|] eqn:Hm.
      * destruct (group 2 m) as [v|] eqn:Hv; cbn [strict_eq] in H.
        -- destruct (String.eqb_spec v "latest") as [-> | Nv].
           ++ injection H as <-. apply in_singleton in Hd. right.
              exists m. repeat split; auto.
           ++ injection H as <-. destruct Hd.
        -- injection H as <-. destruct Hd.
      * injection H as <-. apply in_singleton in Hd. left. now split.
Qed.



(** *** The bare-boolean check *)

Lemma for_of_pure {A : Type} (f : A -> list LintingResult)
    (body : A -> list LintingResult -> completion (list LintingResult)) :
  (forall x result, body x result = Normal (result ++ f x)%list) ->
  forall l result,
    for_of l body result = Normal (result ++ flat_map f l)%list.
Proof.
  intros H l. induction l as [|x t IH]; intro result; cbn [for_of flat_map].
  - now rewrite app_nil_r.
  - rewrite H. cbn [bind]. rewrite IH. now rewrite app_assoc.
Qed.

Lemma check_boolean_entries (content service label : string)
    (entries : list (string * value)) (result : list LintingResult) :
  for_of entries (check_boolean_entry E content service label) result
  = Normal (result ++ boolean_entry_results E content service label entries)%list.
Proof.
  unfold boolean_entry_results, bare_booleans.
  rewrite (for_of_pure
             (fun entry => match snd entry with
                           | VBoolean b =>
                               [boolean_result E content service label
                                  (fst entry) b]
                           | _ => []
                           end)).
  - f_equal. f_equal. induction entries as [|[k v] t IH]; [reflexivity |].
    cbn [flat_map map fst snd]. rewrite map_app, IH.
    destruct v; reflexivity.
  - intros [k v] res. unfold check_boolean_entry. cbn [fst snd].
    destruct v; try (now rewrite app_nil_r). reflexivity.
Qed.

Lemma boolean_properties_entries (content service : string)
    (environment labels extra_hosts : value) (result : list LintingResult) :
  for_of (boolean_properties environment labels extra_hosts)
    (fun property =>
       for_of (snd property)
         (check_boolean_entry E content service (fst property)))
    result
  = Normal (result
            ++ boolean_entry_results E content service "environment"
                 (mapping_entries environment)
            ++ boolean_entry_results E content service "labels"
                 (mapping_entries labels)
            ++ boolean_entry_results E content service "extra_hosts"
                 (mapping_entries extra_hosts))%list.
Proof.
  rewrite (for_of_pure
             (fun property =>
                boolean_entry_results E content service (fst property)
                  (snd property))).
  - f_equal. f_equal. unfold boolean_properties.
    rewrite !flat_map_app.
    assert (K : forall label v,
               flat_map
                 (fun property =>
                    boolean_entry_results E content service (fst property)
                      (snd property))
                 (if truthy v && typeof_object v
                  then [(label, Object_entries v)] else [])
               = boolean_entry_results E content service label
                   (mapping_entries v)).
    { intros label v. destruct v; try reflexivity.
      - cbn. now destruct b.
      - cbn [truthy typeof_object andb]. now rewrite andb_false_r.
      - cbn [truthy typeof_object andb]. now rewrite andb_false_r.
      - cbn. now rewrite app_nil_r.
      - cbn. now rewrite app_nil_r. }
    now rewrite !K.
  - intros property res. apply check_boolean_entries.
Qed.

Lemma check_booleans_eq (content : string) (doc : value) (service : string)
    (c : list LintingResult) :
  check_booleans E content doc service [] = Normal c ->
  c = flat_map
        (fun label =>
           boolean_entry_results E content service label
             (mapping_entries (field_value doc service label)))
        boolean_labels.
Proof.
  unfold check_booleans, field_value.
  destruct (service_field doc service "environment") as [environment|]
    eqn:He; cbn [bind]; [| discriminate].
  destruct (service_field doc service "labels") as [labels|] eqn:Hl;
    cbn [bind]; [| discriminate].
  destruct (service_field doc service "extra_hosts") as [extra_hosts|]
    eqn:Hx; cbn [bind]; [| discriminate].
  rewrite boolean_properties_entries. intro H. injection H as <-.
  cbn [boolean_labels flat_map app]. rewrite He, Hl, Hx.
  now rewrite app_nil_r.
Qed.

(** *** The loops over volumes *)

Lemma volumes_body_appends (doc : value)
    (body : string -> value -> list LintingResult
            -> completion (list LintingResult)) :
  (forall service, appends (body service)) ->
  appends (fun service result =>
             volumes <- service_volumes doc service ;;
             match volumes with
             | VArray volumes => for_of volumes (body service) result
             | _ => Normal result
             end).
Proof.
  intros H service res.
  destruct (service_volumes doc service) as [volumes|e]; cbn [bind];
    [| reflexivity].
  destruct volumes; try apply normal_appends. now apply for_of_frame.
Qed.

Lemma for_volumes_In (doc : value) (services : list string)
    (body : string -> value -> list LintingResult
            -> completion (list LintingResult))
    (r : list LintingResult) :
  (forall service, appends (body service)) ->
  for_volumes doc services body [] = Normal r ->
  forall d,
    In d r <->
    exists service volumes v c,
      In service services
      /\ service_volumes doc service = Normal (VArray volumes)
      /\ In v volumes /\ body service v [] = Normal c /\ In d c.
Proof.
  intros HA H d. unfold for_volumes in H.
  rewrite (for_of_In _ (volumes_body_appends doc body HA) _ _ H d).
  split.
  - intros (service & c & Hs & Hb & Hd).
    destruct (service_volumes doc service) as [volumes|] eqn:Hv;
      cbn [bind] in Hb; [| discriminate].
    destruct volumes as [| | | | | volumes |];
      try (injection Hb as <-; destruct Hd).
    apply (for_of_In _ (HA service) _ _ Hb) in Hd
      as (v & c' & Hv' & Hc' & Hd').
    now exists service, volumes, v, c'.
  - intros (service & volumes & v & c & Hs & Hv & Hin & Hb & Hd).
    destruct (for_of_each _ (volumes_body_appends doc body HA) _ _ H
                service Hs) as [c' Hc'].
    exists service, c'. split; [exact Hs |]. split; [exact Hc' |].
    rewrite Hv in Hc'. cbn [bind] in Hc'.
    apply (for_of_In _ (HA service) _ _ Hc').
    now exists v, c.
Qed.

(** *** The direct-mount check *)

Lemma check_direct_mount_string (content service source target : string) :
  app_data_root source ->
  check_direct_mount E content service (VString (source ++ ":" ++ target)) []
  = Normal [direct_mount_string_result E content service
              (source ++ ":" ++ target)].
Proof.
  intro H. unfold check_direct_mount.
  destruct (direct_mount_string_hit source target H) as [m ->].
  reflexivity.
Qed.


Lemma check_direct_mount_elem (content service : string) (v : value)
    (c : list LintingResult) (d : LintingResult) :
  check_direct_mount E content service v [] = Normal c -> In d c ->
  id d = "invalid_app_data_dir_volume_mount" /\ severity d = warning.
Proof.
  unfold check_direct_mount. intros H Hd.
  destruct v; invert_body H; injection H as <-;
    try (destruct Hd; fail); apply in_singleton in Hd; subst d;
    split; reflexivity.
Qed.

(** *** The file-existence check *)


Lemma check_mount_exists_string (content : string) (files : list string)
    (appId service p sub target : string) :
  placeholder p -> sub <> "" -> free_of ":" sub = true ->
  no_line_terminator sub = true ->
  check_mount_exists E content files appId service
    (VString (p ++ "/" ++ sub ++ ":" ++ target)) []
  = Normal (if includes files (appId ++ "/" ++ sub) then []
            else [missing_file_result E content service appId
                    (p ++ "/" ++ sub ++ ":" ++ target) sub]).
Proof.
  intros Hp Ns Hc Hl. unfold check_mount_exists.
  destruct (app_data_dir_hit p ("/" ++ sub ++ ":" ++ target) Hp) as [m0 ->].
  destruct (subpath_string_hit p sub target Hp Hc Hl) as (m & -> & ->).
  cbn [falsy show]. destruct (String.eqb_spec sub ""); [contradiction |].
  now destruct (includes files (appId ++ "/" ++ sub)).
Qed.

Lemma check_mount_exists_object (content : string) (files : list string)
    (appId service p sub : string) (props : list (string * value))
    (target : value) :
  assoc "source" props = Some (VString (p ++ "/" ++ sub)) ->
  assoc "target" props = Some target ->
  placeholder p -> sub <> "" -> no_line_terminator sub = true ->
  check_mount_exists E content files appId service (VObject props) []
  = Normal (if includes files (appId ++ "/" ++ sub) then []
            else [missing_file_result E content service appId
                    ((p ++ "/" ++ sub) ++ ":" ++ ToString target) sub]).
Proof.
  intros Hs Ht Hp Ns Hl. unfold check_mount_exists.
  cbn [typeof_object HasProperty Get bind]. rewrite Hs, Ht.
  cbn [bind or_undefined].
  destruct (app_data_dir_hit p ("/" ++ sub) Hp) as [m0 ->].
  destruct (subpath_source_hit p sub Hp Hl) as (m & -> & ->).
  cbn [falsy show]. destruct (String.eqb_spec sub ""); [contradiction |].
  now destruct (includes files (appId ++ "/" ++ sub)).
Qed.

Lemma check_mount_exists_elem (content : string) (files : list string)
    (appId service : string) (v : value) (c : list LintingResult)
    (d : LintingResult) :
  check_mount_exists E content files appId service v [] = Normal c ->
  In d c ->
  exists text sub,
    d = missing_file_result E content service appId text sub
    /\ includes files (appId ++ "/" ++ sub) = false.
Proof.
  unfold check_mount_exists. intros H Hd.
  destruct v; invert_body H; injection H as <-;
    try (destruct Hd; fail); apply in_singleton in Hd; subst d;
    match goal with
    | Hn : negb (includes files (appId ++ "/" ++ ?sub)) = true
      |- context [missing_file_result _ _ _ _ ?text ?sub] =>
        exists text, sub; split; [reflexivity |];
        now apply negb_true_iff in Hn
    end.
Qed.

(** Whether the check throws does not depend on the files. *)
Lemma check_mount_exists_any_files (content : string)
    (files files' : list string) (appId service : string) (v : value)
    (c : list LintingResult) :
  check_mount_exists E content files appId service v [] = Normal c ->
  exists c', check_mount_exists E content files' appId service v []
             = Normal c'.
Proof.
  unfold check_mount_exists. intro H.
  destruct v; invert_body H; case_matches; eexists; reflexivity.
Qed.

Lemma check_direct_mount_subpath (content service : string) (v : value) :
  subpath_entry v ->
  check_direct_mount E content service v [] = Normal [].
Proof.
  unfold check_direct_mount.
  intros [(p & sub & target & -> & Hp & Ns & Hc & Hd & Ht)
         | (props & p & sub & target & -> & Hs & Ht & Hp & Ns & Hd)].
  - now rewrite (direct_mount_string_miss p sub target Hp Ns Hc Hd Ht).
  - cbn [typeof_object HasProperty Get bind]. rewrite Hs, Ht.
    cbn [bind or_undefined].
    now rewrite (direct_mount_source_miss p sub Hp Ns Hd).
Qed.

(** *** Runs that differ in the files only *)

Lemma for_of_transfer {A : Type}
    (b1 b2 : A -> list LintingResult -> completion (list LintingResult))
    (l : list A) :
  appends b1 -> appends b2 ->
  (forall x c, In x l -> b1 x [] = Normal c ->
               exists c', b2 x [] = Normal c') ->
  forall r, for_of l b1 [] = Normal r ->
    exists r', for_of l b2 [] = Normal r'.
Proof.
  intros A1 A2. induction l as [|x t IH]; intros T r H.
  - now exists [].
  - rewrite (for_of_cons _ A1) in H. rewrite (for_of_cons _ A2).
    destruct (b1 x []) as [c|] eqn:Hx; cbn [bind] in H; [| discriminate].
    destruct (T x c (or_introl eq_refl) Hx) as [c' ->]. cbn [bind].
    destruct (for_of t b1 []) as [ct|] eqn:Ht; cbn [bind] in H;
      [| discriminate].
    destruct (IH (fun y cy Hy => T y cy (or_intror Hy)) ct eq_refl)
      as [ct' ->].
    now eexists.
Qed.

Lemma for_volumes_any_files (content : string) (files files' : list string)
    (appId : string) (doc : value) (services : list string)
    (r : list LintingResult) :
  for_volumes doc services (check_mount_exists E content files appId) []
  = Normal r ->
  exists r',
    for_volumes doc services (check_mount_exists E content files' appId) []
    = Normal r'.
Proof.
  unfold for_volumes.
  apply for_of_transfer.
  - apply volumes_body_appends. intro. apply check_mount_exists_appends.
  - apply volumes_body_appends. intro. apply check_mount_exists_appends.
  - intros service c _.
    destruct (service_volumes doc service) as [volumes|]; cbn [bind];
      [| discriminate].
    destruct volumes; try (intros _; now eexists).
    apply for_of_transfer; try apply check_mount_exists_appends.
    intros v cv _. apply check_mount_exists_any_files.
Qed.

(** A run on a document that passes the schema and whose text parses
    is the four checks, each run on its own, one after the other. *)
Lemma compose_checks (content : string) (files : list string)
    (appId : string) (docM doc : value)
    (r : list LintingResult) :
  YAML_parse E true (mockVariables E content) = inr docM ->
  fst (validate E docM) = true ->
  YAML_parse E true content = inr doc ->
  lintDockerComposeYml E content files appId = Normal r ->
  exists servicesMocked images booleans services mounts missing,
    service_names docM = Normal servicesMocked
    /\ for_of servicesMocked (check_image E content docM) [] = Normal images
    /\ for_of servicesMocked (check_booleans E content docM) []
       = Normal booleans
    /\ service_names doc = Normal services
    /\ for_volumes doc services (check_direct_mount E content) []
       = Normal mounts
    /\ for_volumes doc services (check_mount_exists E content files appId) []
       = Normal missing
    /\ r = (images ++ booleans ++ mounts ++ missing)%list.
Proof.
  intros HM HV HD. unfold lintDockerComposeYml. rewrite HM.
  destruct (validate E docM) as [valid errs]. cbn [fst] in HV. subst valid.
  cbn [negb]. rewrite HD.
  destruct (service_names docM) as [servicesMocked|] eqn:H1; cbn [bind];
    [| discriminate].
  destruct (for_of servicesMocked (check_image E content docM) [])
    as [images|] eqn:H2; cbn [bind]; [| discriminate].
  rewrite (for_of_frame _ (check_booleans_appends content docM)).
  destruct (for_of servicesMocked (check_booleans E content docM) [])
    as [booleans|] eqn:H3; cbn [bind]; [| discriminate].
  destruct (service_names doc) as [services|] eqn:H4; cbn [bind];
    [| discriminate].
  rewrite (for_volumes_frame doc services _
             (check_direct_mount_appends content)).
  destruct (for_volumes doc services (check_direct_mount E content) [])
    as [mounts|] eqn:H5; cbn [bind]; [| discriminate].
  rewrite (for_volumes_frame doc services _
             (check_mount_exists_appends content files appId)).
  destruct (for_volumes doc services
              (check_mount_exists E content files appId) [])
    as [missing|] eqn:H6; cbn [bind]; [| discriminate].
  intro H. injection H as <-.
  exists servicesMocked, images, booleans, services, mounts, missing.
  repeat split; auto. now rewrite <- !app_assoc.
Qed.

(** A run on a document that fails the schema is the schema's errors and
    nothing else. *)
Lemma compose_schema_errors (content : string) (files : list string)
    (appId : string) (docM : value) :
  YAML_parse E true (mockVariables E content) = inr docM ->
  fst (validate E docM) = false ->
  lintDockerComposeYml E content files appId
  = Normal (map (schema_error_result E content)
              (errors_or_empty (snd (validate E docM)))).
Proof.
  intros HM HV. unfold lintDockerComposeYml. rewrite HM.
  destruct (validate E docM) as [valid errs]. cbn [fst snd] in *.
  subst valid. reflexivity.
Qed.

(** Every diagnostic of such a run comes from one iteration of one of
    the four checks. *)
Lemma compose_origin (content : string) (files : list string)
    (appId : string) (docM doc : value) (servicesMocked services : list string)
    (r : list LintingResult) :
  YAML_parse E true (mockVariables E content) = inr docM ->
  fst (validate E docM) = true ->
  YAML_parse E true content = inr doc ->
  lintDockerComposeYml E content files appId = Normal r ->
  service_names docM = Normal servicesMocked ->
  service_names doc = Normal services ->
  forall d, In d r ->
    origin E content files appId docM doc servicesMocked services d.
Proof.
  intros HM HV HD H HSM HS d Hd.
  destruct (compose_checks content files appId docM doc r HM HV HD H)
    as (sm & images & booleans & ss & mounts & missing
        & E1 & E2 & E3 & E4 & E5 & E6 & ->).
  rewrite HSM in E1. injection E1 as <-.
  rewrite HS in E4. injection E4 as <-.
  rewrite !in_app_iff in Hd. destruct Hd as [Hd | [Hd | [Hd | Hd]]].
  - apply (for_of_In _ (check_image_appends content docM) _ _ E2) in Hd
      as (service & c & Hs & Hc & Hd).
    destruct (check_image_inv content docM service c d Hc Hd)
      as (image & Hi & Hn & Hcase).
    now apply (from_image _ _ _ _ _ _ _ _ _ service image).
  - apply (for_of_In _ (check_booleans_appends content docM) _ _ E3) in Hd
      as (service & c & Hs & Hc & Hd).
    apply check_booleans_eq in Hc. subst c.
    apply in_flat_map in Hd as (label & Hl & Hd).
    unfold boolean_entry_results in Hd.
    apply in_map_iff in Hd as ([key b] & <- & Hkb).
    now apply (from_boolean _ _ _ _ _ _ _ _ _ service label key b).
  - apply (for_volumes_In doc services _ mounts
             (check_direct_mount_appends content) E5) in Hd
      as (service & volumes & v & c & Hs & Hv & Hin & Hc & Hd).
    now apply (from_mount _ _ _ _ _ _ _ _ _ service volumes v c).
  - apply (for_volumes_In doc services _ missing
             (check_mount_exists_appends content files appId) E6) in Hd
      as (service & volumes & v & c & Hs & Hv & Hin & Hc & Hd).
    now apply (from_missing _ _ _ _ _ _ _ _ _ service volumes v c).
Qed.

Lemma compose_services (content : string) (files : list string)
    (appId : string) (docM doc : value) (r : list LintingResult) :
  YAML_parse E true (mockVariables E content) = inr docM ->
  fst (validate E docM) = true ->
  YAML_parse E true content = inr doc ->
  lintDockerComposeYml E content files appId = Normal r ->
  exists servicesMocked services,
    service_names docM = Normal servicesMocked
    /\ service_names doc = Normal services.
Proof.
  intros HM HV HD H.
  destruct (compose_checks content files appId docM doc r HM HV HD H)
    as (sm & images & booleans & ss & mounts & missing
        & E1 & E2 & E3 & E4 & _).
  now exists sm, ss.
Qed.

Lemma filter_none {A : Type} (f : A -> bool) (l : list A) :
  (forall x, In x l -> f x = false) -> filter f l = [].
Proof.
  induction l as [|x t IH]; intro H; [reflexivity |].
  cbn [filter]. rewrite (H x (or_introl eq_refl)).
  apply IH. intros y Hy. apply H. now right.
Qed.

Lemma filter_all {A : Type} (f : A -> bool) (l : list A) :
  (forall x, In x l -> f x = true) -> filter f l = l.
Proof.
  induction l as [|x t IH]; intro H; [reflexivity |].
  cbn [filter]. rewrite (H x (or_introl eq_refl)). f_equal.
  apply IH. intros y Hy. apply H. now right.
Qed.

Lemma booleans_expected (content : string) (docM : value)
    (servicesMocked : list string) (booleans : list LintingResult) :
  for_of servicesMocked (check_booleans E content docM) [] = Normal booleans ->
  booleans = expected_boolean_results E content docM servicesMocked.
Proof.
  intro H.
  apply (for_of_concat _ (check_booleans_appends content docM)) in H
    as (cs & F & ->).
  unfold expected_boolean_results.
  induction F as [|service c l cs Hc F IH]; [reflexivity |].
  cbn [concat flat_map]. rewrite IH.
  now rewrite (check_booleans_eq content docM service c Hc).
Qed.

(** The boolean diagnostics of a run are those the document is owed,
    and no other diagnostic carries their id. *)
Lemma compose_boolean_filter (content : string) (files : list string)
    (appId : string) (docM doc : value) (servicesMocked : list string)
    (r : list LintingResult) :
  YAML_parse E true (mockVariables E content) = inr docM ->
  fst (validate E docM) = true ->
  YAML_parse E true content = inr doc ->
  service_names docM = Normal servicesMocked ->
  lintDockerComposeYml E content files appId = Normal r ->
  filter (has_id "invalid_yaml_boolean_value") r
  = expected_boolean_results E content docM servicesMocked.
Proof.
  intros HM HV HD HSM H.
  destruct (compose_checks content files appId docM doc r HM HV HD H)
    as (sm & images & booleans & ss & mounts & missing
        & E1 & E2 & E3 & E4 & E5 & E6 & ->).
  rewrite HSM in E1. injection E1 as <-.
  rewrite !filter_app.
  rewrite (filter_none _ images), (filter_all _ booleans),
    (filter_none _ mounts), (filter_none _ missing).
  - rewrite app_nil_l, !app_nil_r. now apply booleans_expected.
  - intros d Hd.
    apply (for_volumes_In doc ss _ missing
             (check_mount_exists_appends content files appId) E6) in Hd
      as (service & volumes & v & c & Hs & Hv & Hin & Hc & Hd).
    destruct (check_mount_exists_elem content files appId service v c d
                Hc Hd) as (text & sub & -> & _). reflexivity.
  - intros d Hd.
    apply (for_volumes_In doc ss _ mounts
             (check_direct_mount_appends content) E5) in Hd
      as (service & volumes & v & c & Hs & Hv & Hin & Hc & Hd).
    destruct (check_direct_mount_elem content service v c d Hc Hd)
      as [Hid _]. unfold has_id. now rewrite Hid.
  - intros d Hd. rewrite (booleans_expected content docM _ _ E3) in Hd.
    unfold expected_boolean_results in Hd.
    apply in_flat_map in Hd as (service & _ & Hd).
    apply in_flat_map in Hd as (label & _ & Hd).
    unfold boolean_entry_results in Hd.
    apply in_map_iff in Hd as (kb & <- & _). reflexivity.
  - intros d Hd.
    apply (for_of_In _ (check_image_appends content docM) _ _ E2) in Hd
      as (service & c & Hs & Hc & Hd).
    destruct (check_image_inv content docM service c d Hc Hd)
      as (image & _ & _ & [[_ ->] | (m & _ & _ & ->)]); reflexivity.
Qed.

(** Whether such a run completes does not depend on the files. *)
Lemma compose_any_files (content : string) (files files' : list string)
    (appId : string) (docM doc : value) (r : list LintingResult) :
  YAML_parse E true (mockVariables E content) = inr docM ->
  fst (validate E docM) = true ->
  YAML_parse E true content = inr doc ->
  lintDockerComposeYml E content files appId = Normal r ->
  exists r', lintDockerComposeYml E content files' appId = Normal r'.
Proof.
  intros HM HV HD H.
  destruct (compose_checks content files appId docM doc r HM HV HD H)
    as (sm & images & booleans & ss & mounts & missing
        & E1 & E2 & E3 & E4 & E5 & E6 & ->).
  destruct (for_volumes_any_files content files files' appId doc ss missing
              E6) as [missing' E6'].
  unfold lintDockerComposeYml. rewrite HM.
  destruct (validate E docM) as [valid errs]. cbn [fst] in HV. subst valid.
  cbn [negb]. rewrite HD, E1. cbn [bind]. rewrite E2. cbn [bind].
  rewrite (for_of_frame _ (check_booleans_appends content docM)), E3.
  cbn [bind]. rewrite E4. cbn [bind].
  rewrite (for_volumes_frame doc ss _ (check_direct_mount_appends content)),
    E5.
  cbn [bind].
  rewrite (for_volumes_frame doc ss _
             (check_mount_exists_appends content files' appId)), E6'.
  cbn [bind]. now eexists.
Qed.



Lemma compose_boolean_in (content : string) (files : list string)
    (appId : string) (docM doc : value) (servicesMocked : list string)
    (r : list LintingResult) (service : string) (c : list LintingResult)
    (d : LintingResult) :
  YAML_parse E true (mockVariables E content) = inr docM ->
  fst (validate E docM) = true ->
  YAML_parse E true content = inr doc ->
  lintDockerComposeYml E content files appId = Normal r ->
  service_names docM = Normal servicesMocked ->
  In service servicesMocked ->
  check_booleans E content docM service [] = Normal c -> In d c -> In d r.
Proof.
  intros HM HV HD H HSM Hs Hc Hd.
  destruct (compose_checks content files appId docM doc r HM HV HD H)
    as (sm & images & booleans & ss & mounts & missing
        & E1 & E2 & E3 & E4 & E5 & E6 & ->).
  rewrite HSM in E1. injection E1 as <-.
  apply in_or_app. right. apply in_or_app. left.
  apply (for_of_In _ (check_booleans_appends content docM) _ _ E3).
  now exists service, c.
Qed.

Lemma compose_mount_in (content : string) (files : list string)
    (appId : string) (docM doc : value) (services : list string)
    (r : list LintingResult) (service : string) (volumes : list value)
    (v : value) (c : list LintingResult) (d : LintingResult) :
  YAML_parse E true (mockVariables E content) = inr docM ->
  fst (validate E docM) = true ->
  YAML_parse E true content = inr doc ->
  lintDockerComposeYml E content files appId = Normal r ->
  service_names doc = Normal services ->
  In service services ->
  service_volumes doc service = Normal (VArray volumes) -> In v volumes ->
  check_direct_mount E content service v [] = Normal c -> In d c -> In d r.
Proof.
  intros HM HV HD H HS Hs Hvs Hv Hc Hd.
  destruct (compose_checks content files appId docM doc r HM HV HD H)
    as (sm & images & booleans & ss & mounts & missing
        & E1 & E2 & E3 & E4 & E5 & E6 & ->).
  rewrite HS in E4. injection E4 as <-.
  apply in_or_app. right. apply in_or_app. right. apply in_or_app. left.
  apply (for_volumes_In doc services _ mounts
           (check_direct_mount_appends content) E5).
  now exists service, volumes, v, c.
Qed.

Lemma compose_missing_in (content : string) (files : list string)
    (appId : string) (docM doc : value) (services : list string)
    (r : list LintingResult) (service : string) (volumes : list value)
    (v : value) (c : list LintingResult) (d : LintingResult) :
  YAML_parse E true (mockVariables E content) = inr docM ->
  fst (validate E docM) = true ->
  YAML_parse E true content = inr doc ->
  lintDockerComposeYml E content files appId = Normal r ->
  service_names doc = Normal services ->
  In service services ->
  service_volumes doc service = Normal (VArray volumes) -> In v volumes ->
  check_mount_exists E content files appId service v [] = Normal c ->
  In d c -> In d r.
Proof.
  intros HM HV HD H HS Hs Hvs Hv Hc Hd.
  destruct (compose_checks content files appId docM doc r HM HV HD H)
    as (sm & images & booleans & ss & mounts & missing
        & E1 & E2 & E3 & E4 & E5 & E6 & ->).
  rewrite HS in E4. injection E4 as <-.
  apply in_or_app. right. apply in_or_app. right. apply in_or_app. right.
  apply (for_volumes_In doc services _ missing
           (check_mount_exists_appends content files appId) E6).
  now exists service, volumes, v, c.
Qed.

End Checks.

(* ================================================================== *)
(** ** Facts shared by the statements below *)

(** *** What a match has to find in the input *)

Lemma is_suffix_refl (s : string) : is_suffix s s.
Proof. now exists "". Qed.

Lemma is_suffix_trans (a b c : string) :
  is_suffix a b -> is_suffix b c -> is_suffix a c.
Proof.
  intros [p ->] [q ->]. exists (q ++ p). now rewrite append_assoc.
Qed.

Lemma is_suffix_tail (a : ascii) (t : string) : is_suffix t (String a t).
Proof. now exists (String a ""). Qed.

Lemma free_of_suffix (ch : ascii) (t s : string) :
  is_suffix t s -> free_of ch s = true -> free_of ch t = true.
Proof.
  intros [p ->] H. rewrite free_of_append in H.
  now apply andb_true_iff in H.
Qed.

Section Reaches.

Variable m : Matcher.
Hypothesis m_reaches :
  forall x c z, m x c = Some z ->
    exists y, is_suffix (rest y) (rest x) /\ c y = Some z.

Lemma repeat_greedy_reaches (fuel : nat) :
  forall x c z, repeat_greedy m fuel x c = Some z ->
    exists y, is_suffix (rest y) (rest x) /\ c y = Some z.
Proof.
  induction fuel as [|f IH]; intros x c z H; cbn [repeat_greedy] in H.
  - exists x. split; [apply is_suffix_refl | exact H].
  - destruct (m x _) as [z'|] eqn:Hm.
    + injection H as ->. apply m_reaches in Hm as (y & Hy & Hc).
      destruct (Nat.eqb (endIndex y) (endIndex x)); [discriminate |].
      apply IH in Hc as (y' & Hy' & Hc').
      exists y'. split; [now apply (is_suffix_trans _ (rest y)) | exact Hc'].
    + exists x. split; [apply is_suffix_refl | exact H].
Qed.

Lemma repeat_lazy_reaches (fuel : nat) :
  forall x c z, repeat_lazy m fuel x c = Some z ->
    exists y, is_suffix (rest y) (rest x) /\ c y = Some z.
Proof.
  induction fuel as [|f IH]; intros x c z H; cbn [repeat_lazy] in H.
  - destruct (c x) as [z'|] eqn:Hc; [| discriminate].
    exists x. split; [apply is_suffix_refl | congruence].
  - destruct (c x) as [z'|] eqn:Hc.
    + exists x. split; [apply is_suffix_refl | congruence].
    + apply m_reaches in H as (y & Hy & Hc').
      destruct (Nat.eqb (endIndex y) (endIndex x)); [discriminate |].
      apply IH in Hc' as (y' & Hy' & Hc'').
      exists y'. split; [now apply (is_suffix_trans _ (rest y)) | exact Hc''].
Qed.

End Reaches.

(** A match succeeds only through its continuation, called on what is
    left of the input. *)
Lemma compile_reaches (r : regex) :
  forall x c z, compile r x c = Some z ->
    exists y, is_suffix (rest y) (rest x) /\ c y = Some z.
Proof.
  induction r as [| ch | | r1 IH1 r2 IH2 | r1 IH1 | r1 IH1 | r1 IH1
                  | n r1 IH1 | |]; intros x c z H; cbn [compile] in H.
  - exists x. split; [apply is_suffix_refl | exact H].
  - unfold char_matcher in H. destruct (rest x) as [|a t] eqn:Hx;
      [discriminate |].
    destruct (Ascii.eqb ch a); [| discriminate].
    eexists. split; [| exact H]. cbn [rest]. apply is_suffix_tail.
  - unfold char_matcher in H. destruct (rest x) as [|a t] eqn:Hx;
      [discriminate |].
    destruct (negb (is_line_terminator a)); [| discriminate].
    eexists. split; [| exact H]. cbn [rest]. apply is_suffix_tail.
  - apply IH1 in H as (y1 & Hy1 & H). apply IH2 in H as (y2 & Hy2 & H).
    exists y2. split; [now apply (is_suffix_trans _ (rest y1)) | exact H].
  - destruct (compile r1 x _) as [z'|] eqn:Hm.
    + injection H as ->. apply IH1 in Hm as (y & Hy & Hc).
      destruct (Nat.eqb (endIndex y) (endIndex x)); [discriminate |].
      now exists y.
    + exists x. split; [apply is_suffix_refl | exact H].
  - apply IH1 in H as (y & Hy & H).
    apply (repeat_greedy_reaches _ IH1) in H as (y' & Hy' & H).
    exists y'. split; [now apply (is_suffix_trans _ (rest y)) | exact H].
  - now apply (repeat_lazy_reaches _ IH1) in H.
  - apply IH1 in H as (y & Hy & H). eexists. split; [| exact H]. exact Hy.
  - destruct (Nat.eqb (endIndex x) 0); [| discriminate].
    exists x. split; [apply is_suffix_refl | exact H].
  - destruct (rest x) eqn:Hx; [| discriminate].
    exists x. split; [rewrite Hx; apply is_suffix_refl | exact H].
Qed.

Lemma exec_from_reaches (r : regex) (s : string) :
  forall i z, exec_from r i s = Some z ->
    exists x, is_suffix (rest x) s /\ compile r x Some = Some z.
Proof.
  induction s as [|a t IH]; intros i z H; cbn [exec_from] in H.
  - destruct (compile r _ Some) as [z'|] eqn:Hc; [| discriminate].
    injection H as ->. eexists. split; [| exact Hc]. apply is_suffix_refl.
  - destruct (compile r _ Some) as [z'|] eqn:Hc.
    + injection H as ->. eexists. split; [| exact Hc]. apply is_suffix_refl.
    + apply IH in H as (x & Hx & H). exists x. split; [| exact H].
      apply (is_suffix_trans _ t); [exact Hx | apply is_suffix_tail].
Qed.

(** A pattern that ends in a literal character matches only inputs
    that hold this character. *)
Lemma match_needs_char (r1 r2 : regex) (ch : ascii) (s : string) (z : MatchState) :
  match_ s (Seq r1 (Seq r2 (Char ch))) = Some z -> free_of ch s = false.
Proof.
  unfold match_. intro H. apply exec_from_reaches in H as (x & Hx & H).
  cbn [compile] in H. apply compile_reaches in H as (y1 & Hy1 & H).
  apply compile_reaches in H as (y2 & Hy2 & H).
  unfold char_matcher in H. destruct (rest y2) as [|a t] eqn:E;
    [discriminate |].
  destruct (Ascii.eqb_spec ch a) as [<- |]; [| discriminate].
  destruct (free_of ch s) eqn:F; [| reflexivity].
  assert (S2 : is_suffix (String ch t) s).
  { apply (is_suffix_trans _ (rest y1)); [exact Hy2 |].
    now apply (is_suffix_trans _ (rest x)). }
  apply (free_of_suffix ch _ _ S2) in F.
  cbn [free_of] in F. rewrite Ascii.eqb_refl in F. discriminate.
Qed.

Lemma compile_seq_tail (r1 r2 : regex) (x z : MatchState) :
  compile (Seq r1 r2) x Some = Some z ->
  exists y, is_suffix (rest y) (rest x) /\ compile r2 y Some = Some z.
Proof. cbn [compile]. apply compile_reaches. Qed.

Lemma subpath_needs_colon (s : string) (z : MatchState) :
  match_ s subpath_string_re = Some z -> free_of ":" s = false.
Proof.
  unfold match_. intro H. apply exec_from_reaches in H as (x & Hx & H).
  change subpath_string_re
    with (Seq app_data_dir
            (Seq (Opt (Char "/")) (Seq (Group 1 (StarLazy Dot)) (Char ":"))))
    in H.
  apply compile_seq_tail in H as (y1 & Hy1 & H).
  apply compile_seq_tail in H as (y2 & Hy2 & H).
  apply compile_seq_tail in H as (y3 & Hy3 & H).
  cbn [compile] in H. unfold char_matcher in H.
  destruct (rest y3) as [|a t] eqn:E; [discriminate |].
  destruct (Ascii.eqb_spec ":" a) as [<- |]; [| discriminate].
  destruct (free_of ":" s) eqn:F; [| reflexivity].
  assert (S3 : is_suffix (String ":" t) s).
  { apply (is_suffix_trans _ (rest y2)); [exact Hy3 |].
    apply (is_suffix_trans _ (rest y1)); [exact Hy2 |].
    now apply (is_suffix_trans _ (rest x)). }
  apply (free_of_suffix ":" _ _ S3) in F. discriminate.
Qed.

(** *** Volume entries the checks pass over *)

Lemma unchecked_volume_skipped (E : Collaborators) (content : string)
    (files : list string) (appId service : string) (v : value)
    (result : list LintingResult) :
  unchecked_volume v ->
  check_direct_mount E content service v result = Normal result
  /\ check_mount_exists E content files appId service v result
     = Normal result.
Proof.
  intro Hu. unfold check_direct_mount, check_mount_exists.
  destruct v as [| | b | repr | s | items | props]; cbn [unchecked_volume] in Hu;
    try (split; reflexivity); try contradiction.
  - split.
    + destruct (match_ s direct_mount_string_re) as [z|] eqn:Hm;
        [| reflexivity].
      apply match_needs_char in Hm. congruence.
    + destruct (match_ s subpath_string_re) as [z|] eqn:Hm.
      * apply subpath_needs_colon in Hm. congruence.
      * cbn [falsy]. now destruct (match_ s app_data_dir_re).
  - cbn [typeof_object HasProperty bind].
    destruct Hu as [Hs | Ht].
    + rewrite Hs. cbn [bind]. split; reflexivity.
    + rewrite Ht. destruct (assoc "source" props); cbn [bind];
        split; reflexivity.
Qed.


(** *** The second parse *)

Lemma reparse_failure_result (E : Collaborators)
    (content : string) (files : list string) (appId : string)
    (docM : value) (e : string) (r : list LintingResult) :
  YAML_parse E true (mockVariables E content) = inr docM ->
  fst (validate E docM) = true ->
  YAML_parse E true content = inl e ->
  lintDockerComposeYml E content files appId = Normal r ->
  r = [compose_syntax_error e].
Proof.
  intros HM HV HD. unfold lintDockerComposeYml. rewrite HM.
  destruct (validate E docM) as [valid errs]. cbn [fst] in HV. subst valid.
  cbn [negb]. rewrite HD.
  destruct (service_names docM); cbn [bind]; [| discriminate].
  destruct (for_of _ _ _); cbn [bind]; [| discriminate].
  destruct (for_of _ _ _); cbn [bind]; [| discriminate].
  intro H. now injection H as <-.
Qed.

(** *** Membership in the files *)

Lemma includes_In (files : list string) (p : string) :
  includes files p = true <-> In p files.
Proof.
  unfold includes. rewrite existsb_exists. split.
  - intros (x & Hx & Hp). apply String.eqb_eq in Hp. now subst.
  - intro H. exists p. split; [exact H | apply String.eqb_refl].
Qed.

(** *** What the volume patterns match *)

(** The matcher of a pattern without repetition and groups succeeds
    exactly when the input starts with a string the pattern stands for
    and the continuation succeeds on what follows. *)
Lemma compile_denotes (r : regex) :
  simple r = true ->
  forall (i : nat) (s : string) (caps : list (nat * string))
         (c : Continuation),
    (exists z, compile r (mkState i s caps) c = Some z)
    <-> exists w t,
          s = w ++ t /\ denotes r w t
          /\ exists z, c (mkState (i + String.length w) t caps) = Some z.
Proof.
  induction r as [| ch | | r1 IH1 r2 IH2 | r1 IH1 | | | | |];
    cbn [simple]; try discriminate; intros Hs i s caps c.
  - cbn [compile denotes]. split.
    + intros [z Hz]. exists "", s. cbn [String.length append].
      rewrite Nat.add_0_r. repeat split. now exists z.
    + intros (w & t & -> & -> & z & Hz). cbn [String.length append] in *.
      rewrite Nat.add_0_r in Hz. now exists z.
  - cbn [compile denotes]. unfold char_matcher. cbn [rest endIndex captures].
    split.
    + intros [z Hz]. destruct s as [|a t]; [discriminate |].
      destruct (Ascii.eqb_spec ch a) as [-> | N]; [| discriminate].
      exists (String a ""), t. cbn [String.length append].
      rewrite Nat.add_1_r. repeat split. now exists z.
    + intros (w & t & -> & -> & z & Hz). cbn [String.length append] in *.
      rewrite Nat.add_1_r in Hz. rewrite Ascii.eqb_refl. now exists z.
  - cbn [compile denotes]. unfold char_matcher. cbn [rest endIndex captures].
    split.
    + intros [z Hz]. destruct s as [|a t]; [discriminate |].
      destruct (is_line_terminator a) eqn:Ha; cbn [negb] in Hz;
        [discriminate |].
      exists (String a ""), t. cbn [String.length append].
      rewrite Nat.add_1_r. split; [reflexivity |].
      split; [now exists a | now exists z].
    + intros (w & t & -> & (a & -> & Ha) & z & Hz).
      cbn [String.length append] in *.
      rewrite Nat.add_1_r in Hz. rewrite Ha. cbn [negb]. now exists z.
  - apply andb_true_iff in Hs as [Hs1 Hs2]. cbn [compile denotes].
    rewrite (IH1 Hs1 i s caps (fun y => compile r2 y c)). split.
    + intros (w1 & t1 & -> & D1 & Hz).
      apply (IH2 Hs2) in Hz as (w2 & t & -> & D2 & z & Hz).
      exists (w1 ++ w2), t. rewrite append_assoc. split; [reflexivity |].
      split; [now exists w1, w2 |].
      rewrite length_append, Nat.add_assoc. now exists z.
    + intros (w & t & -> & (w1 & w2 & -> & D1 & D2) & z & Hz).
      exists w1, (w2 ++ t). rewrite append_assoc. split; [reflexivity |].
      split; [exact D1 |].
      apply (IH2 Hs2). exists w2, t. split; [reflexivity |].
      split; [exact D2 |].
      rewrite length_append, Nat.add_assoc in Hz. now exists z.
  - cbn [compile denotes].
    pose proof (IH1 Hs i s caps
                  (fun y => if Nat.eqb (endIndex y) (endIndex (mkState i s caps))
                            then None else c y)) as K.
    cbn [endIndex] in K.
    split.
    + intros [z Hz].
      destruct (compile r1 (mkState i s caps) _) as [z'|] eqn:Hin.
      * destruct (proj1 K (ex_intro _ z' eq_refl))
          as (w & t & -> & D & z'' & Hz'').
        exists w, t. split; [reflexivity |]. split; [now right |].
        destruct (Nat.eqb _ i); [discriminate | now exists z''].
      * exists "", s. cbn [String.length append]. rewrite Nat.add_0_r.
        split; [reflexivity |]. split; [now left | now exists z].
    + intros (w & t & -> & [-> | D] & z & Hz).
      * cbn [String.length append] in *. rewrite Nat.add_0_r in Hz.
        destruct (compile r1 (mkState i t caps) _) as [z'|];
          [now exists z' | now exists z].
      * destruct w as [|a w].
        -- cbn [String.length append] in *. rewrite Nat.add_0_r in Hz.
           destruct (compile r1 (mkState i t caps) _) as [z'|];
             [now exists z' | now exists z].
        -- assert (Hin : exists z',
                     compile r1 (mkState i (String a w ++ t) caps)
                       (fun y => if Nat.eqb (endIndex y) i then None else c y)
                     = Some z').
           { apply K. exists (String a w), t. split; [reflexivity |].
             split; [exact D |]. cbn [endIndex].
             replace (Nat.eqb (i + String.length (String a w)) i) with false.
             - now exists z.
             - symmetry. apply Nat.eqb_neq. cbn [String.length]. lia. }
           destruct Hin as [z' Hz']. cbn [endIndex]. rewrite Hz'.
           now exists z'.
  - cbn [compile denotes rest]. split.
    + intros [z Hz]. destruct s; [| discriminate].
      exists "", "". cbn [String.length append]. rewrite Nat.add_0_r.
      repeat split. now exists z.
    + intros (w & t & -> & [-> ->] & z & Hz).
      cbn [String.length append] in *. rewrite Nat.add_0_r in Hz.
      now exists z.
Qed.

(** A search succeeds exactly when the matcher succeeds at some
    position. *)
Lemma exec_from_search (r : regex) (s : string) :
  forall i,
    (exists z, exec_from r i s = Some z)
    <-> exists pre post,
          s = pre ++ post
          /\ exists z, compile r (mkState (i + String.length pre) post []) Some
                       = Some z.
Proof.
  induction s as [|a t IH]; intro i.
  - cbn [exec_from]. split.
    + intros [z Hz].
      destruct (compile r (mkState i "" []) Some) as [z'|] eqn:Hc;
        [| discriminate].
      exists "", "". cbn [String.length]. rewrite Nat.add_0_r.
      split; [reflexivity | now exists z'].
    + intros (pre & post & Hs & z & Hz).
      destruct pre; [| discriminate]. cbn [append] in Hs. subst post.
      cbn [String.length] in Hz. rewrite Nat.add_0_r in Hz. rewrite Hz.
      now exists z.
  - rewrite exec_from_cons. split.
    + intros [z Hz].
      destruct (compile r (mkState i (String a t) []) Some) as [z'|] eqn:Hc.
      * exists "", (String a t). cbn [String.length]. rewrite Nat.add_0_r.
        split; [reflexivity | now exists z'].
      * apply (ex_intro (fun z => exec_from r (S i) t = Some z) z) in Hz.
        apply IH in Hz as (pre & post & -> & z' & Hz').
        exists (String a pre), post. split; [reflexivity |].
        cbn [String.length]. rewrite Nat.add_succ_r. now exists z'.
    + intros (pre & post & Hs & z & Hz).
      destruct (compile r (mkState i (String a t) []) Some) as [z'|] eqn:Hc;
        [now exists z' |].
      destruct pre as [|b pre].
      * cbn [append String.length] in *. subst post.
        rewrite Nat.add_0_r in Hz. congruence.
      * cbn [append] in Hs. injection Hs as <- ->.
        apply IH. exists pre, post. split; [reflexivity |].
        cbn [String.length] in Hz. rewrite Nat.add_succ_r in Hz.
        now exists z.
Qed.

(** A search for a pattern without repetition and groups: the input
    contains a string the pattern stands for. *)
Lemma match_simple (r : regex) (s : string) :
  simple r = true ->
  (exists m, match_ s r = Some m)
  <-> exists pre w post, s = pre ++ w ++ post /\ denotes r w post.
Proof.
  intro Hs. unfold match_. rewrite exec_from_search. split.
  - intros (pre & post & -> & Hz).
    apply (compile_denotes r Hs) in Hz as (w & t & -> & D & _).
    now exists pre, w, t.
  - intros (pre & w & post & -> & D).
    exists pre, (w ++ post). split; [reflexivity |].
    apply (compile_denotes r Hs). exists w, post.
    split; [reflexivity |]. split; [exact D | now eexists].
Qed.

Lemma denotes_lit (s w t : string) : denotes (lit s) w t <-> w = s.
Proof.
  revert w. induction s as [|a s IH]; intro w; cbn [lit denotes].
  - reflexivity.
  - split.
    + intros (w1 & w2 & -> & -> & D). apply IH in D. now subst.
    + intros ->. exists (String a ""), s. repeat split. now apply IH.
Qed.

Lemma denotes_app_data_dir (w t : string) :
  denotes app_data_dir w t <-> root_token w.
Proof.
  unfold app_data_dir, root_token. cbn [cat denotes]. split.
  - intros (w1 & w2 & -> & -> & w3 & w4 & -> & Ho & w5 & w6 & -> & Hl & Hc).
    apply denotes_lit in Hl. subst w5.
    destruct Ho as [-> | ->]; destruct Hc as [-> | ->]; cbn; auto.
  - intros [-> | [-> | [-> | ->]]].
    + exists "$", "APP_DATA_DIR". repeat split.
      exists "", "APP_DATA_DIR". repeat split; [now left |].
      exists "APP_DATA_DIR", "". repeat split;
        [now apply denotes_lit | now left].
    + exists "$", "{APP_DATA_DIR". repeat split.
      exists "{", "APP_DATA_DIR". repeat split; [now right |].
      exists "APP_DATA_DIR", "". repeat split;
        [now apply denotes_lit | now left].
    + exists "$", "APP_DATA_DIR}". repeat split.
      exists "", "APP_DATA_DIR}". repeat split; [now left |].
      exists "APP_DATA_DIR", "}". repeat split;
        [now apply denotes_lit | now right].
    + exists "$", "{APP_DATA_DIR}". repeat split.
      exists "{", "APP_DATA_DIR}". repeat split; [now right |].
      exists "APP_DATA_DIR", "}". repeat split;
        [now apply denotes_lit | now right].
Qed.

Lemma direct_mount_string_language (volume : string) :
  (exists m, match_ volume direct_mount_string_re = Some m)
  <-> exists pre p post,
        root_token p
        /\ (volume = pre ++ p ++ ":" ++ post
            \/ volume = pre ++ p ++ "/:" ++ post).
Proof.
  rewrite (match_simple direct_mount_string_re volume eq_refl).
  unfold direct_mount_string_re.
  change (cat [app_data_dir; Opt (Char "/"); Char ":"])
    with (Seq app_data_dir (Seq (Opt (Char "/")) (Char ":"))).
  cbn [denotes]. split.
  - intros (pre & w & post & -> & p & w2 & -> & Hp & w3 & w4 & -> & Ho & ->).
    apply denotes_app_data_dir in Hp. exists pre, p, post.
    split; [exact Hp |].
    destruct Ho as [-> | ->]; [left | right];
      now rewrite !append_assoc.
  - intros (pre & p & post & Hp & [-> | ->]).
    + exists pre, (p ++ ":"), post. rewrite append_assoc.
      split; [reflexivity |]. exists p, ":". split; [reflexivity |].
      split; [now apply denotes_app_data_dir |].
      exists "", ":". repeat split. now left.
    + exists pre, (p ++ "/:"), post. rewrite append_assoc.
      split; [reflexivity |]. exists p, "/:". split; [reflexivity |].
      split; [now apply denotes_app_data_dir |].
      exists "/", ":". repeat split. now right.
Qed.

Lemma direct_mount_source_language (source : string) :
  (exists m, match_ source direct_mount_source_re = Some m)
  <-> exists pre p,
        root_token p /\ (source = pre ++ p \/ source = pre ++ p ++ "/").
Proof.
  rewrite (match_simple direct_mount_source_re source eq_refl).
  unfold direct_mount_source_re.
  change (cat [app_data_dir; Opt (Char "/"); Eol])
    with (Seq app_data_dir (Seq (Opt (Char "/")) Eol)).
  cbn [denotes]. split.
  - intros (pre & w & post & -> & p & w2 & -> & Hp & w3 & w4 & -> & Ho
            & -> & ->).
    apply denotes_app_data_dir in Hp. exists pre, p. split; [exact Hp |].
    destruct Ho as [-> | ->]; [left | right];
      now rewrite ?append_assoc, ?append_nil_r.
  - intros (pre & p & Hp & [-> | ->]).
    + exists pre, p, "". rewrite append_nil_r. split; [reflexivity |].
      exists p, "". rewrite append_nil_r. split; [reflexivity |].
      split; [now apply denotes_app_data_dir |].
      exists "", "". repeat split. now left.
    + exists pre, (p ++ "/"), "". rewrite append_nil_r.
      split; [reflexivity |]. exists p, "/". split; [reflexivity |].
      split; [now apply denotes_app_data_dir |].
      exists "/", "". repeat split. now right.
Qed.

Lemma app_data_dir_language (s : string) :
  (exists m, match_ s app_data_dir_re = Some m)
  <-> exists pre post,
        s = pre ++ "$APP_DATA_DIR" ++ post
        \/ s = pre ++ "${APP_DATA_DIR" ++ post.
Proof.
  unfold app_data_dir_re.
  rewrite (match_simple app_data_dir s eq_refl). split.
  - intros (pre & w & post & -> & Hp). apply denotes_app_data_dir in Hp.
    destruct Hp as [-> | [-> | [-> | ->]]].
    + exists pre, post. now left.
    + exists pre, post. now right.
    + exists pre, ("}" ++ post). left. reflexivity.
    + exists pre, ("}" ++ post). right. reflexivity.
  - intros (pre & post & [-> | ->]).
    + exists pre, "$APP_DATA_DIR", post. split; [reflexivity |].
      apply denotes_app_data_dir. now left.
    + exists pre, "${APP_DATA_DIR", post. split; [reflexivity |].
      apply denotes_app_data_dir. right. now left.
Qed.

Lemma check_direct_mount_warned (E : Collaborators)
    (content service : string) (v : value) :
  warned_volume v ->
  exists d,
    check_direct_mount E content service v [] = Normal [d]
    /\ warns_about service v d.
Proof.
  unfold check_direct_mount, warns_about.
  destruct v as [| | | | volume | | props]; cbn [warned_volume];
    try contradiction.
  - intro Hw. apply direct_mount_string_language in Hw as [m ->].
    eexists. repeat split.
  - intros (source & target & pre & p & Hs & Ht & Hp & Hcase).
    cbn [typeof_object HasProperty Get bind entry_text]. rewrite Hs, Ht.
    cbn [bind or_undefined ToString].
    assert (Hm : exists m, match_ source direct_mount_source_re = Some m).
    { apply direct_mount_source_language. now exists pre, p. }
    destruct Hm as [m ->]. eexists. repeat split.
    cbn [title direct_mount_source_result]. now rewrite !append_assoc.
Qed.

Lemma check_direct_mount_only_warned (E : Collaborators)
    (content service : string) (v : value) (c : list LintingResult)
    (d : LintingResult) :
  check_direct_mount E content service v [] = Normal c -> In d c ->
  warned_volume v.
Proof.
  unfold check_direct_mount. intros H Hd.
  destruct v; invert_body H; injection H as <-;
    try (destruct Hd; fail); cbn [warned_volume].
  - apply direct_mount_string_language. eexists. eassumption.
  - match goal with
    | Hs : assoc "source" ?l = Some (VString ?s),
      Ht : assoc "target" ?l = Some ?t,
      Hm : match_ ?s direct_mount_source_re = Some ?m |- _ =>
        destruct (proj1 (direct_mount_source_language s)
                    (ex_intro _ m Hm)) as (pre & p & Hp & Hcase);
        now exists s, t, pre, p
    end.
Qed.

(** What the direct-mount check pushes for one entry. *)
Lemma check_direct_mount_cases (E : Collaborators)
    (content service : string) (v : value) (c : list LintingResult) :
  check_direct_mount E content service v [] = Normal c ->
  (warned_volume v /\ exists d, c = [d] /\ warns_about service v d)
  \/ (~ warned_volume v /\ c = []).
Proof.
  intro H. destruct c as [|d c'].
  - right. split; [| reflexivity]. intro Hw.
    destruct (check_direct_mount_warned E content service v Hw)
      as (d & Hc & _).
    rewrite H in Hc. discriminate.
  - left.
    assert (Hw : warned_volume v).
    { apply (check_direct_mount_only_warned E content service v _ d H).
      now left. }
    split; [exact Hw |].
    destruct (check_direct_mount_warned E content service v Hw)
      as (d' & Hc & Hd').
    rewrite H in Hc. injection Hc as -> ->. now exists d'.
Qed.

Lemma includes_false (files : list string) (p : string) :
  includes files p = false <-> ~ In p files.
Proof.
  split.
  - intros H Hin. apply includes_In in Hin. congruence.
  - intro H. destruct (includes files p) eqn:Hi; [| reflexivity].
    exfalso. apply H. now apply includes_In.
Qed.

(** *** What each iteration contributes *)

Lemma Forall2_weaken {A B : Type} (R1 R2 : A -> B -> Prop)
    (l1 : list A) (l2 : list B) :
  (forall a b, R1 a b -> R2 a b) -> Forall2 R1 l1 l2 -> Forall2 R2 l1 l2.
Proof. intros HR F. induction F; constructor; auto. Qed.

Lemma Forall2_In_l {A B : Type} (R : A -> B -> Prop)
    (l1 : list A) (l2 : list B) (a : A) :
  Forall2 R l1 l2 -> In a l1 -> exists b, In b l2 /\ R a b.
Proof.
  intro F. induction F as [|x y l1 l2 Hxy F IH]; intros Hin; [destruct Hin |].
  destruct Hin as [<- | Hin].
  - exists y. split; [now left | exact Hxy].
  - destruct (IH Hin) as (b & Hb & Hab). exists b. split; [now right | easy].
Qed.

Lemma Forall2_In_r {A B : Type} (R : A -> B -> Prop)
    (l1 : list A) (l2 : list B) (b : B) :
  Forall2 R l1 l2 -> In b l2 -> exists a, In a l1 /\ R a b.
Proof.
  intro F. induction F as [|x y l1 l2 Hxy F IH]; intros Hin; [destruct Hin |].
  destruct Hin as [<- | Hin].
  - exists x. split; [now left | exact Hxy].
  - destruct (IH Hin) as (a & Ha & Hab). exists a. split; [now right | easy].
Qed.

Lemma for_of_per_service (services : list string)
    (body : string -> list LintingResult -> completion (list LintingResult))
    (l : list LintingResult) :
  appends body ->
  for_of services body [] = Normal l ->
  per_service services body (fun _ _ => True) l.
Proof.
  intros HA H. apply (for_of_concat _ HA) in H as (cs & F & ->).
  exists cs. split; [| reflexivity].
  apply (Forall2_weaken _ _ _ _ (fun a b Hab => conj Hab I) F).
Qed.

Lemma for_volumes_per_entry (doc : value) (services : list string)
    (body : string -> value -> list LintingResult
            -> completion (list LintingResult))
    (l : list LintingResult) :
  (forall service, appends (body service)) ->
  for_volumes doc services body [] = Normal l ->
  per_entry doc services body (fun _ _ _ => True) l.
Proof.
  intros HA H. unfold for_volumes in H.
  apply (for_of_concat _ (volumes_body_appends doc body HA)) in H
    as (cs0 & F & ->).
  assert (K : exists css,
             Forall2 (fun service cs =>
                        Forall2 (fun volume c =>
                                   body service volume [] = Normal c /\ True)
                                (volumes_of doc service) cs)
                     services css
             /\ cs0 = map (@concat LintingResult) css).
  { induction F as [|service c services cs0 Hc F IH].
    - exists []. split; [constructor | reflexivity].
    - destruct IH as (css & Fss & ->). cbv beta in Hc.
      destruct (service_volumes doc service) as [volumes|] eqn:Hv;
        cbn [bind] in Hc; [| discriminate].
      destruct volumes as [| | | | | volumes |];
        try (injection Hc as <-; exists ([] :: css);
             split; [| reflexivity];
             constructor; [| exact Fss];
             unfold volumes_of; rewrite Hv; constructor).
      apply (for_of_concat _ (HA service)) in Hc as (cs1 & F1 & ->).
      exists (cs1 :: css). split; [| reflexivity].
      constructor; [| exact Fss].
      unfold volumes_of. rewrite Hv.
      apply (Forall2_weaken _ _ _ _ (fun a b Hab => conj Hab I) F1). }
  destruct K as (css & Fss & ->). now exists css.
Qed.

Lemma per_service_impl (services : list string)
    (body : string -> list LintingResult -> completion (list LintingResult))
    (P Q : string -> list LintingResult -> Prop) (l : list LintingResult) :
  (forall service c, body service [] = Normal c -> P service c ->
                     Q service c) ->
  per_service services body P l -> per_service services body Q l.
Proof.
  intros HPQ (cs & F & ->). exists cs. split; [| reflexivity].
  apply (Forall2_weaken _ _ _ _ (fun a b Hab =>
           conj (proj1 Hab) (HPQ a b (proj1 Hab) (proj2 Hab))) F).
Qed.

Lemma per_entry_impl (doc : value) (services : list string)
    (body : string -> value -> list LintingResult
            -> completion (list LintingResult))
    (P Q : string -> value -> list LintingResult -> Prop)
    (l : list LintingResult) :
  (forall service volume c, body service volume [] = Normal c ->
                            P service volume c -> Q service volume c) ->
  per_entry doc services body P l -> per_entry doc services body Q l.
Proof.
  intros HPQ (css & F & ->). exists css. split; [| reflexivity].
  apply (Forall2_weaken _ _ _ _
           (fun service cs Fs =>
              Forall2_weaken _ _ _ _
                (fun v c Hab =>
                   conj (proj1 Hab)
                        (HPQ service v c (proj1 Hab) (proj2 Hab))) Fs) F).
Qed.

(** Every diagnostic of such a loop is in the contribution of an entry,
    and the contribution of every entry is in what the loop leaves. *)
Lemma per_entry_In (doc : value) (services : list string)
    (body : string -> value -> list LintingResult
            -> completion (list LintingResult))
    (P : string -> value -> list LintingResult -> Prop)
    (l : list LintingResult) :
  per_entry doc services body P l ->
  forall d, In d l ->
    exists service volume c,
      In service services /\ In volume (volumes_of doc service)
      /\ body service volume [] = Normal c /\ P service volume c
      /\ In d c.
Proof.
  intros (css & F & ->) d Hd.
  apply in_concat in Hd as (cc & Hcc & Hd).
  apply in_map_iff in Hcc as (cs & <- & Hcs).
  apply in_concat in Hd as (c & Hc & Hd).
  destruct (Forall2_In_r _ _ _ cs F Hcs) as (service & Hs & Fs).
  destruct (Forall2_In_r _ _ _ c Fs Hc) as (volume & Hv & Hb & HP).
  now exists service, volume, c.
Qed.

Lemma per_entry_each (doc : value) (services : list string)
    (body : string -> value -> list LintingResult
            -> completion (list LintingResult))
    (P : string -> value -> list LintingResult -> Prop)
    (l : list LintingResult) :
  per_entry doc services body P l ->
  forall service volume,
    In service services -> In volume (volumes_of doc service) ->
    exists c, body service volume [] = Normal c /\ P service volume c
              /\ incl c l.
Proof.
  intros (css & F & ->) service volume Hs Hv.
  destruct (Forall2_In_l _ _ _ service F Hs) as (cs & Hcs & Fs).
  destruct (Forall2_In_l _ _ _ volume Fs Hv) as (c & Hc & Hb & HP).
  exists c. repeat split; auto.
  intros d Hd. apply in_concat. exists (concat cs). split.
  - apply in_map_iff. now exists cs.
  - apply in_concat. now exists c.
Qed.

(** The diagnostics of a run on a document that passes the schema, whose
    text parses: sorted by id they are what the loops left. *)
Lemma compose_filtered (E : Collaborators) (content : string)
    (files : list string) (appId : string) (docM doc : value)
    (servicesMocked services : list string) (r : list LintingResult) :
  YAML_parse E true (mockVariables E content) = inr docM ->
  fst (validate E docM) = true ->
  YAML_parse E true content = inr doc ->
  lintDockerComposeYml E content files appId = Normal r ->
  service_names docM = Normal servicesMocked ->
  service_names doc = Normal services ->
  for_of servicesMocked (check_image E content docM) []
  = Normal (filter (has_id "invalid_docker_image_name") r)
  /\ for_volumes doc services (check_direct_mount E content) []
     = Normal (filter (has_id "invalid_app_data_dir_volume_mount") r)
  /\ for_volumes doc services (check_mount_exists E content files appId) []
     = Normal (filter (has_id "missing_file_or_directory") r).
Proof.
  intros HM HV HD H HSM HS.
  destruct (compose_checks E content files appId docM doc r HM HV HD H)
    as (sm & images & booleans & ss & mounts & missing
        & E1 & E2 & E3 & E4 & E5 & E6 & ->).
  rewrite HSM in E1. injection E1 as <-.
  rewrite HS in E4. injection E4 as <-.
  assert (Himages : forall d, In d images ->
                      id d = "invalid_docker_image_name").
  { intros d Hd.
    apply (for_of_In _ (check_image_appends E content docM) _ _ E2) in Hd
      as (service & c & _ & Hc & Hd).
    destruct (check_image_inv E content docM service c d Hc Hd)
      as (image & _ & _ & [[_ ->] | (m & _ & _ & ->)]); reflexivity. }
  assert (Hbooleans : forall d, In d booleans ->
                        id d = "invalid_yaml_boolean_value").
  { intros d Hd.
    apply (for_of_In _ (check_booleans_appends E content docM) _ _ E3) in Hd
      as (service & c & _ & Hc & Hd).
    apply check_booleans_eq in Hc. subst c.
    apply in_flat_map in Hd as (label & _ & Hd).
    unfold boolean_entry_results in Hd.
    apply in_map_iff in Hd as ([key b] & <- & _). reflexivity. }
  assert (Hmounts : forall d, In d mounts ->
                      id d = "invalid_app_data_dir_volume_mount").
  { intros d Hd.
    apply (for_volumes_In doc services _ mounts
             (check_direct_mount_appends E content) E5) in Hd
      as (service & volumes & v & c & _ & _ & _ & Hc & Hd).
    now destruct (check_direct_mount_elem E content service v c d Hc Hd). }
  assert (Hmissing : forall d, In d missing ->
                       id d = "missing_file_or_directory").
  { intros d Hd.
    apply (for_volumes_In doc services _ missing
             (check_mount_exists_appends E content files appId) E6) in Hd
      as (service & volumes & v & c & _ & _ & _ & Hc & Hd).
    destruct (check_mount_exists_elem E content files appId service v c d
                Hc Hd) as (text & sub & -> & _). reflexivity. }
  assert (Hnone : forall name other (l : list LintingResult),
             (forall d, In d l -> id d = other) ->
             String.eqb other name = false ->
             filter (has_id name) l = []).
  { intros name other l Hl Hne. apply filter_none. intros d Hd.
    unfold has_id. now rewrite (Hl d Hd). }
  assert (Hall : forall name (l : list LintingResult),
             (forall d, In d l -> id d = name) ->
             filter (has_id name) l = l).
  { intros name l Hl. apply filter_all. intros d Hd.
    unfold has_id. rewrite (Hl d Hd). apply String.eqb_refl. }
  rewrite !filter_app.
  rewrite (Hall _ images Himages), (Hall _ mounts Hmounts),
    (Hall _ missing Hmissing).
  rewrite (Hnone "invalid_docker_image_name" _ booleans Hbooleans eq_refl),
    (Hnone "invalid_docker_image_name" _ mounts Hmounts eq_refl),
    (Hnone "invalid_docker_image_name" _ missing Hmissing eq_refl),
    (Hnone "invalid_app_data_dir_volume_mount" _ images Himages eq_refl),
    (Hnone "invalid_app_data_dir_volume_mount" _ booleans Hbooleans eq_refl),
    (Hnone "invalid_app_data_dir_volume_mount" _ missing Hmissing eq_refl),
    (Hnone "missing_file_or_directory" _ images Himages eq_refl),
    (Hnone "missing_file_or_directory" _ booleans Hbooleans eq_refl),
    (Hnone "missing_file_or_directory" _ mounts Hmounts eq_refl).
  cbn [app]. rewrite !app_nil_r. now repeat split.
Qed.

Lemma compose_parts (E : Collaborators) (content : string)
    (files : list string) (appId : string) (docM doc : value)
    (servicesMocked services : list string) (r : list LintingResult) :
  YAML_parse E true (mockVariables E content) = inr docM ->
  fst (validate E docM) = true ->
  YAML_parse E true content = inr doc ->
  lintDockerComposeYml E content files appId = Normal r ->
  service_names docM = Normal servicesMocked ->
  service_names doc = Normal services ->
  per_service servicesMocked (check_image E content docM) (fun _ _ => True)
    (filter (has_id "invalid_docker_image_name") r)
  /\ per_entry doc services (check_direct_mount E content)
       (fun _ _ _ => True)
       (filter (has_id "invalid_app_data_dir_volume_mount") r)
  /\ per_entry doc services (check_mount_exists E content files appId)
       (fun _ _ _ => True)
       (filter (has_id "missing_file_or_directory") r).
Proof.
  intros HM HV HD H HSM HS.
  destruct (compose_filtered E content files appId docM doc servicesMocked
              services r HM HV HD H HSM HS) as (E2 & E5 & E6).
  split; [| split].
  - exact (for_of_per_service _ _ _ (check_image_appends E content docM) E2).
  - exact (for_volumes_per_entry doc services _ _
             (check_direct_mount_appends E content) E5).
  - exact (for_volumes_per_entry doc services _ _
             (check_mount_exists_appends E content files appId) E6).
Qed.
(* ================================================================== *)
(** ** The claims *)

(** C1, as the code has it.  On text that does not parse, the store and
    the app validator return exactly one diagnostic, with id
    [invalid_yaml_syntax], severity [error] and neither [line] nor
    [column].  The compose validator parses the text it gets back from
    the variable mocker: when that text does not parse, it returns the
    one diagnostic too.  When the text as written does not parse but the
    mocked text does, it returns the schema's diagnostics if the mocked
    document fails the schema, and the one syntax diagnostic, from its
    second parse, if the document passes and the run returns. *)
Theorem syntax_failure_single_diagnostic (E : Collaborators)
    (content : string) :
  (forall e, YAML_parse E false content = inl e ->
     (exists d, lintUmbrelAppStoreYml E content = [d] /\ is_syntax_error d)
     /\ forall options,
          exists d, lintUmbrelAppYml E content options = [d]
                    /\ is_syntax_error d)
  /\ (forall e files appId,
        YAML_parse E true (mockVariables E content) = inl e ->
        exists d, lintDockerComposeYml E content files appId = Normal [d]
                  /\ is_syntax_error d)
  /\ (forall e docM files appId,
        YAML_parse E true content = inl e ->
        YAML_parse E true (mockVariables E content) = inr docM ->
        (fst (validate E docM) = false ->
         lintDockerComposeYml E content files appId
         = Normal (map (schema_error_result E content)
                     (errors_or_empty (snd (validate E docM)))))
        /\ (fst (validate E docM) = true ->
            forall r,
              lintDockerComposeYml E content files appId = Normal r ->
              r = [compose_syntax_error e]
              /\ is_syntax_error (compose_syntax_error e))).
Proof.
  split; [| split].
  - intros e H. split; [| intro options].
    + unfold lintUmbrelAppStoreYml. rewrite H.
      eexists. split; [reflexivity | repeat split].
    + unfold lintUmbrelAppYml. rewrite H.
      eexists. split; [reflexivity | repeat split].
  - intros e files appId H. unfold lintDockerComposeYml. rewrite H.
    eexists. split; [reflexivity | repeat split].
  - intros e docM files appId HD HM. split.
    + intro HV. now apply compose_schema_errors.
    + intros HV r H. split; [| repeat split].
      exact (reparse_failure_result E content files appId docM e r
               HM HV HD H).
Qed.

Lemma syntax_failure_single_diagnostic_witness :
  (exists d, lintUmbrelAppStoreYml Fixture.nothing_parses "a: [" = [d]
             /\ is_syntax_error d)
  /\ (exists d, lintUmbrelAppYml Fixture.nothing_parses "a: ["
                  (mkOptions None None) = [d]
                /\ is_syntax_error d)
  /\ (exists d, lintDockerComposeYml Fixture.nothing_parses "a: [" [] "app"
                = Normal [d]
                /\ is_syntax_error d)
  /\ returned (lintDockerComposeYml FixtureMore.flow
                 FixtureMore.flow_content [] "app")
     = [compose_syntax_error
          "YAMLParseError: Flow sequence in block collection must be sufficiently indented and end with a ]"].
Proof.
  destruct (syntax_failure_single_diagnostic Fixture.nothing_parses "a: [")
    as (H1 & H2 & _).
  destruct (H1 _ ltac:(run)) as [Hs Ha].
  split; [exact Hs |]. split; [apply Ha |].
  split; [exact (H2 _ [] "app" ltac:(run)) |].
  destruct (syntax_failure_single_diagnostic FixtureMore.flow
              FixtureMore.flow_content) as (_ & _ & H3).
  destruct (H3 _ FixtureMore.flow_doc_mocked [] "app" ltac:(run) ltac:(run))
    as [_ H4].
  exact (proj1 (H4 ltac:(run) _ ltac:(run))).
Defined.

(** C1 as stated fails: this text does not parse as it is written; the
    mocked text parses and fails the schema, and the compose validator
    returns the schema's diagnostic and no [invalid_yaml_syntax]. *)
Lemma unparsable_text_gets_schema_diagnostic :
  (exists e,
      YAML_parse FixtureMore.rejected_flow true
        FixtureMore.rejected_flow_content = inl e)
  /\ lintDockerComposeYml FixtureMore.rejected_flow
       FixtureMore.rejected_flow_content [] "app"
     = Normal [schema_error_result FixtureMore.rejected_flow
                 FixtureMore.rejected_flow_content
                 FixtureMore.rejected_flow_error]
  /\ id (schema_error_result FixtureMore.rejected_flow
           FixtureMore.rejected_flow_content
           FixtureMore.rejected_flow_error)
     = "additionalProperties".
Proof.
  split; [eexists; run |]. split; run.
Qed.

(** C2, as the code has it.  When the compose document fails the schema,
    the result is the schema's diagnostics and no semantic check runs.
    When it passes and the text parses, the four semantic checks all
    run, in order, each on its own, and the result is what they push
    one after the other. *)
Theorem schema_gate_then_all_checks (E : Collaborators) (content : string)
    (files : list string) (appId : string) (docM : value) :
  YAML_parse E true (mockVariables E content) = inr docM ->
  (fst (validate E docM) = false ->
   lintDockerComposeYml E content files appId
   = Normal (map (schema_error_result E content)
               (errors_or_empty (snd (validate E docM)))))
  /\ (fst (validate E docM) = true ->
      forall doc r,
        YAML_parse E true content = inr doc ->
        lintDockerComposeYml E content files appId = Normal r ->
        exists servicesMocked images booleans services mounts missing,
          service_names docM = Normal servicesMocked
          /\ for_of servicesMocked (check_image E content docM) []
             = Normal images
          /\ for_of servicesMocked (check_booleans E content docM) []
             = Normal booleans
          /\ service_names doc = Normal services
          /\ for_volumes doc services (check_direct_mount E content) []
             = Normal mounts
          /\ for_volumes doc services
               (check_mount_exists E content files appId) []
             = Normal missing
          /\ r = (images ++ booleans ++ mounts ++ missing)%list).
Proof.
  intro HM. split.
  - intro HV. now apply compose_schema_errors.
  - intros HV doc r HD H. now apply (compose_checks E content files appId docM doc).
Qed.

Lemma schema_gate_then_all_checks_witness :
  lintDockerComposeYml Fixture.ports_rejected Fixture.ports_content [] "app"
  = Normal [schema_error_result Fixture.ports_rejected Fixture.ports_content
              Fixture.ports_error].
Proof.
  exact (proj1 (schema_gate_then_all_checks Fixture.ports_rejected
                  Fixture.ports_content [] "app" Fixture.ports_doc
                  ltac:(run))
               ltac:(run)).
Defined.

(** C2 as stated fails: the schema rejects this document, its image has
    neither tag nor digest, and the result holds no image diagnostic. *)
Lemma schema_failure_stops_semantic_checks :
  YAML_parse Fixture.ports_rejected true
    (mockVariables Fixture.ports_rejected Fixture.ports_content)
  = inr Fixture.ports_doc
  /\ fst (validate Fixture.ports_rejected Fixture.ports_doc) = false
  /\ (exists d,
        check_image Fixture.ports_rejected Fixture.ports_content
          Fixture.ports_doc "web" [] = Normal [d]
        /\ id d = "invalid_docker_image_name")
  /\ exists r,
       lintDockerComposeYml Fixture.ports_rejected Fixture.ports_content
         [] "app" = Normal r
       /\ forall d, In d r -> id d <> "invalid_docker_image_name".
Proof.
  split; [run |]. split; [run |]. split.
  - exists (image_name_result Fixture.ports_rejected Fixture.ports_content
              "web" "nginx").
    split; run.
  - exists [schema_error_result Fixture.ports_rejected Fixture.ports_content
              Fixture.ports_error].
    split; [run |].
    intros d [<- | []]. discriminate.
Qed.




(** C4, as the code has it.  The components of [/^(.+):(.+)@(.+)$/] are
    greedy: of all ways to read the image as name:tag@digest the match
    takes the longest name, and for that name the longest tag.  For
    [registry:5000/img:latest@sha256:abc] the tag is [latest], and the
    [latest] warning is reported. *)
Theorem image_components_greedy (image : string) (m : MatchState) :
  match_ image image_re = Some m ->
  (exists name tag digest,
      image_shape name tag digest image
      /\ group 1 m = Some name /\ group 2 m = Some tag
      /\ group 3 m = Some digest
      /\ forall name' tag' digest',
           image_shape name' tag' digest' image ->
           String.length name' < String.length name
           \/ (name' = name /\ String.length tag' <= String.length tag))
  /\ (image = "registry:5000/img:latest@sha256:abc" ->
      group 1 m = Some "registry:5000/img" /\ group 2 m = Some "latest"
      /\ forall E content doc service,
           service_field doc service "image" = Normal (VString image) ->
           check_image E content doc service []
           = Normal [image_tag_result E content service (Some "latest")]).
Proof.
  intro H. split; [now apply image_re_some |].
  intros ->. vm_compute in H. injection H as <-.
  split; [reflexivity |]. split; [reflexivity |].
  intros E content doc service Hi. unfold check_image. rewrite Hi.
  cbn [bind truthy String.eqb negb].
  assert (Hm : match_ "registry:5000/img:latest@sha256:abc" image_re
               = Some (mkState 35 ""
                         [(3, "sha256:abc"); (2, "latest");
                          (1, "registry:5000/img")])) by run.
  rewrite Hm. reflexivity.
Qed.

Lemma image_components_greedy_witness :
  exists m,
    match_ "registry:5000/img:latest@sha256:abc" image_re = Some m
    /\ group 1 m = Some "registry:5000/img" /\ group 2 m = Some "latest".
Proof.
  exists (mkState 35 ""
            [(3, "sha256:abc"); (2, "latest"); (1, "registry:5000/img")]).
  split; [run |].
  pose proof (proj2 (image_components_greedy
                       "registry:5000/img:latest@sha256:abc" _ ltac:(run))
                eq_refl) as (H1 & H2 & _).
  split; [exact H1 | exact H2].
Defined.

(** C4 as stated fails: the tag taken from
    [registry:5000/img:latest@sha256:abc] is [latest], not the component
    a non-greedy name would leave. *)
Lemma registry_port_tag_is_latest :
  exists m,
    match_ "registry:5000/img:latest@sha256:abc" image_re = Some m
    /\ group 2 m = Some "latest"
    /\ group 2 m <> Some "5000/img:latest".
Proof.
  exists (mkState 35 ""
            [(3, "sha256:abc"); (2, "latest"); (1, "registry:5000/img")]).
  split; [run |]. split; [reflexivity | discriminate].
Qed.

(** C5, as the code has it.  In a run that passes the schema and
    returns: when the text as written parses too, the
    [invalid_yaml_boolean_value] diagnostics are exactly one for each
    boolean-valued key of the environment, labels and extra_hosts of
    each service, in order; a key of a mapping whose value is a native
    boolean gets an error whose [propertiesPath] ends in that key; and
    values that are strings, in a mapping or in the array form, get
    none.  When the text as written does not parse, the run returns the
    one syntax diagnostic and what the boolean check had found is
    lost. *)
Theorem bare_boolean_diagnostics (E : Collaborators) (content : string)
    (files : list string) (appId : string) (docM : value)
    (servicesMocked : list string) (r : list LintingResult) :
  YAML_parse E true (mockVariables E content) = inr docM ->
  fst (validate E docM) = true ->
  service_names docM = Normal servicesMocked ->
  lintDockerComposeYml E content files appId = Normal r ->
  (forall doc,
      YAML_parse E true content = inr doc ->
      filter (has_id "invalid_yaml_boolean_value") r
      = expected_boolean_results E content docM servicesMocked
      /\ (forall service label props key b,
            In service servicesMocked -> In label boolean_labels ->
            service_field docM service label = Normal (VObject props) ->
            In (key, VBoolean b) props ->
            exists d, In d r /\ id d = "invalid_yaml_boolean_value"
                      /\ severity d = error
                      /\ propertiesPath d
                         = Some ("services." ++ service ++ "." ++ label
                                 ++ "." ++ key))
      /\ ((forall service label key v,
             In service servicesMocked -> In label boolean_labels ->
             In (key, v) (mapping_entries (field_value docM service label)) ->
             exists s, v = VString s) ->
          forall d, In d r -> id d <> "invalid_yaml_boolean_value"))
  /\ (forall e,
        YAML_parse E true content = inl e ->
        r = [compose_syntax_error e]
        /\ forall d, In d r -> id d <> "invalid_yaml_boolean_value").
Proof.
  intros HM HV HSM H. split.
  2:{ intros e HD.
      pose proof (reparse_failure_result E content files appId docM e r
                    HM HV HD H) as ->.
      split; [reflexivity |]. intros d [<- | []]. discriminate. }
  intros doc HD.
  pose proof (compose_boolean_filter E content files appId docM doc
                servicesMocked r HM HV HD HSM H) as HF.
  split; [exact HF |]. split.
  - intros service label props key b Hs Hl Hp Hk.
    exists (boolean_result E content service label key b).
    split; [| repeat split].
    assert (Hin : In (boolean_result E content service label key b)
                    (filter (has_id "invalid_yaml_boolean_value") r)).
    { rewrite HF. unfold expected_boolean_results.
      apply in_flat_map. exists service. split; [exact Hs |].
      apply in_flat_map. exists label. split; [exact Hl |].
      unfold boolean_entry_results, field_value. rewrite Hp.
      cbn [mapping_entries].
      apply (in_map (fun kb => boolean_result E content service label
                                 (fst kb) (snd kb)) _ (key, b)).
      unfold bare_booleans. apply in_flat_map.
      exists (key, VBoolean b). split; [exact Hk | now left]. }
    now apply filter_In in Hin.
  - intros Hall d Hd Hid.
    assert (Hin : In d (filter (has_id "invalid_yaml_boolean_value") r)).
    { apply filter_In. split; [exact Hd |]. unfold has_id.
      now rewrite Hid. }
    rewrite HF in Hin. unfold expected_boolean_results in Hin.
    apply in_flat_map in Hin as (service & Hs & Hin).
    apply in_flat_map in Hin as (label & Hl & Hin).
    unfold boolean_entry_results in Hin.
    apply in_map_iff in Hin as ([key b] & _ & Hkb).
    unfold bare_booleans in Hkb.
    apply in_flat_map in Hkb as ([k v] & Hkv & Hb).
    destruct (Hall service label k v Hs Hl Hkv) as [s ->].
    destruct Hb.
Qed.

Lemma bare_boolean_diagnostics_witness :
  exists r,
    lintDockerComposeYml Fixture.booleans Fixture.booleans_content [] "app"
    = Normal r
    /\ filter (has_id "invalid_yaml_boolean_value") r
       = [boolean_result Fixture.booleans Fixture.booleans_content "web"
            "environment" "DEBUG" true].
Proof.
  exists (returned (lintDockerComposeYml Fixture.booleans
                      Fixture.booleans_content [] "app")).
  split; [run |].
  refine (eq_trans
            (proj1 (proj1 (bare_boolean_diagnostics Fixture.booleans
                             Fixture.booleans_content [] "app"
                             Fixture.booleans_doc ["web"] _
                             ltac:(run) ltac:(run) ltac:(run) ltac:(run))
                      Fixture.booleans_doc ltac:(run))) _).
  run.
Defined.

(** C5 as stated fails: the environment of this service holds a bare
    boolean, for which the boolean check pushes its error; the text as
    written does not parse, and the run returns the syntax diagnostic
    alone. *)
Lemma boolean_lost_on_second_parse :
  YAML_parse FixtureMore.boolean_flow true
    (mockVariables FixtureMore.boolean_flow FixtureMore.boolean_flow_content)
  = inr FixtureMore.boolean_flow_doc_mocked
  /\ fst (validate FixtureMore.boolean_flow
            FixtureMore.boolean_flow_doc_mocked) = true
  /\ check_booleans FixtureMore.boolean_flow FixtureMore.boolean_flow_content
       FixtureMore.boolean_flow_doc_mocked "web" []
     = Normal [boolean_result FixtureMore.boolean_flow
                 FixtureMore.boolean_flow_content "web" "environment"
                 "DEBUG" true]
  /\ exists r,
       lintDockerComposeYml FixtureMore.boolean_flow
         FixtureMore.boolean_flow_content [] "app" = Normal r
       /\ forall d, In d r -> id d <> "invalid_yaml_boolean_value".
Proof.
  split; [run |]. split; [run |]. split; [run |].
  exists [compose_syntax_error
            "YAMLParseError: Flow sequence in block collection must be sufficiently indented and end with a ]"].
  split; [run |]. intros d [<- | []]. discriminate.
Qed.

(** C6, as the code has it.  In a run that passes the schema, whose
    text parses, the warnings [invalid_app_data_dir_volume_mount] are,
    in order, one for each volume entry the direct-mount patterns
    accept, naming that entry in its title and its service in its path,
    and none for any other entry.  The patterns accept a string in
    which the token [$APP_DATA_DIR], with or without either brace, is
    followed by [:] or [/:], anywhere in the string, and a mapping with
    a target whose source ends in the token or in the token and a
    slash.  So every entry whose source is exactly the placeholder
    (braced or not, with or without a trailing slash) gets the warning,
    [${APP_DATA_DIR}/sub:/data] and the like get none, and an entry
    whose source has a subpath gets it all the same when the token
    comes once more after the source, as in
    [${APP_DATA_DIR}/sub:${APP_DATA_DIR}:ro]. *)
Theorem direct_mount_warning (E : Collaborators) (content : string)
    (files : list string) (appId : string) (docM doc : value)
    (services : list string) (r : list LintingResult) :
  YAML_parse E true (mockVariables E content) = inr docM ->
  fst (validate E docM) = true ->
  YAML_parse E true content = inr doc ->
  service_names doc = Normal services ->
  lintDockerComposeYml E content files appId = Normal r ->
  per_entry doc services (check_direct_mount E content)
    (fun service volume c =>
       (warned_volume volume
        /\ exists d, c = [d] /\ warns_about service volume d)
       \/ (~ warned_volume volume /\ c = []))
    (filter (has_id "invalid_app_data_dir_volume_mount") r)
  /\ (forall service volume,
        In service services -> In volume (volumes_of doc service) ->
        warned_volume volume ->
        exists d, In d r /\ warns_about service volume d)
  /\ (forall d, In d r -> id d = "invalid_app_data_dir_volume_mount" ->
        exists service volume,
          In service services /\ In volume (volumes_of doc service)
          /\ warned_volume volume /\ warns_about service volume d)
  /\ (forall volume, direct_mount_entry volume -> warned_volume volume)
  /\ (forall service volume,
        In service services -> In volume (volumes_of doc service) ->
        direct_mount_entry volume ->
        exists d, In d r /\ warns_about service volume d)
  /\ (forall volume, subpath_entry volume -> ~ warned_volume volume)
  /\ direct_mount_entry (VString "${APP_DATA_DIR}:/data")
  /\ subpath_entry (VString "${APP_DATA_DIR}/sub:/data")
  /\ warned_volume (VString "${APP_DATA_DIR}/sub:${APP_DATA_DIR}:ro").
Proof.
  intros HM HV HD HS H.
  destruct (compose_services E content files appId docM doc r HM HV HD H)
    as (servicesMocked & ss & HSM & HS').
  rewrite HS in HS'. injection HS' as <-.
  destruct (compose_parts E content files appId docM doc servicesMocked
              services r HM HV HD H HSM HS) as (_ & Hmounts & _).
  assert (HP : per_entry doc services (check_direct_mount E content)
                 (fun service volume c =>
                    (warned_volume volume
                     /\ exists d, c = [d] /\ warns_about service volume d)
                    \/ (~ warned_volume volume /\ c = []))
                 (filter (has_id "invalid_app_data_dir_volume_mount") r)).
  { apply (per_entry_impl doc services _ _ _ _ (fun service volume c Hc _ =>
             check_direct_mount_cases E content service volume c Hc)
             Hmounts). }
  assert (Hget : forall service volume,
             In service services -> In volume (volumes_of doc service) ->
             warned_volume volume ->
             exists d, In d r /\ warns_about service volume d).
  { intros service volume Hs Hv Hw.
    destruct (per_entry_each doc services _ _ _ HP service volume Hs Hv)
      as (c & _ & [(_ & d & -> & Hd) | (Hn & _)] & Hincl);
      [| contradiction].
    exists d. split; [| exact Hd].
    assert (Hin : In d (filter (has_id "invalid_app_data_dir_volume_mount")
                          r)) by (apply Hincl; now left).
    now apply filter_In in Hin. }
  assert (Hroot : forall volume,
             direct_mount_entry volume -> warned_volume volume).
  { intros volume [(source & target & -> & p & Hp & Hsrc)
                  | (props & source & target & -> & Hso & Hta & p & Hp
                     & Hsrc)].
    - cbn [warned_volume]. exists "", p, target. split.
      + destruct Hp as [-> | ->]; unfold root_token; auto.
      + destruct Hsrc as [-> | ->]; [now left | right].
        now rewrite append_assoc.
    - cbn [warned_volume]. exists source, target, "", p.
      repeat split; auto.
      destruct Hp as [-> | ->]; unfold root_token; auto. }
  split; [exact HP |]. split; [exact Hget |].
  split; [| split; [exact Hroot | split; [| split; [| split; [| split]]]]].
  - intros d Hd Hid.
    assert (Hin : In d (filter (has_id "invalid_app_data_dir_volume_mount")
                          r)).
    { apply filter_In. split; [exact Hd |]. unfold has_id. now rewrite Hid. }
    destruct (per_entry_In doc services _ _ _ HP d Hin)
      as (service & volume & c & Hs & Hv & _
          & [(Hw & d' & -> & Hd') | (_ & ->)] & Hdc); [| destruct Hdc].
    apply in_singleton in Hdc. subst d'.
    now exists service, volume.
  - intros service volume Hs Hv Hdm.
    exact (Hget service volume Hs Hv (Hroot volume Hdm)).
  - intros volume Hsub Hw.
    destruct (check_direct_mount_warned E content "" volume Hw)
      as (d & Hc & _).
    rewrite (check_direct_mount_subpath E content "" volume Hsub) in Hc.
    discriminate.
  - left. exists "${APP_DATA_DIR}", "/data". split; [reflexivity |].
    exists "${APP_DATA_DIR}". split; [now left | now left].
  - left. exists "${APP_DATA_DIR}", "sub", "/data".
    repeat split; try reflexivity; [now left | discriminate].
  - exists "${APP_DATA_DIR}/sub:", "${APP_DATA_DIR}", "ro".
    split; [unfold root_token; auto | now left].
Qed.

Lemma direct_mount_warning_witness :
  exists d,
    In d (returned (lintDockerComposeYml Fixture.volumes
                      Fixture.volumes_content ["app/sub"] "app"))
    /\ warns_about "web" (VString "${APP_DATA_DIR}:/data") d.
Proof.
  pose proof (direct_mount_warning Fixture.volumes Fixture.volumes_content
                ["app/sub"] "app" Fixture.volumes_doc_mocked
                Fixture.volumes_doc ["web"] _
                ltac:(run) ltac:(run) ltac:(run) ltac:(run) ltac:(run))
    as (_ & _ & _ & _ & H & _ & Hdm & _).
  refine (H "web" (VString "${APP_DATA_DIR}:/data") _ _ Hdm).
  - now left.
  - now left.
Defined.

(** C6 as stated fails: the source of this entry has the subpath
    [sub], and the entry gets the warning, for the token that follows
    the source. *)
Lemma subpath_source_warned :
  YAML_parse FixtureMore.repeated true
    (mockVariables FixtureMore.repeated FixtureMore.repeated_content)
  = inr FixtureMore.repeated_doc_mocked
  /\ fst (validate FixtureMore.repeated FixtureMore.repeated_doc_mocked)
     = true
  /\ YAML_parse FixtureMore.repeated true FixtureMore.repeated_content
     = inr FixtureMore.repeated_doc
  /\ volumes_of FixtureMore.repeated_doc "web"
     = [VString "${APP_DATA_DIR}/sub:${APP_DATA_DIR}:ro"]
  /\ lintDockerComposeYml FixtureMore.repeated FixtureMore.repeated_content
       ["app/sub"] "app"
     = Normal [direct_mount_string_result FixtureMore.repeated
                 FixtureMore.repeated_content "web"
                 "${APP_DATA_DIR}/sub:${APP_DATA_DIR}:ro"]
  /\ id (direct_mount_string_result FixtureMore.repeated
           FixtureMore.repeated_content "web"
           "${APP_DATA_DIR}/sub:${APP_DATA_DIR}:ro")
     = "invalid_app_data_dir_volume_mount".
Proof. repeat split; run. Qed.

(** C7, as the code has it.  For a volume entry that is a string
    [placeholder/subpath:target], or a mapping with a target whose
    source is [placeholder/subpath], with a subpath that is not empty
    and holds no line break, the error [missing_file_or_directory] for
    [appId/subpath] is reported exactly when that path is not a member
    of the files; with the path added to the files the run reports it no
    more.  A mapping without a target is passed over by the check,
    whatever its source and the files are. *)
Theorem missing_file_iff (E : Collaborators) (content : string)
    (files : list string) (appId : string) (docM doc : value)
    (services : list string) (r : list LintingResult)
    (service : string) (volumes : list value) (p sub : string) :
  YAML_parse E true (mockVariables E content) = inr docM ->
  fst (validate E docM) = true ->
  YAML_parse E true content = inr doc ->
  service_names doc = Normal services ->
  lintDockerComposeYml E content files appId = Normal r ->
  In service services ->
  service_volumes doc service = Normal (VArray volumes) ->
  placeholder p -> sub <> "" -> no_line_terminator sub = true ->
  (exists target,
      In (VString (p ++ "/" ++ sub ++ ":" ++ target)) volumes
      /\ free_of ":" sub = true)
  \/ (exists props target,
        In (VObject props) volumes
        /\ assoc "source" props = Some (VString (p ++ "/" ++ sub))
        /\ assoc "target" props = Some target) ->
  (missing_reported appId sub r <-> ~ In (appId ++ "/" ++ sub) files)
  /\ (exists r',
         lintDockerComposeYml E content ((appId ++ "/" ++ sub) :: files)
           appId = Normal r'
         /\ ~ missing_reported appId sub r')
  /\ (forall props result,
        assoc "target" props = None ->
        check_mount_exists E content files appId service (VObject props)
          result = Normal result).
Proof.
  intros HM HV HD HS H Hs Hvs Hp Ns Hl Hentry.
  assert (Hiff : forall files0 r0,
             lintDockerComposeYml E content files0 appId = Normal r0 ->
             (missing_reported appId sub r0
              <-> ~ In (appId ++ "/" ++ sub) files0)).
  { intros files0 r0 H0. rewrite <- includes_false. split.
    - intros (d & Hd & Hid & _ & Htitle).
      destruct (compose_services E content files0 appId docM doc r0
                  HM HV HD H0) as (servicesMocked & ss & HSM & HS').
      rewrite HS in HS'. injection HS' as <-.
      destruct (compose_origin E content files0 appId docM doc
                  servicesMocked services r0 HM HV HD H0 HSM HS d Hd)
        as [service' image Hs' Hi Hn Hcase
           | service' label key b Hs' Hlb He ->
           | service' volumes' v c Hs' Hvs' Hv Hc Hdc
           | service' volumes' v c Hs' Hvs' Hv Hc Hdc].
      + destruct Hcase as [[_ ->] | (m & _ & _ & ->)]; discriminate.
      + discriminate.
      + destruct (check_direct_mount_elem E content service' v c d Hc Hdc)
          as [Hid' _]. rewrite Hid' in Hid. discriminate.
      + destruct (check_mount_exists_elem E content files0 appId service' v
                    c d Hc Hdc) as (text & sub' & -> & Hinc).
        cbn [title missing_file_result] in Htitle.
        apply append_inv_head in Htitle. apply append_inv_head in Htitle.
        apply append_inv_head in Htitle.
        apply (append_inv_head "/") in Htitle.
        apply append_inv_tail in Htitle. now subst sub'.
    - intro Hinc.
      assert (Hc : exists text,
                 exists v, In v volumes
                 /\ check_mount_exists E content files0 appId service v []
                    = Normal [missing_file_result E content service appId
                                text sub]).
      { destruct Hentry as [(target & Hv & Hc)
                           | (props & target & Hv & Hso & Hta)].
        - exists (p ++ "/" ++ sub ++ ":" ++ target), 
            (VString (p ++ "/" ++ sub ++ ":" ++ target)).
          split; [exact Hv |].
          rewrite (check_mount_exists_string E content files0 appId service
                     p sub target Hp Ns Hc Hl).
          now rewrite Hinc.
        - exists ((p ++ "/" ++ sub) ++ ":" ++ ToString target),
            (VObject props).
          split; [exact Hv |].
          rewrite (check_mount_exists_object E content files0 appId service
                     p sub props target Hso Hta Hp Ns Hl).
          now rewrite Hinc. }
      destruct Hc as (text & v & Hv & Hc).
      exists (missing_file_result E content service appId text sub).
      split; [| repeat split].
      apply (compose_missing_in E content files0 appId docM doc services r0
               service volumes v _ _ HM HV HD H0 HS Hs Hvs Hv Hc).
      now left. }
  split; [now apply Hiff |]. split.
  - destruct (compose_any_files E content files
                ((appId ++ "/" ++ sub) :: files) appId docM doc r
                HM HV HD H) as [r' H'].
    exists r'. split; [exact H' |].
    intro Hrep. apply (Hiff _ _ H') in Hrep. apply Hrep. now left.
  - intros props result Ht.
    apply (unchecked_volume_skipped E content files appId service
             (VObject props) result).
    now right.
Qed.

Lemma missing_file_iff_witness :
  exists r,
    lintDockerComposeYml Fixture.volumes Fixture.volumes_content [] "app"
    = Normal r
    /\ missing_reported "app" "sub" r.
Proof.
  exists (returned (lintDockerComposeYml Fixture.volumes
                      Fixture.volumes_content [] "app")).
  split; [run |].
  refine (proj2 (proj1 (missing_file_iff Fixture.volumes
                   Fixture.volumes_content [] "app"
                   Fixture.volumes_doc_mocked Fixture.volumes_doc ["web"] _
                   "web" [VString "${APP_DATA_DIR}:/data";
                          VString "${APP_DATA_DIR}/sub:/data"]
                   "${APP_DATA_DIR}" "sub"
                   ltac:(run) ltac:(run) ltac:(run) ltac:(run) ltac:(run)
                   _ ltac:(run) _ _ ltac:(run) _)) (fun Hin => Hin)).
  - now left.
  - now left.
  - discriminate.
  - left. exists "/data". split; [right; now left | run].
Defined.

(** C7 as stated fails.  The source of this entry is the placeholder
    with the subpath [sub], nothing is among the files, and the run
    reports nothing, for the entry is a mapping without a target.  Nor
    does the check report a subpath that holds a line break. *)
Lemma mapping_without_target_skipped :
  YAML_parse FixtureMore.no_target true
    (mockVariables FixtureMore.no_target FixtureMore.no_target_content)
  = inr FixtureMore.no_target_doc_mocked
  /\ fst (validate FixtureMore.no_target FixtureMore.no_target_doc_mocked)
     = true
  /\ YAML_parse FixtureMore.no_target true FixtureMore.no_target_content
     = inr FixtureMore.no_target_doc
  /\ volumes_of FixtureMore.no_target_doc "web"
     = [VObject [("type", VString "bind");
                 ("source", VString "${APP_DATA_DIR}/sub")]]
  /\ ~ In "app/sub" (@nil string)
  /\ lintDockerComposeYml FixtureMore.no_target FixtureMore.no_target_content
       [] "app" = Normal []
  /\ check_mount_exists FixtureMore.no_target FixtureMore.no_target_content
       [] "app" "web"
       (VObject [("type", VString "bind");
                 ("source",
                  VString ("${APP_DATA_DIR}/a"
                           ++ String (ascii_of_nat 10) "b"));
                 ("target", VString "/data")]) []
     = Normal [].
Proof.
  split; [run |]. split; [run |]. split; [run |]. split; [run |].
  split; [intros [] |]. split; run.
Qed.

(** C8, as the code has it.  When the manifest fails the schema, the
    result is the schema's diagnostics.  When it passes, and
    [isNewAppSubmission] is true and a non-empty [pullRequestUrl] is
    given, and the manifest's submission is not exactly that URL, the
    result is exactly one error [invalid_submission_field]; and a
    manifest that passes the schema never gets anything but that one
    diagnostic or nothing. *)
Theorem submission_check (E : Collaborators) (content : string)
    (options : LintUmbrelAppYmlOptions) (rawUmbrelAppYml : value) :
  YAML_parse E false content = inr rawUmbrelAppYml ->
  (forall issues,
      umbrelAppYmlSchema E rawUmbrelAppYml = Zod.SafeParseError issues ->
      lintUmbrelAppYml E content options
      = map (issue_result E content) issues)
  /\ (forall umbrelAppYml,
        umbrelAppYmlSchema E rawUmbrelAppYml
        = Zod.SafeParseSuccess umbrelAppYml ->
        (forall url,
            isNewAppSubmission options = Some true ->
            pullRequestUrl options = Some url -> url <> "" ->
            submission umbrelAppYml <> Some url ->
            exists d, lintUmbrelAppYml E content options = [d]
                      /\ id d = "invalid_submission_field"
                      /\ severity d = error)
        /\ (lintUmbrelAppYml E content options = []
            \/ exists d, lintUmbrelAppYml E content options = [d]
                         /\ id d = "invalid_submission_field"
                         /\ severity d = error)).
Proof.
  intro HP. unfold lintUmbrelAppYml. rewrite HP. split.
  - intros issues ->. reflexivity.
  - intros app ->. split.
    + intros url -> -> Nu Hsub.
      destruct (String.eqb_spec url ""); [contradiction |]. cbn [negb andb].
      assert (Hs : strict_eq (submission app) url = false).
      { destruct (submission app) as [s|]; [| reflexivity].
        cbn [strict_eq]. apply String.eqb_neq. congruence. }
      rewrite Hs. cbn [negb]. eexists. split; [reflexivity | now split].
    + destruct (isNewAppSubmission options) as [[|]|]; try now left.
      destruct (pullRequestUrl options) as [url|]; try now left.
      destruct (negb (String.eqb url "") && _); [right | now left].
      eexists. split; [reflexivity | now split].
Qed.

Lemma submission_check_witness :
  exists d,
    lintUmbrelAppYml Fixture.manifest Fixture.manifest_content
      (mkOptions (Some true)
         (Some "https://github.com/getumbrel/umbrel-apps/pull/2"))
    = [d]
    /\ id d = "invalid_submission_field" /\ severity d = error.
Proof.
  refine (proj1 (proj2 (submission_check Fixture.manifest
                          Fixture.manifest_content
                          (mkOptions (Some true)
                             (Some "https://github.com/getumbrel/umbrel-apps/pull/2"))
                          Fixture.manifest_doc
                          ltac:(run)) Fixture.manifest_app ltac:(run))
            _ eq_refl eq_refl _ _); discriminate.
Defined.

(** C8 as stated fails: the flag is set, a URL is supplied, the manifest
    passes the schema and its submission differs from the URL, and
    nothing is reported, since the URL is the empty string. *)
Lemma empty_pull_request_url_skips_check :
  YAML_parse Fixture.manifest false Fixture.manifest_content
  = inr Fixture.manifest_doc
  /\ umbrelAppYmlSchema Fixture.manifest Fixture.manifest_doc
     = Zod.SafeParseSuccess Fixture.manifest_app
  /\ submission Fixture.manifest_app <> Some ""
  /\ lintUmbrelAppYml Fixture.manifest Fixture.manifest_content
       (mkOptions (Some true) (Some "")) = [].
Proof. repeat split; try run. discriminate. Qed.





(* ================================================================== *)
(** ** Further properties of the code *)

Lemma free_of_middle (ch : ascii) (a b : string) :
  free_of ch (a ++ String ch b) = false.
Proof.
  rewrite free_of_append. cbn [free_of]. rewrite Ascii.eqb_refl.
  cbn [negb andb]. apply andb_false_r.
Qed.

Lemma append_cut (a b c d : string) :
  a ++ b = c ++ d ->
  (exists m, c = a ++ m /\ b = m ++ d) \/ (exists m, a = c ++ m /\ d = m ++ b).
Proof.
  intro H. destruct (Nat.le_ge_cases (String.length a) (String.length c)).
  - left. now apply append_split_le.
  - right. symmetry in H. now apply append_split_le.
Qed.

(** X1.  The image pattern accepts exactly the images that read
    name:tag@digest. *)
Theorem image_pattern_language (image : string) :
  (exists m, match_ image image_re = Some m)
  <-> exists name tag digest, image_shape name tag digest image.
Proof.
  split.
  - intros [m H]. destruct (image_re_some image m H) as (n & t & d & Hs & _).
    now exists n, t, d.
  - intros (n & t & d & Hs).
    destruct (match_ image image_re) as [m|] eqn:H; [now exists m |].
    destruct (image_re_none image H n t d Hs).
Qed.

(** X2.  Where the tag holds no colon and the digest no at-sign, the
    pattern reads the image the one way there is, whatever colons the
    name (a registry with a port) or the digest hold. *)
Theorem image_components_unique (name tag digest image : string) :
  image_shape name tag digest image ->
  free_of ":" tag = true -> free_of "@" digest = true ->
  exists m, match_ image image_re = Some m
            /\ group 1 m = Some name /\ group 2 m = Some tag
            /\ group 3 m = Some digest.
Proof.
  intros Hs Ht Hd.
  destruct (match_ image image_re) as [m|] eqn:Hm;
    [| destruct (image_re_none image Hm name tag digest Hs)].
  exists m. split; [reflexivity |].
  destruct (image_re_some image m Hm)
    as (n & t & d & (E & Nn & Nt & Nd & _) & G1 & G2 & G3 & Hmax).
  destruct Hs as (E' & Nn' & Nt' & Nd' & Hl).
  assert (Hat : forall x y z, digest = x ++ String ":" (y ++ String "@" z)
                              -> False).
  { intros x y z Hx.
    assert (Hx' : digest = (x ++ String ":" y) ++ String "@" z)
      by (rewrite Hx; now rewrite append_assoc).
    rewrite Hx', free_of_middle in Hd. discriminate. }
  assert (Heq : n = name /\ t = tag /\ d = digest).
  { rewrite E' in E.
    destruct (Hmax name tag digest
                (conj E' (conj Nn' (conj Nt' (conj Nd' Hl)))))
      as [L | [En L]].
    - exfalso.
      destruct (append_split_le _ _ _ _ E (Nat.lt_le_incl _ _ L))
        as (m1 & En & E1).
      destruct m1 as [|a m1];
        [rewrite append_nil_r in En; subst n; lia |].
      cbn [append] in E1. injection E1 as _ E1.
      destruct (append_cut _ _ _ _ E1) as [(m2 & _ & E2) | (m2 & Et & E2)];
        destruct m2 as [|b m2]; cbn [append] in E2; try discriminate.
      + injection E2 as _ E2. exact (Hat _ _ _ E2).
      + injection E2 as <- _. rewrite Et, free_of_middle in Ht.
        discriminate.
    - subst n. apply append_inv_head in E.
      cbn [append] in E. injection E as E.
      destruct (append_cut _ _ _ _ E) as [(m2 & Et & E2) | (m2 & Et & E2)];
        destruct m2 as [|b m2]; cbn [append] in E2.
      + rewrite append_nil_r in Et. injection E2 as E2.
        now repeat split.
      + exfalso. injection E2 as _ E2.
        rewrite E2, free_of_middle in Hd. discriminate.
      + rewrite append_nil_r in Et. injection E2 as E2.
        now repeat split.
      + exfalso. rewrite Et, length_append in L.
        cbn [String.length] in L. lia. }
  destruct Heq as (-> & -> & ->). now repeat split.
Qed.

Lemma image_components_unique_witness :
  exists m,
    match_ "registry:5000/img:1.0@sha256:abc" image_re = Some m
    /\ group 1 m = Some "registry:5000/img" /\ group 2 m = Some "1.0"
    /\ group 3 m = Some "sha256:abc".
Proof.
  apply (image_components_unique "registry:5000/img" "1.0" "sha256:abc").
  - repeat split; try discriminate; run.
  - run.
  - run.
Defined.


(** *** [split] and [join] *)

Lemma prefix_append (p s : string) :
  String.prefix p s = true -> exists t, s = p ++ t.
Proof.
  revert s. induction p as [|a p IH]; intros s H.
  - now exists s.
  - destruct s as [|b s]; cbn [String.prefix] in H; [discriminate |].
    destruct (ascii_dec a b) as [<- |]; [| discriminate].
    destruct (IH s H) as [t ->]. now exists t.
Qed.

Lemma split_go_skip (sep : string) (u : string) :
  forall t cur,
    split_go sep (u ++ t) (String.length u) cur = split_go sep t 0 cur.
Proof.
  induction u as [|a u IH]; intros t cur; [reflexivity |].
  cbn [append String.length split_go]. apply IH.
Qed.

Lemma split_go_nonempty (sep s : string) :
  forall skip cur, split_go sep s skip cur <> [].
Proof.
  induction s as [|a t IH]; intros skip cur; cbn [split_go];
    [discriminate |].
  destruct skip; [| apply IH].
  destruct (String.prefix sep (String a t)); [discriminate | apply IH].
Qed.

Lemma concat_cons (sep x : string) (l : list string) :
  l <> [] -> String.concat sep (x :: l) = x ++ sep ++ String.concat sep l.
Proof. destruct l; [congruence | reflexivity]. Qed.

Lemma split_go_join (sep : string) :
  sep <> "" ->
  forall n s cur, String.length s <= n ->
    String.concat sep (split_go sep s 0 cur) = cur ++ s.
Proof.
  intros Nsep n. induction n as [|n IH]; intros s cur L.
  - destruct s; [| simpl in L; lia]. cbn. now rewrite append_nil_r.
  - destruct s as [|a t]; [cbn; now rewrite append_nil_r |].
    cbn [split_go].
    destruct (String.prefix sep (String a t)) eqn:P.
    + apply prefix_append in P as [u Hu].
      destruct sep as [|b sep']; [congruence |].
      cbn [append] in Hu. injection Hu as -> ->.
      cbn [String.length].
      replace (S (String.length sep') - 1) with (String.length sep') by lia.
      rewrite split_go_skip.
      rewrite concat_cons by apply split_go_nonempty.
      rewrite IH.
      * reflexivity.
      * cbn [String.length] in L. rewrite length_append in L. lia.
    + rewrite IH by (cbn [String.length] in L; lia).
      now rewrite append_assoc.
Qed.

Lemma concat_chars (s : string) : String.concat "" (chars s) = s.
Proof.
  induction s as [|a t IH]; [reflexivity |].
  cbn [chars]. destruct t as [|b t]; [reflexivity |].
  rewrite concat_cons by (cbn [chars]; discriminate).
  now rewrite IH.
Qed.

(** [s.split(sep).join(sep)] gives [s] back, whatever the
    separator. *)
Lemma split_join (s sep : string) :
  String.concat sep (split s sep) = s.
Proof.
  unfold split. destruct (String.eqb_spec sep "") as [-> | N].
  - apply concat_chars.
  - now apply (split_go_join sep N (String.length s) s "").
Qed.

Lemma split_go_segment (ch : ascii) (k : string) :
  free_of ch k = true ->
  forall t cur,
    split_go (String ch "") (k ++ t) 0 cur
    = split_go (String ch "") t 0 (cur ++ k).
Proof.
  induction k as [|a k IH]; intros H t cur.
  - cbn [append]. now rewrite append_nil_r.
  - apply free_of_head in H as [Ha Hk].
    cbn [append split_go String.prefix].
    destruct (ascii_dec ch a) as [-> |];
      [rewrite Ascii.eqb_refl in Ha; discriminate |].
    rewrite (IH Hk). now rewrite append_assoc.
Qed.

Lemma split_go_separator (ch : ascii) (t cur : string) :
  split_go (String ch "") (String ch t) 0 cur
  = cur :: split_go (String ch "") t 0 "".
Proof.
  cbn [split_go String.prefix String.length Nat.sub].
  destruct (ascii_dec ch ch); [| congruence].
  now destruct t.
Qed.

Lemma split_pointer (keys : list string) :
  Forall (fun k => free_of "/" k = true) keys ->
  forall cur, free_of "/" cur = true ->
    split_go "/" (cur ++ pointer keys) 0 "" = cur :: keys.
Proof.
  induction 1 as [|k keys Hk Hks IH]; intros cur Hcur.
  - cbn [pointer]. now rewrite (split_go_segment "/"%char cur Hcur "" "").
  - cbn [pointer]. rewrite (split_go_segment "/"%char cur Hcur).
    cbn [append]. rewrite split_go_separator. f_equal.
    exact (IH k Hk).
Qed.

Lemma filter_nonempty (keys : list string) :
  Forall (fun k => k <> "") keys ->
  filter (fun s => negb (String.eqb s "")) keys = keys.
Proof.
  induction 1 as [|k keys Hk Hks IH]; [reflexivity |].
  cbn [filter]. destruct (String.eqb_spec k ""); [contradiction |].
  cbn [negb]. now rewrite IH.
Qed.

(** X4.  The keys of an Ajv instance path.  For keys that are not empty
    and hold no slash, and a path that [path.normalize] leaves as it is,
    on a system whose separator is the slash, the key path of the
    diagnostic is the list of keys and its [propertiesPath] joins them
    with dots. *)
Theorem instance_path_keys (E : Collaborators) (content : string)
    (keys : list string) (err : Ajv.DefinedError) :
  path_sep E = "/" ->
  Ajv.instancePath err = pointer keys ->
  path_normalize E (pointer keys) = pointer keys ->
  Forall (fun k => free_of "/" k = true) keys ->
  Forall (fun k => k <> "") keys ->
  instance_keys E (Ajv.instancePath err) = keys
  /\ propertiesPath (schema_error_result E content err)
     = Some (String.concat "." keys).
Proof.
  intros Hsep Hp Hn Hfree Hne.
  assert (Hk : instance_keys E (Ajv.instancePath err) = keys).
  { unfold instance_keys. rewrite Hp, Hn, Hsep. unfold split.
    cbn [String.eqb Ascii.eqb Bool.eqb].
    change (pointer keys) with ("" ++ pointer keys).
    rewrite (split_pointer keys Hfree "" eq_refl).
    cbn [filter String.eqb negb]. now apply filter_nonempty. }
  split; [exact Hk |].
  unfold schema_error_result. cbn [propertiesPath]. now rewrite Hk.
Qed.

Lemma instance_path_keys_witness :
  propertiesPath
    (schema_error_result Fixture.ports_rejected Fixture.ports_content
       Fixture.ports_error)
  = Some "services.web.ports".
Proof.
  exact (proj2 (instance_path_keys Fixture.ports_rejected
                  Fixture.ports_content ["services"; "web"; "ports"]
                  Fixture.ports_error eq_refl eq_refl eq_refl
                  ltac:(repeat constructor)
                  ltac:(repeat constructor; discriminate))).
Defined.


(** *** The direct-mount message *)

Lemma split_source_target (source target tail : string) :
  free_of ":" source = true -> free_of ":" target = true ->
  tail = "" \/ (exists mode, tail = ":" ++ mode) ->
  nth 1 (split (source ++ ":" ++ target ++ tail) ":") "" = target.
Proof.
  intros Hs Ht Htail. unfold split. cbn [String.eqb Ascii.eqb Bool.eqb].
  rewrite (split_go_segment ":"%char source Hs).
  cbn [append]. rewrite split_go_separator.
  rewrite (split_go_segment ":"%char target Ht).
  destruct Htail as [-> | [mode ->]].
  - reflexivity.
  - cbn [append]. now rewrite split_go_separator.
Qed.

(** X5.  The warning for a direct mount [source:target] or
    [source:target:mode] proposes the mount
    [${APP_DATA_DIR}/data<target>]. *)
Theorem direct_mount_suggestion (E : Collaborators)
    (content service source target tail : string) :
  app_data_root source -> free_of ":" target = true ->
  tail = "" \/ (exists mode, tail = ":" ++ mode) ->
  exists d,
    check_direct_mount E content service
      (VString (source ++ ":" ++ target ++ tail)) [] = Normal [d]
    /\ message d
       = "Volumes should not be mounted directly into the "
           ++ dq ++ "${APP_DATA_DIR}" ++ dq
           ++ " directory! Please use a subdirectory like "
           ++ dq ++ "${APP_DATA_DIR}/data" ++ target ++ dq ++ " instead.".
Proof.
  intros Hr Ht Htail. eexists.
  split; [apply (check_direct_mount_string E content service source
                   (target ++ tail) Hr) |].
  cbn [message direct_mount_string_result].
  rewrite split_source_target; auto.
  destruct Hr as (p & [-> | ->] & [-> | ->]); reflexivity.
Qed.

Lemma direct_mount_suggestion_witness :
  exists d,
    check_direct_mount Fixture.volumes Fixture.volumes_content "web"
      (VString "${APP_DATA_DIR}:/data:ro") [] = Normal [d]
    /\ message d
       = "Volumes should not be mounted directly into the "
           ++ dq ++ "${APP_DATA_DIR}" ++ dq
           ++ " directory! Please use a subdirectory like "
           ++ dq ++ "${APP_DATA_DIR}/data/data" ++ dq ++ " instead.".
Proof.
  apply (direct_mount_suggestion Fixture.volumes Fixture.volumes_content
           "web" "${APP_DATA_DIR}" "/data" ":ro").
  - exists "${APP_DATA_DIR}". split; now left.
  - reflexivity.
  - right. now exists "ro".
Defined.

(** *** The manifest validators *)

(** X6.  The store validator reports nothing exactly when the text parses
    and the schema accepts the document (or fails without an issue). *)
Theorem store_clean_iff (E : Collaborators) (content : string) :
  lintUmbrelAppStoreYml E content = []
  <-> exists doc,
        YAML_parse E false content = inr doc
        /\ ((exists data,
               umbrelAppStoreYmlSchema E doc = Zod.SafeParseSuccess data)
            \/ umbrelAppStoreYmlSchema E doc = Zod.SafeParseError []).
Proof.
  unfold lintUmbrelAppStoreYml. split.
  - destruct (YAML_parse E false content) as [e | doc]; [discriminate |].
    intro H. exists doc. split; [reflexivity |].
    destruct (umbrelAppStoreYmlSchema E doc) as [data | issues].
    + left. now exists data.
    + right. destruct issues; [reflexivity | discriminate].
  - intros (doc & -> & [[data ->] | ->]); reflexivity.
Qed.

(** X7.  On a manifest that passes the schema the app validator reports
    nothing exactly when the submission check is off (the flag is not
    true, or no URL or an empty one is given) or the manifest's
    submission is the given URL. *)
Theorem submission_check_passes (E : Collaborators) (content : string)
    (options : LintUmbrelAppYmlOptions) (rawUmbrelAppYml : value)
    (umbrelAppYml : UmbrelApp) :
  YAML_parse E false content = inr rawUmbrelAppYml ->
  umbrelAppYmlSchema E rawUmbrelAppYml = Zod.SafeParseSuccess umbrelAppYml ->
  (lintUmbrelAppYml E content options = []
   <-> (isNewAppSubmission options <> Some true
        \/ pullRequestUrl options = None
        \/ pullRequestUrl options = Some ""
        \/ submission umbrelAppYml = pullRequestUrl options)).
Proof.
  intros HP HS. unfold lintUmbrelAppYml. rewrite HP, HS.
  destruct (isNewAppSubmission options) as [[|]|].
  2, 3: split; [intros _; left; discriminate | reflexivity].
  destruct (pullRequestUrl options) as [url|].
  2: split; [intros _; right; now left | reflexivity].
  destruct (String.eqb_spec url "") as [-> | Nu]; cbn [negb andb].
  - split; [intros _; right; right; now left | reflexivity].
  - destruct (submission umbrelAppYml) as [s|]; cbn [strict_eq].
    + destruct (String.eqb_spec s url) as [-> | Ns]; cbn [negb].
      * split; [intros _; right; right; now right | reflexivity].
      * split; [discriminate |].
        intros [H | [H | [H | H]]]; congruence.
    + cbn [negb]. split; [discriminate |].
      intros [H | [H | [H | H]]]; congruence.
Qed.

Lemma submission_check_passes_witness :
  lintUmbrelAppYml Fixture.manifest Fixture.manifest_content
    (mkOptions (Some true)
       (Some "https://github.com/getumbrel/umbrel-apps/pull/1")) = [].
Proof.
  apply (proj2 (submission_check_passes Fixture.manifest
                  Fixture.manifest_content _ Fixture.manifest_doc
                  Fixture.manifest_app ltac:(run) ltac:(run))).
  right. right. right. reflexivity.
Defined.

(** *** The official app store's app ids *)

(** X8.  An app id is the name of a directory entry that does not start
    with a dot, and every such name is an app id: plain files and hidden
    directories such as [.git] never are; names that are distinct stay
    distinct. *)
Theorem official_app_ids (files : list Fs.Dirent) :
  (forall id0,
      In id0 (getAllOfficialAppStoreAppIds files)
      <-> exists file, In file files /\ Fs.name file = id0
                       /\ Fs.isDirectory file = true
                       /\ startsWith id0 "." = false)
  /\ (NoDup (map Fs.name files) ->
      NoDup (getAllOfficialAppStoreAppIds files))
  /\ List.length (getAllOfficialAppStoreAppIds files) <= List.length files.
Proof.
  unfold getAllOfficialAppStoreAppIds. split; [| split].
  - intro id0. rewrite in_map_iff. split.
    + intros (file & <- & Hf). apply filter_In in Hf as [Hin Hc].
      apply andb_true_iff in Hc as [Hd Hn]. apply negb_true_iff in Hn.
      now exists file.
    + intros (file & Hin & <- & Hd & Hn). exists file.
      split; [reflexivity |]. apply filter_In. split; [exact Hin |].
      now rewrite Hd, Hn.
  - induction files as [|f t IH]; intro H; [constructor |].
    cbn [map] in H. inversion H as [| ? ? Hnot Ht]; subst.
    cbn [filter]. destruct (_ && _); [| now apply IH].
    cbn [map]. constructor; [| now apply IH].
    intro Hin. apply Hnot. apply in_map_iff in Hin as (g & Hg & Hin).
    apply filter_In in Hin as [Hin _]. apply in_map_iff. now exists g.
  - rewrite length_map. apply filter_length_le.
Qed.

Lemma official_app_ids_witness :
  NoDup (getAllOfficialAppStoreAppIds
           [Fs.mkDirent "bitcoin" true; Fs.mkDirent ".git" true;
            Fs.mkDirent "README.md" false; Fs.mkDirent "nextcloud" true]).
Proof.
  apply (proj1 (proj2 (official_app_ids
                         [Fs.mkDirent "bitcoin" true; Fs.mkDirent ".git" true;
                          Fs.mkDirent "README.md" false;
                          Fs.mkDirent "nextcloud" true]))).
  cbn [map Fs.name].
  repeat constructor; cbn [In]; intuition discriminate.
Defined.

(** *** Runs of the compose validator *)

(** X9.  When the mocked text parses and passes the schema but the text
    as written does not parse, a run that returns gives the single
    syntax diagnostic of that failure: what the image and boolean checks
    had found is dropped. *)
Theorem reparse_failure_drops_findings (E : Collaborators)
    (content : string) (files : list string) (appId : string)
    (docM : value) (e : string) (r : list LintingResult) :
  YAML_parse E true (mockVariables E content) = inr docM ->
  fst (validate E docM) = true ->
  YAML_parse E true content = inl e ->
  lintDockerComposeYml E content files appId = Normal r ->
  r = [compose_syntax_error e].
Proof. exact (reparse_failure_result E content files appId docM e r). Qed.

Lemma reparse_failure_drops_findings_witness :
  (exists d,
      check_image FixtureMore.flow FixtureMore.flow_content
        FixtureMore.flow_doc_mocked "web" [] = Normal [d]
      /\ id d = "invalid_docker_image_name")
  /\ returned (lintDockerComposeYml FixtureMore.flow
                 FixtureMore.flow_content [] "app")
     = [compose_syntax_error
          "YAMLParseError: Flow sequence in block collection must be sufficiently indented and end with a ]"].
Proof.
  split.
  - exists (image_name_result FixtureMore.flow FixtureMore.flow_content
              "web" "nginx").
    split; run.
  - apply (reparse_failure_drops_findings FixtureMore.flow
             FixtureMore.flow_content [] "app" FixtureMore.flow_doc_mocked);
      run.
Defined.

(** X10.  A run on a document that passes the schema never reports an id
    other than the five the compose validator has of its own; the ids
    of the schema engines and [invalid_submission_field] do not
    occur. *)
Theorem compose_ids_closed (E : Collaborators) (content : string)
    (files : list string) (appId : string) (docM : value)
    (r : list LintingResult) :
  YAML_parse E true (mockVariables E content) = inr docM ->
  fst (validate E docM) = true ->
  lintDockerComposeYml E content files appId = Normal r ->
  forall d, In d r -> In (id d) compose_ids.
Proof.
  intros HM HV H d Hd. unfold compose_ids.
  destruct (YAML_parse E true content) as [e | doc] eqn:HD.
  - rewrite (reparse_failure_result E content files appId docM e r
               HM HV HD H) in Hd.
    destruct Hd as [<- | []]. now left.
  - destruct (compose_services E content files appId docM doc r HM HV HD H)
      as (servicesMocked & services & HSM & HS).
    destruct (compose_origin E content files appId docM doc servicesMocked
                services r HM HV HD H HSM HS d Hd)
      as [service image Hs Hi Hn Hcase
         | service label key b Hs Hl He ->
         | service volumes v c Hs Hvs Hv Hc Hdc
         | service volumes v c Hs Hvs Hv Hc Hdc].
    + destruct Hcase as [[_ ->] | (m & _ & _ & ->)]; right; now left.
    + right. right. now left.
    + destruct (check_direct_mount_elem E content service v c d Hc Hdc)
        as [-> _]. right. right. right. now left.
    + destruct (check_mount_exists_elem E content files appId service v c d
                  Hc Hdc) as (text & sub & -> & _).
      right. right. right. right. now left.
Qed.

Lemma compose_ids_closed_witness :
  Forall (fun d => In (id d) compose_ids)
    (returned (lintDockerComposeYml Fixture.volumes
                 Fixture.volumes_content [] "app")).
Proof.
  apply Forall_forall.
  apply (compose_ids_closed Fixture.volumes Fixture.volumes_content [] "app"
           Fixture.volumes_doc_mocked); run.
Defined.

Lemma check_mount_exists_mono (E : Collaborators) (content : string)
    (files files' : list string) (appId service : string) (v : value)
    (c c' : list LintingResult) :
  (forall f, In f files -> In f files') ->
  check_mount_exists E content files appId service v [] = Normal c ->
  check_mount_exists E content files' appId service v [] = Normal c' ->
  incl c' c.
Proof.
  intros Hinc H H'. unfold check_mount_exists in H, H'.
  destruct v; invert_body H; injection H as <-; invert_body H';
    injection H' as <-; try apply incl_refl; try apply incl_nil_l;
    exfalso;
    match goal with
    | H1 : negb (includes files ?p) = false,
      H2 : negb (includes files' ?p) = true |- _ =>
        apply negb_false_iff in H1; apply negb_true_iff in H2;
        apply includes_In in H1; apply Hinc in H1;
        apply includes_In in H1; congruence
    end.
Qed.

(** X11.  The files only ever take diagnostics away.  With more files a
    run still returns, and everything it reports was reported with
    fewer. *)
Theorem more_files_fewer_diagnostics (E : Collaborators) (content : string)
    (files files' : list string) (appId : string) (docM doc : value)
    (r : list LintingResult) :
  YAML_parse E true (mockVariables E content) = inr docM ->
  fst (validate E docM) = true ->
  YAML_parse E true content = inr doc ->
  lintDockerComposeYml E content files appId = Normal r ->
  (forall f, In f files -> In f files') ->
  exists r', lintDockerComposeYml E content files' appId = Normal r'
             /\ incl r' r.
Proof.
  intros HM HV HD H Hinc.
  destruct (compose_any_files E content files files' appId docM doc r
              HM HV HD H) as [r' H'].
  exists r'. split; [exact H' |].
  destruct (compose_checks E content files appId docM doc r HM HV HD H)
    as (sm & images & booleans & ss & mounts & missing
        & E1 & E2 & E3 & E4 & E5 & E6 & ->).
  destruct (compose_checks E content files' appId docM doc r' HM HV HD H')
    as (sm' & images' & booleans' & ss' & mounts' & missing'
        & E1' & E2' & E3' & E4' & E5' & E6' & ->).
  rewrite E1 in E1'. injection E1' as <-.
  rewrite E4 in E4'. injection E4' as <-.
  rewrite E2 in E2'. injection E2' as <-.
  rewrite E3 in E3'. injection E3' as <-.
  rewrite E5 in E5'. injection E5' as <-.
  repeat (apply incl_app_app; [apply incl_refl |]).
  intros d Hd.
  apply (for_volumes_In doc ss _ missing'
           (check_mount_exists_appends E content files' appId) E6') in Hd
    as (service & volumes & v & c' & Hs & Hvs & Hv & Hc' & Hd).
  destruct (for_volumes_any_files E content files' files appId doc ss
              missing' E6') as [missing0 E0].
  rewrite E6 in E0. injection E0 as <-.
  assert (Hc : exists c,
             check_mount_exists E content files appId service v []
             = Normal c).
  { destruct (check_mount_exists_any_files E content files' files appId
                service v c' Hc') as [c Hc]. now exists c. }
  destruct Hc as [c Hc].
  apply (for_volumes_In doc ss _ missing
           (check_mount_exists_appends E content files appId) E6).
  exists service, volumes, v, c. repeat split; auto.
  now apply (check_mount_exists_mono E content files files' appId service v
               c c' Hinc Hc Hc').
Qed.

Lemma more_files_fewer_diagnostics_witness :
  exists r',
    lintDockerComposeYml Fixture.volumes Fixture.volumes_content ["app/sub"]
      "app" = Normal r'
    /\ incl r' (returned (lintDockerComposeYml Fixture.volumes
                            Fixture.volumes_content [] "app")).
Proof.
  apply (more_files_fewer_diagnostics Fixture.volumes Fixture.volumes_content
           [] ["app/sub"] "app" Fixture.volumes_doc_mocked
           Fixture.volumes_doc); try run.
  intros f [].
Defined.

(** X12.  The files and the app id bear on the [missing_file_or_directory]
    diagnostics only: two runs on the same text agree on all the
    others, in the same order. *)
Theorem files_only_affect_missing (E : Collaborators) (content : string)
    (files files' : list string) (appId appId' : string) (docM doc : value)
    (r r' : list LintingResult) :
  YAML_parse E true (mockVariables E content) = inr docM ->
  fst (validate E docM) = true ->
  YAML_parse E true content = inr doc ->
  lintDockerComposeYml E content files appId = Normal r ->
  lintDockerComposeYml E content files' appId' = Normal r' ->
  filter (fun d => negb (has_id "missing_file_or_directory" d)) r
  = filter (fun d => negb (has_id "missing_file_or_directory" d)) r'.
Proof.
  intros HM HV HD H H'.
  destruct (compose_checks E content files appId docM doc r HM HV HD H)
    as (sm & images & booleans & ss & mounts & missing
        & E1 & E2 & E3 & E4 & E5 & E6 & ->).
  destruct (compose_checks E content files' appId' docM doc r' HM HV HD H')
    as (sm' & images' & booleans' & ss' & mounts' & missing'
        & E1' & E2' & E3' & E4' & E5' & E6' & ->).
  rewrite E1 in E1'. injection E1' as <-.
  rewrite E4 in E4'. injection E4' as <-.
  rewrite E2 in E2'. injection E2' as <-.
  rewrite E3 in E3'. injection E3' as <-.
  rewrite E5 in E5'. injection E5' as <-.
  rewrite !filter_app. do 3 f_equal.
  rewrite (filter_none _ missing), (filter_none _ missing'); [reflexivity | |].
  - intros d Hd.
    apply (for_volumes_In doc ss _ missing'
             (check_mount_exists_appends E content files' appId') E6') in Hd
      as (service & volumes & v & c & _ & _ & _ & Hc & Hd).
    destruct (check_mount_exists_elem E content files' appId' service v c d
                Hc Hd) as (text & sub & -> & _). reflexivity.
  - intros d Hd.
    apply (for_volumes_In doc ss _ missing
             (check_mount_exists_appends E content files appId) E6) in Hd
      as (service & volumes & v & c & _ & _ & _ & Hc & Hd).
    destruct (check_mount_exists_elem E content files appId service v c d
                Hc Hd) as (text & sub & -> & _). reflexivity.
Qed.

Lemma files_only_affect_missing_witness :
  filter (fun d => negb (has_id "missing_file_or_directory" d))
    (returned (lintDockerComposeYml Fixture.volumes Fixture.volumes_content
                 [] "app"))
  = filter (fun d => negb (has_id "missing_file_or_directory" d))
      (returned (lintDockerComposeYml Fixture.volumes
                   Fixture.volumes_content ["other/sub"] "other")).
Proof.
  apply (files_only_affect_missing Fixture.volumes Fixture.volumes_content
           [] ["other/sub"] "app" "other" Fixture.volumes_doc_mocked
           Fixture.volumes_doc); run.
Defined.

(** *** Paths and positions *)

Lemma check_direct_mount_positioned (E : Collaborators)
    (content service : string) (v : value) (c : list LintingResult)
    (d : LintingResult) :
  check_direct_mount E content service v [] = Normal c -> In d c ->
  positioned E content d.
Proof.
  unfold check_direct_mount. intros H Hd.
  destruct v; invert_body H; injection H as <-;
    try (destruct Hd; fail); apply in_singleton in Hd; subst d;
    right; exists [Key "services"; Key service; Key "volumes"];
    repeat split.
Qed.

Lemma origin_positioned (E : Collaborators) (content : string)
    (files : list string) (appId : string) (docM doc : value)
    (servicesMocked services : list string) (d : LintingResult) :
  origin E content files appId docM doc servicesMocked services d ->
  positioned E content d.
Proof.
  intros [service image Hs Hi Hn Hcase
         | service label key b Hs Hl He ->
         | service volumes v c Hs Hvs Hv Hc Hdc
         | service volumes v c Hs Hvs Hv Hc Hdc].
  - right. exists [Key "services"; Key service; Key "image"].
    destruct Hcase as [[_ ->] | (m & _ & _ & ->)]; repeat split.
  - right. exists [Key "services"; Key service; Key label; Key key].
    repeat split.
  - exact (check_direct_mount_positioned E content service v c d Hc Hdc).
  - destruct (check_mount_exists_elem E content files appId service v c d
                Hc Hdc) as (text & sub & -> & _).
    right. exists [Key "services"; Key service; Key "volumes"].
    repeat split.
Qed.

Lemma join_keys (keys : list string) :
  join_path (map Key keys) = String.concat "." keys.
Proof. unfold join_path. now rewrite map_map, map_id. Qed.

(** X13.  Whatever a run of the compose validator returns, on any text, a
    diagnostic either has no path and no position (the syntax
    diagnostic) or its path is the dot-joined key path that its line and
    column were resolved for, and they were resolved in the text as
    written, not in the mocked one. *)
Theorem compose_positions (E : Collaborators) (content : string)
    (files : list string) (appId : string) (r : list LintingResult) :
  lintDockerComposeYml E content files appId = Normal r ->
  forall d, In d r -> positioned E content d.
Proof.
  intros H d Hd.
  destruct (YAML_parse E true (mockVariables E content)) as [e | docM] eqn:HM.
  - unfold lintDockerComposeYml in H. rewrite HM in H.
    injection H as <-. apply in_singleton in Hd. subst d.
    left. repeat split.
  - destruct (fst (validate E docM)) eqn:HV.
    + destruct (YAML_parse E true content) as [e | doc] eqn:HD.
      * rewrite (reparse_failure_result E content files appId docM e r
                   HM HV HD H) in Hd.
        apply in_singleton in Hd. subst d. left. repeat split.
      * destruct (compose_services E content files appId docM doc r
                    HM HV HD H) as (servicesMocked & services & HSM & HS).
        apply (origin_positioned E content files appId docM doc
                 servicesMocked services).
        exact (compose_origin E content files appId docM doc servicesMocked
                 services r HM HV HD H HSM HS d Hd).
    + rewrite (compose_schema_errors E content files appId docM HM HV) in H.
      injection H as <-. apply in_map_iff in Hd as (err & <- & _).
      right. exists (map Key (instance_keys E (Ajv.instancePath err))).
      rewrite join_keys. repeat split.
Qed.

Lemma compose_positions_witness :
  Forall (positioned Fixture.volumes Fixture.volumes_content)
    (returned (lintDockerComposeYml Fixture.volumes
                 Fixture.volumes_content [] "app")).
Proof.
  apply Forall_forall.
  apply (compose_positions Fixture.volumes Fixture.volumes_content [] "app").
  run.
Defined.

(** X14.  The two manifest validators keep paths and positions
    together, on any text and with any options: the syntax diagnostic
    and the submission diagnostic carry neither path nor position, and a
    schema issue carries the joined path of the issue and the position
    of that path in the text. *)
Theorem manifest_positions (E : Collaborators) (content : string)
    (options : LintUmbrelAppYmlOptions) (d : LintingResult) :
  (In d (lintUmbrelAppStoreYml E content) -> positioned E content d)
  /\ (In d (lintUmbrelAppYml E content options) -> positioned E content d).
Proof.
  assert (Hissue : forall issues,
             In d (map (issue_result E content) issues) ->
             positioned E content d).
  { intros issues Hd. apply in_map_iff in Hd as (issue & <- & _).
    right. exists (Zod.path issue). repeat split. }
  split; intro Hd.
  - unfold lintUmbrelAppStoreYml in Hd.
    destruct (YAML_parse E false content).
    + apply in_singleton in Hd. subst d. left. repeat split.
    + destruct (umbrelAppStoreYmlSchema E v);
        [destruct Hd | now apply (Hissue issues)].
  - unfold lintUmbrelAppYml in Hd.
    destruct (YAML_parse E false content).
    + apply in_singleton in Hd. subst d. left. repeat split.
    + destruct (umbrelAppYmlSchema E v); [| now apply (Hissue issues)].
      destruct (isNewAppSubmission options) as [[|]|];
        try (destruct Hd; fail).
      destruct (pullRequestUrl options); try (destruct Hd; fail).
      destruct (_ && _); [| destruct Hd].
      apply in_singleton in Hd. subst d. left. repeat split.
Qed.

(** *** How many diagnostics a run can give *)

Section Bounds.

Context {A : Type}.
Variable body : A -> list LintingResult -> completion (list LintingResult).
Hypothesis body_appends : appends body.
Variable weight : A -> nat.

Lemma for_of_length (l : list A) :
  (forall x c, In x l -> body x [] = Normal c -> List.length c <= weight x) ->
  forall r, for_of l body [] = Normal r ->
    List.length r <= list_sum (map weight l).
Proof.
  induction l as [|x t IH]; intros W r H.
  - injection H as <-. apply Nat.le_refl.
  - rewrite (for_of_cons _ body_appends) in H.
    destruct (body x []) as [c|] eqn:Hx; cbn [bind] in H; [| discriminate].
    destruct (for_of t body []) as [ct|] eqn:Ht; cbn [bind] in H;
      [| discriminate].
    injection H as <-. rewrite length_app. cbn [map list_sum].
    apply Nat.add_le_mono.
    + now apply (W x c (or_introl eq_refl)).
    + apply IH; [| reflexivity]. intros y cy Hy. apply W. now right.
Qed.

End Bounds.

Lemma list_sum_ones {A : Type} (l : list A) :
  list_sum (map (fun _ => 1) l) = List.length l.
Proof.
  induction l as [|x t IH]; [reflexivity |].
  change (S (list_sum (map (fun _ => 1) t)) = S (List.length t)).
  now f_equal.
Qed.

Lemma check_image_length (E : Collaborators) (content : string)
    (doc : value) (service : string) (c : list LintingResult) :
  check_image E content doc service [] = Normal c -> List.length c <= 1.
Proof.
  unfold check_image. intro H.
  destruct (service_field doc service "image") as [image|]; cbn [bind] in H;
    [| discriminate].
  invert_body H; injection H as <-; cbn; lia.
Qed.

Lemma check_direct_mount_length (E : Collaborators)
    (content service : string) (v : value) (c : list LintingResult) :
  check_direct_mount E content service v [] = Normal c ->
  List.length c <= 1.
Proof.
  unfold check_direct_mount. intro H.
  destruct v; invert_body H; injection H as <-; cbn; lia.
Qed.

Lemma check_mount_exists_length (E : Collaborators) (content : string)
    (files : list string) (appId service : string) (v : value)
    (c : list LintingResult) :
  check_mount_exists E content files appId service v [] = Normal c ->
  List.length c <= 1.
Proof.
  unfold check_mount_exists. intro H.
  destruct v; invert_body H; injection H as <-; cbn; lia.
Qed.

Lemma for_volumes_length (doc : value) (services : list string)
    (body : string -> value -> list LintingResult
            -> completion (list LintingResult))
    (r : list LintingResult) :
  (forall service, appends (body service)) ->
  (forall service v c, body service v [] = Normal c -> List.length c <= 1) ->
  for_volumes doc services body [] = Normal r ->
  List.length r <= volume_count doc services.
Proof.
  intros HA H1 H. unfold for_volumes in H. unfold volume_count.
  apply (for_of_length _ (volumes_body_appends doc body HA) _ services);
    [| exact H].
  intros service c _ Hc.
  destruct (service_volumes doc service) as [volumes|]; cbn [bind] in Hc;
    [| discriminate].
  destruct volumes as [| | | | | volumes |];
    try (injection Hc as <-; apply Nat.le_0_l).
  rewrite <- (list_sum_ones volumes).
  apply (for_of_length _ (HA service) _ volumes); [| exact Hc].
  intros v cv _. apply H1.
Qed.

Lemma diagnostics_totals (E : Collaborators) (content : string)
    (files : list string) (appId : string) (docM doc : value)
    (servicesMocked services : list string) (r : list LintingResult) :
  YAML_parse E true (mockVariables E content) = inr docM ->
  fst (validate E docM) = true ->
  YAML_parse E true content = inr doc ->
  lintDockerComposeYml E content files appId = Normal r ->
  service_names docM = Normal servicesMocked ->
  service_names doc = Normal services ->
  List.length (filter (has_id "invalid_docker_image_name") r)
  <= List.length servicesMocked
  /\ List.length (filter (has_id "invalid_app_data_dir_volume_mount") r)
     <= volume_count doc services
  /\ List.length (filter (has_id "missing_file_or_directory") r)
     <= volume_count doc services.
Proof.
  intros HM HV HD H HSM HS.
  destruct (compose_checks E content files appId docM doc r HM HV HD H)
    as (sm & images & booleans & ss & mounts & missing
        & E1 & E2 & E3 & E4 & E5 & E6 & ->).
  rewrite HSM in E1. injection E1 as <-.
  rewrite HS in E4. injection E4 as <-.
  assert (Himages : forall d, In d images ->
                      id d = "invalid_docker_image_name").
  { intros d Hd.
    apply (for_of_In _ (check_image_appends E content docM) _ _ E2) in Hd
      as (service & c & _ & Hc & Hd).
    destruct (check_image_inv E content docM service c d Hc Hd)
      as (image & _ & _ & [[_ ->] | (m & _ & _ & ->)]); reflexivity. }
  assert (Hbooleans : forall d, In d booleans ->
                        id d = "invalid_yaml_boolean_value").
  { intros d Hd.
    apply (for_of_In _ (check_booleans_appends E content docM) _ _ E3) in Hd
      as (service & c & _ & Hc & Hd).
    apply check_booleans_eq in Hc. subst c.
    apply in_flat_map in Hd as (label & _ & Hd).
    unfold boolean_entry_results in Hd.
    apply in_map_iff in Hd as ([key b] & <- & _). reflexivity. }
  assert (Hmounts : forall d, In d mounts ->
                      id d = "invalid_app_data_dir_volume_mount").
  { intros d Hd.
    apply (for_volumes_In doc services _ mounts
             (check_direct_mount_appends E content) E5) in Hd
      as (service & volumes & v & c & _ & _ & _ & Hc & Hd).
    now destruct (check_direct_mount_elem E content service v c d Hc Hd). }
  assert (Hmissing : forall d, In d missing ->
                       id d = "missing_file_or_directory").
  { intros d Hd.
    apply (for_volumes_In doc services _ missing
             (check_mount_exists_appends E content files appId) E6) in Hd
      as (service & volumes & v & c & _ & _ & _ & Hc & Hd).
    destruct (check_mount_exists_elem E content files appId service v c d
                Hc Hd) as (text & sub & -> & _). reflexivity. }
  assert (Hnone : forall name other (l : list LintingResult),
             (forall d, In d l -> id d = other) ->
             String.eqb other name = false ->
             filter (has_id name) l = []).
  { intros name other l Hl Hne. apply filter_none. intros d Hd.
    unfold has_id. now rewrite (Hl d Hd). }
  rewrite !filter_app, !length_app.
  repeat split.
  - rewrite (Hnone "invalid_docker_image_name" _ booleans Hbooleans eq_refl),
      (Hnone "invalid_docker_image_name" _ mounts Hmounts eq_refl),
      (Hnone "invalid_docker_image_name" _ missing Hmissing eq_refl).
    cbn [List.length]. rewrite !Nat.add_0_r.
    etransitivity; [apply filter_length_le |].
    rewrite <- (list_sum_ones servicesMocked).
    apply (for_of_length _ (check_image_appends E content docM) _ _);
      [| exact E2].
    intros service c _. apply check_image_length.
  - rewrite (Hnone "invalid_app_data_dir_volume_mount" _ images Himages eq_refl),
      (Hnone "invalid_app_data_dir_volume_mount" _ booleans Hbooleans eq_refl),
      (Hnone "invalid_app_data_dir_volume_mount" _ missing Hmissing eq_refl).
    cbn [List.length plus]. rewrite !Nat.add_0_r.
    etransitivity; [apply filter_length_le |].
    apply (for_volumes_length doc services _ mounts
             (check_direct_mount_appends E content)); [| exact E5].
    intros service v c. apply check_direct_mount_length.
  - rewrite (Hnone "missing_file_or_directory" _ images Himages eq_refl),
      (Hnone "missing_file_or_directory" _ booleans Hbooleans eq_refl),
      (Hnone "missing_file_or_directory" _ mounts Hmounts eq_refl).
    cbn [List.length plus].
    etransitivity; [apply filter_length_le |].
    apply (for_volumes_length doc services _ missing
             (check_mount_exists_appends E content files appId));
      [| exact E6].
    intros service v c. apply check_mount_exists_length.
Qed.

(** X15.  A run that passes the schema, whose text parses, reports at
    most one image diagnostic for each service of the mocked document,
    and at most one direct-mount warning and at most one missing-file
    error for each volume entry of the document as written: what each
    of these checks contributes is, service by service and entry by
    entry, a list of at most one diagnostic.  So the counts are bounded
    by the number of services and of volume entries. *)
Theorem diagnostics_bounded (E : Collaborators) (content : string)
    (files : list string) (appId : string) (docM doc : value)
    (servicesMocked services : list string) (r : list LintingResult) :
  YAML_parse E true (mockVariables E content) = inr docM ->
  fst (validate E docM) = true ->
  YAML_parse E true content = inr doc ->
  lintDockerComposeYml E content files appId = Normal r ->
  service_names docM = Normal servicesMocked ->
  service_names doc = Normal services ->
  per_service servicesMocked (check_image E content docM)
    (fun _ c => List.length c <= 1)
    (filter (has_id "invalid_docker_image_name") r)
  /\ per_entry doc services (check_direct_mount E content)
       (fun _ _ c => List.length c <= 1)
       (filter (has_id "invalid_app_data_dir_volume_mount") r)
  /\ per_entry doc services (check_mount_exists E content files appId)
       (fun _ _ c => List.length c <= 1)
       (filter (has_id "missing_file_or_directory") r)
  /\ List.length (filter (has_id "invalid_docker_image_name") r)
     <= List.length servicesMocked
  /\ List.length (filter (has_id "invalid_app_data_dir_volume_mount") r)
     <= volume_count doc services
  /\ List.length (filter (has_id "missing_file_or_directory") r)
     <= volume_count doc services.
Proof.
  intros HM HV HD H HSM HS.
  destruct (compose_parts E content files appId docM doc servicesMocked
              services r HM HV HD H HSM HS) as (Himages & Hmounts & Hmissing).
  split; [| split; [| split]].
  - apply (per_service_impl _ _ _ _ _
             (fun service c Hc _ =>
                check_image_length E content docM service c Hc) Himages).
  - apply (per_entry_impl doc services _ _ _ _
             (fun service volume c Hc _ =>
                check_direct_mount_length E content service volume c Hc)
             Hmounts).
  - apply (per_entry_impl doc services _ _ _ _
             (fun service volume c Hc _ =>
                check_mount_exists_length E content files appId service
                  volume c Hc) Hmissing).
  - exact (diagnostics_totals E content files appId docM doc servicesMocked
             services r HM HV HD H HSM HS).
Qed.

Lemma diagnostics_bounded_witness :
  per_entry Fixture.volumes_doc ["web"]
    (check_direct_mount Fixture.volumes Fixture.volumes_content)
    (fun _ _ c => List.length c <= 1)
    (filter (has_id "invalid_app_data_dir_volume_mount")
       (returned (lintDockerComposeYml Fixture.volumes
                    Fixture.volumes_content [] "app")))
  /\ List.length
       (filter (has_id "missing_file_or_directory")
          (returned (lintDockerComposeYml Fixture.volumes
                       Fixture.volumes_content [] "app")))
     <= 2.
Proof.
  pose proof (diagnostics_bounded Fixture.volumes Fixture.volumes_content []
                "app" Fixture.volumes_doc_mocked Fixture.volumes_doc
                ["web"] ["web"] _
                ltac:(run) ltac:(run) ltac:(run) ltac:(run) ltac:(run)
                ltac:(run))
    as (_ & H2 & _ & _ & _ & H6).
  split; [exact H2 | exact H6].
Defined.

(** *** Runs that return *)














Lemma check_mount_exists_checked (E : Collaborators) (content : string)
    (files : list string) (appId service : string) (v : value)
    (c : list LintingResult) (d : LintingResult) :
  check_mount_exists E content files appId service v [] = Normal c ->
  In d c -> checked_volume v.
Proof.
  unfold check_mount_exists. intros H Hd.
  destruct v; invert_body H; injection H as <-;
    try (destruct Hd; fail); cbn [checked_volume];
    try match goal with
        | Hf : falsy None = false |- _ => cbn in Hf; discriminate Hf
        end.
  - split.
    + apply app_data_dir_language. eexists. eassumption.
    + match goal with
      | Hm : match_ ?s subpath_string_re = Some ?m |- _ =>
          exact (subpath_needs_colon s m Hm)
      end.
  - match goal with
    | Hs : assoc "source" ?l = Some (VString ?s),
      Ht : assoc "target" ?l = Some ?t,
      Hm : match_ ?s app_data_dir_re = Some ?m |- _ =>
        exists s, t; repeat split; auto;
        apply app_data_dir_language; now exists m
    end.
Qed.

(** X18.  Where a missing-file error can come from.  Every
    [missing_file_or_directory] of a run on a document that passes the
    schema stems from an entry of some service's volumes that is a
    string with a colon in which [$APP_DATA_DIR] or [${APP_DATA_DIR]
    occurs, or a mapping with a target in whose source it occurs. *)
Theorem missing_file_needs_token (E : Collaborators) (content : string)
    (files : list string) (appId : string) (docM doc : value)
    (services : list string) (r : list LintingResult) :
  YAML_parse E true (mockVariables E content) = inr docM ->
  fst (validate E docM) = true ->
  YAML_parse E true content = inr doc ->
  service_names doc = Normal services ->
  lintDockerComposeYml E content files appId = Normal r ->
  forall d, In d r -> id d = "missing_file_or_directory" ->
    exists service volumes v,
      In service services
      /\ service_volumes doc service = Normal (VArray volumes)
      /\ In v volumes /\ checked_volume v
      /\ propertiesPath d = Some ("services." ++ service ++ ".volumes").
Proof.
  intros HM HV HD HS H d Hd Hid.
  destruct (compose_services E content files appId docM doc r HM HV HD H)
    as (servicesMocked & services' & HSM & HS').
  rewrite HS in HS'. injection HS' as <-.
  destruct (compose_origin E content files appId docM doc servicesMocked
              services r HM HV HD H HSM HS d Hd)
    as [service image Hs Hi Hn Hcase
       | service label key b Hs Hl He ->
       | service volumes v c Hs Hvs Hv Hc Hdc
       | service volumes v c Hs Hvs Hv Hc Hdc].
  - destruct Hcase as [[_ ->] | (m & _ & _ & ->)]; discriminate Hid.
  - discriminate Hid.
  - destruct (check_direct_mount_elem E content service v c d Hc Hdc)
      as [Hid' _]. rewrite Hid' in Hid. discriminate Hid.
  - exists service, volumes, v. repeat split; auto.
    + exact (check_mount_exists_checked E content files appId service v c d
               Hc Hdc).
    + destruct (check_mount_exists_elem E content files appId service v c d
                  Hc Hdc) as (text & sub & -> & _). reflexivity.
Qed.

Lemma missing_file_needs_token_witness :
  Forall
    (fun d =>
       id d = "missing_file_or_directory" ->
       exists service volumes v,
         In service ["web"]
         /\ service_volumes Fixture.volumes_doc service
            = Normal (VArray volumes)
         /\ In v volumes /\ checked_volume v
         /\ propertiesPath d = Some ("services." ++ service ++ ".volumes"))
    (returned (lintDockerComposeYml Fixture.volumes
                 Fixture.volumes_content [] "app")).
Proof.
  apply Forall_forall.
  apply (missing_file_needs_token Fixture.volumes Fixture.volumes_content []
           "app" Fixture.volumes_doc_mocked Fixture.volumes_doc); run.
Defined.
